(** * ProductViz: derived metrics, health score, aggregation and URL validation

    A shallow embedding of the dashboard's computational core:

    - the first version of the React component (language distribution,
      commit-activity window, issue statistics, top labels);
    - the second version of the component (health scorer and the inline
      single-view computations);
    - the backend GitHub service, its Express error handler and
      [validateRepoUrl].

    JavaScript numbers are modelled by [number]: [NaN], or a finite value
    carried as an exact rational; infinities are not modelled (every
    divisor in the modelled code is a non-zero literal or is tested before
    the division), and numbers decoded from a JSON response are finite,
    hence plain [Q].  Module [JS] gives the exact arithmetic that the IEEE
    operations approximate, and the modules built on it describe the
    computations in real arithmetic.  Module [Binary64] gives the double
    arithmetic itself, every operation followed by rounding to the nearest
    double, and the modules built on it ([Scorer64], [Languages64],
    [Display]) are the computations as the engine performs them.  Module
    [Store] holds the arrays of the same functions in a store, to follow
    what each call allocates and what it changes. *)

From Stdlib Require Import ZArith QArith Qround List String Ascii Bool Lia Lqa.
From Stdlib Require Import Qminmax Permutation FinFun DecimalString DecimalPos DecimalN.
From Stdlib Require Import Qabs Qpower.
From Stdlib Require DecimalFacts.
Import ListNotations.

Set Implicit Arguments.

(* ================================================================== *)
(** ** JavaScript values *)
(* ================================================================== *)

Module JS.

(** The Number type. *)
Inductive number : Type :=
| NaN
| Fin (q : Q).

(** Equality of numbers up to the representation of the rational. *)
Definition num_eq (a b : number) : Prop :=
  match a, b with
  | NaN, NaN => True
  | Fin x, Fin y => x == y
  | _, _ => False
  end.

Definition isNaN (a : number) : bool :=
  match a with NaN => true | Fin _ => false end.

Definition of_Z (z : Z) : number := Fin (inject_Z z).
Definition of_nat (n : nat) : number := of_Z (Z.of_nat n).

Definition lift2 (f : Q -> Q -> Q) (a b : number) : number :=
  match a, b with
  | Fin x, Fin y => Fin (f x y)
  | _, _ => NaN
  end.

Definition add : number -> number -> number := lift2 Qplus.
Definition sub : number -> number -> number := lift2 Qminus.
Definition mul : number -> number -> number := lift2 Qmult.

(** [a / b].  [0 / 0] is [NaN] as in JavaScript; [x / 0] for [x <> 0] would
    be an infinity and is outside the model. *)
Definition div (a b : number) : number :=
  match a, b with
  | Fin x, Fin y => if Qeq_bool y 0 then NaN else Fin (x / y)
  | _, _ => NaN
  end.

Definition Qlt_bool (x y : Q) : bool := negb (Qle_bool y x).

(** Relational operators: every comparison with [NaN] is false. *)
Definition lt (a b : number) : bool :=
  match a, b with
  | Fin x, Fin y => Qlt_bool x y
  | _, _ => false
  end.
Definition gt (a b : number) : bool := lt b a.
Definition ge (a b : number) : bool :=
  match a, b with
  | Fin x, Fin y => Qle_bool y x
  | _, _ => false
  end.

(** [a === b] on numbers. *)
Definition strict_eq (a b : number) : bool :=
  match a, b with
  | Fin x, Fin y => Qeq_bool x y
  | _, _ => false
  end.

(** [Math.min], [Math.max] (two arguments) and [Math.round]. *)
Definition Math_min (a b : number) : number :=
  match a, b with
  | Fin x, Fin y => Fin (if Qle_bool x y then x else y)
  | _, _ => NaN
  end.

Definition Math_max (a b : number) : number :=
  match a, b with
  | Fin x, Fin y => Fin (if Qle_bool x y then y else x)
  | _, _ => NaN
  end.

(** [Math.round x] is [floor (x + 0.5)]: halves go up. *)
Definition Math_round (a : number) : number :=
  match a with
  | Fin x => of_Z (Qfloor (x + (1 # 2)))
  | NaN => NaN
  end.

(** Truthiness of a number, and [a || b]. *)
Definition truthy (a : number) : bool :=
  match a with
  | NaN => false
  | Fin x => negb (Qeq_bool x 0)
  end.

Definition or_else (a b : number) : number :=
  if truthy a then a else b.

(** Values found in a decoded JSON payload where the code tests the
    dynamic type before use.  [JObject] stands for any object or array. *)
Inductive value : Type :=
| JUndefined
| JNull
| JBool (b : bool)
| JNum (q : Q)
| JStr (s : string)
| JObject.

(** [typeof v === 'number'] and [typeof v === 'string']. *)
Definition is_number (v : value) : bool :=
  match v with JNum _ => true | _ => false end.

Definition is_string (v : value) : bool :=
  match v with JStr _ => true | _ => false end.

(** Truthiness of a value. *)
Definition value_truthy (v : value) : bool :=
  match v with
  | JUndefined | JNull => false
  | JBool b => b
  | JNum q => negb (Qeq_bool q 0)
  | JStr s => negb (String.eqb s EmptyString)
  | JObject => true
  end.

(** [v === s] for a string literal [s]. *)
Definition is_str (s : string) (v : value) : bool :=
  match v with
  | JStr t => String.eqb t s
  | _ => false
  end.

(** The number held by a value that passed [is_number]. *)
Definition num_of (v : value) : number :=
  match v with
  | JNum q => Fin q
  | _ => NaN
  end.

(** [arr.slice(-n)]: the last [n] elements. *)
Definition slice_last {A : Type} (n : nat) (l : list A) : list A :=
  skipn (List.length l - n) l.

(** [arr.slice(0, n)]. *)
Definition slice_first {A : Type} (n : nat) (l : list A) : list A :=
  firstn n l.

End JS.

Export JS.

Declare Scope js_scope.
Delimit Scope js_scope with js.
Infix "+" := JS.add : js_scope.
Infix "-" := JS.sub : js_scope.
Infix "*" := JS.mul : js_scope.
Infix "/" := JS.div : js_scope.
Infix "=n=" := JS.num_eq (at level 70, no associativity).

(* ================================================================== *)
(** ** Double arithmetic *)
(* ================================================================== *)

Module Binary64.

(** [2^e] for any integer exponent. *)
Definition pow2 (e : Z) : Q := Qpower 2 e.

(** [floor (log2 x)] of a positive rational. *)
Definition ilog2 (x : Q) : Z :=
  let k := (Z.log2 (Qnum x) - Z.log2 (Zpos (Qden x)))%Z in
  if Qle_bool (pow2 k) x then k else (k - 1)%Z.

(** The nearest integer, the even one of the two when [q] lies half way. *)
Definition nearest_even (q : Q) : Z :=
  let f := Qfloor q in
  match Qcompare (q - inject_Z f) (1 # 2) with
  | Lt => f
  | Gt => (f + 1)%Z
  | Eq => if Z.even f then f else (f + 1)%Z
  end.

(** The exponent of the unit in the last place of a positive [x]: 53
    significant bits, and no less than the exponent of the smallest
    subnormal number. *)
Definition ulp_exponent (x : Q) : Z := Z.max (ilog2 x - 52) (-1074).

Definition round_positive (x : Q) : Q :=
  let e := ulp_exponent x in
  inject_Z (nearest_even (x / pow2 e)) * pow2 e.

(** The double nearest to a rational, ties to even.  A result of [2^1024]
    or more stands for an infinity and is outside the model. *)
Definition round64 (x : Q) : Q :=
  match Qcompare x 0 with
  | Eq => 0
  | Gt => round_positive x
  | Lt => - round_positive (- x)
  end.

Definition lift2 (f : Q -> Q -> Q) (a b : number) : number :=
  match a, b with
  | Fin x, Fin y => Fin (round64 (f x y))
  | _, _ => NaN
  end.

Definition add : number -> number -> number := lift2 Qplus.
Definition sub : number -> number -> number := lift2 Qminus.
Definition mul : number -> number -> number := lift2 Qmult.

(** [a / b].  [0 / 0] is [NaN]; [x / 0] for [x <> 0] would be an infinity
    and is outside the model. *)
Definition div (a b : number) : number :=
  match a, b with
  | Fin x, Fin y => if Qeq_bool y 0 then NaN else Fin (round64 (x / y))
  | _, _ => NaN
  end.

(** A decimal literal of the source text: the double nearest to it. *)
Definition literal (q : Q) : number := Fin (round64 q).

(** Half a unit in the last place, relative to the number rounded:
    [2^-53]. *)
Definition unit_roundoff : Q := 1 # 9007199254740992.

End Binary64.

Declare Scope f64_scope.
Delimit Scope f64_scope with f64.
Infix "+" := Binary64.add : f64_scope.
Infix "-" := Binary64.sub : f64_scope.
Infix "*" := Binary64.mul : f64_scope.
Infix "/" := Binary64.div : f64_scope.

(* ================================================================== *)
(** ** Data model (types.ts) *)
(* ================================================================== *)

Record License : Type := mkLicense {
  license_key : string;
  license_name : string
}.

Record GitHubRepo : Type := mkRepo {
  repo_id : Q;
  repo_name : string;
  full_name : string;
  description : option string;
  repo_html_url : string;
  language : option string;
  stargazers_count : Q;
  watchers_count : Q;
  forks_count : Q;
  open_issues_count : Q;
  license : option License;
  created_at : string;
  updated_at : string;
  pushed_at : string;
  size : Q;
  default_branch : string
}.

Record GitHubContributor : Type := mkContributor {
  login : string;
  contributor_id : Q;
  avatar_url : string;
  contributions : Q;
  contributor_html_url : string
}.

Record CommitAuthor : Type := mkCommitAuthor {
  author_name : string;
  author_email : string;
  author_date : string
}.

Record GitHubCommit : Type := mkCommit {
  sha : string;
  commit_author : CommitAuthor;
  commit_message : string;
  commit_html_url : string;
  commit_account : option (string * string)
}.

Record Label : Type := mkLabel {
  label_name : option string;
  label_color : string
}.

(** An issue record as it arrives: [state] is typed ['open' | 'closed'] but
    is tested dynamically, and [labels] need not be an array. *)
Record GitHubIssue : Type := mkIssue {
  issue_id : Q;
  issue_number : Q;
  title : string;
  state : value;
  issue_created_at : string;
  closed_at : option string;
  labels : option (list (option Label));
  issue_html_url : string
}.

(** A weekly bucket as it arrives: [week] and [total] are tested with
    [typeof] before use. *)
Record CommitActivityWeek : Type := mkWeek {
  week : value;
  total : value;
  days : list Q
}.

(** The snapshot.  An absent or non-array collection is [None]; a falsy
    element of an array is [None]. *)
Record RepoAnalytics : Type := mkAnalytics {
  repo : GitHubRepo;
  contributors : option (list GitHubContributor);
  recentCommits : list GitHubCommit;
  issues : option (list (option GitHubIssue));
  commitActivity : option (list (option CommitActivityWeek));
  languages : option (list (string * Q))
}.

(* ================================================================== *)
(** ** Health scorer (second version of the component) *)
(* ================================================================== *)

Module Health.

Local Open Scope string_scope.

Record Metrics : Type := mkMetrics {
  activity : number;
  maintenance : number;
  community : number;
  documentation : number;
  stability : number
}.

Record HealthMetrics : Type := mkHealth {
  score : number;
  grade : string;
  color : string;
  metrics : Metrics;
  recommendations : list string
}.

(** [arr.push(x)] on the local array, as the new array. *)
Definition push (arr : list string) (x : string) : list string := arr ++ [x].

Section Scorer.

(** The host's [Date]: [Date_parse s] is the time value, in milliseconds,
    of [new Date(s)], or [None] when the date is invalid (the constructor
    does not throw on an unparsable string); [Date_now] is [Date.now()]. *)
Variable Date_parse : string -> option Z.
Variable Date_now : Z.

(** [new Date(s).getTime()]. *)
Definition getTime (s : string) : number :=
  match Date_parse s with
  | Some t => of_Z t
  | None => NaN
  end.

Definition ms_per_day : number := of_Z (1000 * 60 * 60 * 24).

(** [week && typeof week.total === 'number'] *)
Definition has_numeric_total (w : option CommitActivityWeek) : bool :=
  match w with
  | Some wk => is_number (total wk)
  | None => false
  end.

(** The [try] block around the reduction cannot throw: every element is
    tested before its field is read. *)
Definition recentCommits_of (data : RepoAnalytics) : number :=
  match commitActivity data with
  | Some ((_ :: _) as weeks) =>
      fold_left
        (fun sum w =>
           match w with
           | Some wk => (sum + num_of (total wk))%js
           | None => sum
           end)
        (filter has_numeric_total (slice_last 4 weeks))
        (of_Z 0)
  | _ => of_Z 0
  end.

Definition activityScore (data : RepoAnalytics) : number :=
  Math_min (of_Z 100) ((recentCommits_of data / of_Z 50) * of_Z 100)%js.

(** [i && i.state === 'closed'] *)
Definition is_closed (i : option GitHubIssue) : bool :=
  match i with
  | Some x => is_str "closed" (state x)
  | None => false
  end.

Definition closedIssues (data : RepoAnalytics) : number :=
  match issues data with
  | Some l => of_nat (List.length (filter is_closed l))
  | None => of_Z 0
  end.

Definition totalIssues (data : RepoAnalytics) : number :=
  (or_else (Fin (open_issues_count (repo data))) (of_Z 0) + closedIssues data)%js.

Definition issueRatio (data : RepoAnalytics) : number :=
  if gt (totalIssues data) (of_Z 0)
  then (closedIssues data / totalIssues data)%js
  else Fin (1 # 2).

Definition maintenanceScore (data : RepoAnalytics) : number :=
  (issueRatio data * of_Z 100)%js.

Definition contributorCount (data : RepoAnalytics) : number :=
  match contributors data with
  | Some l => of_nat (List.length l)
  | None => of_Z 0
  end.

Definition contributorScore (data : RepoAnalytics) : number :=
  Math_min (of_Z 100) ((contributorCount data / of_Z 20) * of_Z 100)%js.

Definition starScore (data : RepoAnalytics) : number :=
  Math_min (of_Z 100)
    ((or_else (Fin (stargazers_count (repo data))) (of_Z 0) / of_Z 1000) * of_Z 100)%js.

Definition communityScore (data : RepoAnalytics) : number :=
  ((contributorScore data + starScore data) / of_Z 2)%js.

(** Truthiness of [description] (a non-empty string) and of [license]. *)
Definition has_description (r : GitHubRepo) : bool :=
  match description r with
  | Some s => negb (String.eqb s "")
  | None => false
  end.

Definition has_license (r : GitHubRepo) : bool :=
  match license r with Some _ => true | None => false end.

Definition documentationScore (data : RepoAnalytics) : number :=
  let docScore := of_Z 0 in
  let docScore :=
    if has_description (repo data) then (docScore + of_Z 40)%js else docScore in
  let docScore :=
    if has_license (repo data) then (docScore + of_Z 30)%js else docScore in
  let docScore := (docScore + of_Z 30)%js in
  docScore.

(** The two assignments inside the [try] block.  Neither [new Date], nor
    [getTime], nor the arithmetic throws, so the [catch] branch that
    resets both scores to 50 is never entered. *)
Definition ageInDays (data : RepoAnalytics) : number :=
  ((of_Z Date_now - getTime (created_at (repo data))) / ms_per_day)%js.

Definition ageScore (data : RepoAnalytics) : number :=
  Math_min (of_Z 100) ((ageInDays data / of_Z 365) * of_Z 50)%js.

Definition daysSinceUpdate (data : RepoAnalytics) : number :=
  ((of_Z Date_now - getTime (updated_at (repo data))) / ms_per_day)%js.

Definition freshnessScore (data : RepoAnalytics) : number :=
  Math_max (of_Z 0) (of_Z 100 - (daysSinceUpdate data / of_Z 30) * of_Z 50)%js.

Definition stabilityScore (data : RepoAnalytics) : number :=
  ((ageScore data + freshnessScore data) / of_Z 2)%js.

Definition overallScore (data : RepoAnalytics) : number :=
  Math_round
    (activityScore data * Fin (25 # 100)
     + maintenanceScore data * Fin (25 # 100)
     + communityScore data * Fin (2 # 10)
     + documentationScore data * Fin (15 # 100)
     + stabilityScore data * Fin (15 # 100))%js.

Definition gradeAndColor (overall : number) : string * string :=
  if ge overall (of_Z 90) then ("A+", "#10B981")
  else if ge overall (of_Z 80) then ("A", "#34D399")
  else if ge overall (of_Z 70) then ("B", "#FBBF24")
  else if ge overall (of_Z 60) then ("C", "#F59E0B")
  else if ge overall (of_Z 50) then ("D", "#F97316")
  else ("F", "#EF4444").

Definition rec_activity := "Increase commit frequency to show active development".
Definition rec_maintenance := "Address open issues to improve maintenance score".
Definition rec_community := "Encourage more contributors and engagement".
Definition rec_documentation :=
  "Improve documentation with detailed README and proper license".
Definition rec_stability := "Update repository more regularly to maintain stability".

Definition recommendations_of (data : RepoAnalytics) : list string :=
  let recs := [] in
  let recs :=
    if lt (activityScore data) (of_Z 50) then push recs rec_activity else recs in
  let recs :=
    if lt (maintenanceScore data) (of_Z 60) then push recs rec_maintenance else recs in
  let recs :=
    if lt (communityScore data) (of_Z 50) then push recs rec_community else recs in
  let recs :=
    if lt (documentationScore data) (of_Z 70) then push recs rec_documentation else recs in
  let recs :=
    if lt (stabilityScore data) (of_Z 60) then push recs rec_stability else recs in
  recs.

Definition calculateHealthScore (data : RepoAnalytics) : HealthMetrics :=
  let overall := overallScore data in
  let gc := gradeAndColor overall in
  {| score := overall;
     grade := fst gc;
     color := snd gc;
     metrics :=
       {| activity := Math_round (activityScore data);
          maintenance := Math_round (maintenanceScore data);
          community := Math_round (communityScore data);
          documentation := Math_round (documentationScore data);
          stability := Math_round (stabilityScore data) |};
     recommendations := recommendations_of data |}.

End Scorer.

End Health.

(* ================================================================== *)
(** ** Health scorer in double arithmetic *)
(* ================================================================== *)

(** [calculateHealthScore] as the engine computes it: the text of module
    [Health] with every [+], [-], [*] and [/] rounded to the nearest
    double, and the literals [0.2] and [0.15] standing for the doubles
    nearest to them.  Counts, time values and the other literals are
    doubles as they stand. *)
Module Scorer64.

Import Health.

Local Open Scope string_scope.

Section Scorer.

Variable Date_parse : string -> option Z.
Variable Date_now : Z.

Definition recentCommits_of (data : RepoAnalytics) : number :=
  match commitActivity data with
  | Some ((_ :: _) as weeks) =>
      fold_left
        (fun sum w =>
           match w with
           | Some wk => (sum + num_of (total wk))%f64
           | None => sum
           end)
        (filter has_numeric_total (slice_last 4 weeks))
        (of_Z 0)
  | _ => of_Z 0
  end.

Definition activityScore (data : RepoAnalytics) : number :=
  Math_min (of_Z 100) ((recentCommits_of data / of_Z 50) * of_Z 100)%f64.

Definition totalIssues (data : RepoAnalytics) : number :=
  (or_else (Fin (open_issues_count (repo data))) (of_Z 0) + closedIssues data)%f64.

Definition issueRatio (data : RepoAnalytics) : number :=
  if gt (totalIssues data) (of_Z 0)
  then (closedIssues data / totalIssues data)%f64
  else Fin (1 # 2).

Definition maintenanceScore (data : RepoAnalytics) : number :=
  (issueRatio data * of_Z 100)%f64.

Definition contributorScore (data : RepoAnalytics) : number :=
  Math_min (of_Z 100) ((contributorCount data / of_Z 20) * of_Z 100)%f64.

Definition starScore (data : RepoAnalytics) : number :=
  Math_min (of_Z 100)
    ((or_else (Fin (stargazers_count (repo data))) (of_Z 0) / of_Z 1000) * of_Z 100)%f64.

Definition communityScore (data : RepoAnalytics) : number :=
  ((contributorScore data + starScore data) / of_Z 2)%f64.

Definition documentationScore (data : RepoAnalytics) : number :=
  let docScore := of_Z 0 in
  let docScore :=
    if has_description (repo data) then (docScore + of_Z 40)%f64 else docScore in
  let docScore :=
    if has_license (repo data) then (docScore + of_Z 30)%f64 else docScore in
  let docScore := (docScore + of_Z 30)%f64 in
  docScore.

Definition ageInDays (data : RepoAnalytics) : number :=
  ((of_Z Date_now - getTime Date_parse (created_at (repo data))) / ms_per_day)%f64.

Definition ageScore (data : RepoAnalytics) : number :=
  Math_min (of_Z 100) ((ageInDays data / of_Z 365) * of_Z 50)%f64.

Definition daysSinceUpdate (data : RepoAnalytics) : number :=
  ((of_Z Date_now - getTime Date_parse (updated_at (repo data))) / ms_per_day)%f64.

Definition freshnessScore (data : RepoAnalytics) : number :=
  Math_max (of_Z 0) (of_Z 100 - (daysSinceUpdate data / of_Z 30) * of_Z 50)%f64.

Definition stabilityScore (data : RepoAnalytics) : number :=
  ((ageScore data + freshnessScore data) / of_Z 2)%f64.

Definition overallScore (data : RepoAnalytics) : number :=
  Math_round
    (activityScore data * Fin (25 # 100)
     + maintenanceScore data * Fin (25 # 100)
     + communityScore data * Binary64.literal (2 # 10)
     + documentationScore data * Binary64.literal (15 # 100)
     + stabilityScore data * Binary64.literal (15 # 100))%f64.

Definition recommendations_of (data : RepoAnalytics) : list string :=
  let recs := [] in
  let recs :=
    if lt (activityScore data) (of_Z 50) then push recs rec_activity else recs in
  let recs :=
    if lt (maintenanceScore data) (of_Z 60) then push recs rec_maintenance else recs in
  let recs :=
    if lt (communityScore data) (of_Z 50) then push recs rec_community else recs in
  let recs :=
    if lt (documentationScore data) (of_Z 70) then push recs rec_documentation else recs in
  let recs :=
    if lt (stabilityScore data) (of_Z 60) then push recs rec_stability else recs in
  recs.

Definition calculateHealthScore (data : RepoAnalytics) : HealthMetrics :=
  let overall := overallScore data in
  let gc := gradeAndColor overall in
  {| score := overall;
     grade := fst gc;
     color := snd gc;
     metrics :=
       {| activity := Math_round (activityScore data);
          maintenance := Math_round (maintenanceScore data);
          community := Math_round (communityScore data);
          documentation := Math_round (documentationScore data);
          stability := Math_round (stabilityScore data) |};
     recommendations := recommendations_of data |}.

End Scorer.

End Scorer64.

(* ================================================================== *)
(** ** Derived metrics (first version of the component) *)
(* ================================================================== *)

Module Metrics.

Local Open Scope string_scope.

(** The component's state hooks; the functions below are closures over
    [analytics]. *)
Record Component : Type := mkComponent {
  repoUrl : string;
  analytics : option RepoAnalytics;
  loading : bool;
  error : string
}.

Record LanguageData : Type := mkLanguageData {
  lang_name : string;
  lang_value : Q;
  percentage : string;
  lang_color : string
}.

Record CommitActivityData : Type := mkCommitActivityData {
  week_label : string;
  commits : number;
  date : string
}.

Record IssueStats : Type := mkIssueStats {
  open : nat;
  closed : nat;
  stats_total : nat
}.

Record LabelCount : Type := mkLabelCount {
  count_name : string;
  count : nat
}.

(** Decimal rendering of a non-negative integer ([String(n)]). *)
Definition string_of_N (n : N) : string := NilZero.string_of_uint (N.to_uint n).
Definition string_of_nat (n : nat) : string := string_of_N (N.of_nat n).

(** The integer [n] for which [n / 10 - x] is closest to zero, the larger
    one on a tie ([x >= 0]). *)
Definition nearest_tenths (x : Q) : Z := Qfloor (x * 10 + (1 # 2)).

(** Inserting the decimal point before the last digit, after padding the
    digit string to two characters. *)
Definition point_before_last (m : string) : string :=
  let m := if (String.length m <=? 1)%nat then "0" ++ m else m in
  let k := String.length m in
  substring 0 (k - 1) m ++ "." ++ substring (k - 1) 1 m.

(** [x.toFixed(1)].  The branch for [|x| >= 1e21], which switches to the
    exponent notation, is not modelled. *)
Definition toFixed1 (a : number) : string :=
  match a with
  | NaN => "NaN"
  | Fin x =>
      let neg := Qlt_bool x 0 in
      let ax := if neg then (- x)%Q else x in
      let n := Z.to_N (nearest_tenths ax) in
      (if neg then "-" else "") ++ point_before_last (string_of_N n)
  end.

Definition getLanguageColors : list (string * string) :=
  [ ("JavaScript", "#f1e05a"); ("TypeScript", "#2b7489"); ("Python", "#3572A5");
    ("Java", "#b07219"); ("C++", "#f34b7d"); ("C", "#555555"); ("C#", "#239120");
    ("PHP", "#4F5D95"); ("Ruby", "#701516"); ("Go", "#00ADD8"); ("Rust", "#dea584");
    ("Swift", "#ffac45"); ("Kotlin", "#F18E33"); ("Scala", "#c22d40");
    ("Shell", "#89e051"); ("HTML", "#e34c26"); ("CSS", "#1572B6");
    ("Vue", "#2c3e50"); ("React", "#61dafb") ].

Fixpoint lookup {A : Type} (k : string) (m : list (string * A)) : option A :=
  match m with
  | [] => None
  | (k', v) :: m' => if String.eqb k' k then Some v else lookup k m'
  end.

(** [colors[lang] || '#8884d8'] (property names inherited from
    [Object.prototype] are not language names and are not modelled). *)
Definition color_of (lang : string) : string :=
  match lookup lang getLanguageColors with
  | Some c => c
  | None => "#8884d8"
  end.

(** [arr.sort(cmp)]: the sort is stable and, for a comparator that is a
    consistent ordering, returns the unique stable ordered permutation;
    it is computed here by insertion.  [cmp a b > 0] puts [b] first. *)
Section Sort.
Variable A : Type.
Variable cmp : A -> A -> number.

Fixpoint insert (x : A) (l : list A) : list A :=
  match l with
  | [] => [x]
  | y :: l' => if gt (cmp x y) (of_Z 0) then y :: insert x l' else x :: y :: l'
  end.

Fixpoint sort (l : list A) : list A :=
  match l with
  | [] => []
  | x :: l' => insert x (sort l')
  end.
End Sort.

(** [arr.map((x, index) => f x index)]. *)
Fixpoint mapi_from {A B : Type} (i : nat) (f : A -> nat -> B) (l : list A) : list B :=
  match l with
  | [] => []
  | x :: l' => f x i :: mapi_from (S i) f l'
  end.
Definition mapi {A B : Type} (f : A -> nat -> B) (l : list A) : list B :=
  mapi_from 0 f l.

(** Sum of [Object.values(languages)]. *)
Definition total_bytes (langs : list (string * Q)) : number :=
  fold_left (fun sum kv => (sum + Fin (snd kv))%js) langs (of_Z 0).

Definition language_entry (total : number) (kv : string * Q) : LanguageData :=
  let (lang, bytes) := kv in
  {| lang_name := lang;
     lang_value := bytes;
     percentage := toFixed1 ((Fin bytes / total) * of_Z 100)%js;
     lang_color := color_of lang |}.

Definition by_value_desc (a b : LanguageData) : number :=
  (Fin (lang_value b) - Fin (lang_value a))%js.

Definition prepareLanguageData (c : Component) : list LanguageData :=
  match analytics c with
  | None => []
  | Some a =>
      match languages a with
      | None | Some [] => []
      | Some langs =>
          let total := total_bytes langs in
          if strict_eq total (of_Z 0) then []
          else
            slice_first 6
              (sort by_value_desc
                 (map (language_entry total)
                    (filter (fun kv => gt (Fin (snd kv)) (of_Z 0)) langs)))
      end
  end.

(** [week && typeof week.week === 'number' && typeof week.total === 'number'] *)
Definition well_formed_week (w : option CommitActivityWeek) : bool :=
  match w with
  | Some wk => is_number (week wk) && is_number (total wk)
  | None => false
  end.

(** Field reads on an element that passed [well_formed_week]. *)
Definition week_field (w : option CommitActivityWeek) : value :=
  match w with Some wk => week wk | None => JUndefined end.
Definition total_field (w : option CommitActivityWeek) : value :=
  match w with Some wk => total wk | None => JUndefined end.

Section Locale.

(** [new Date(v).toLocaleDateString()] in the host's locale and time
    zone. *)
Variable Date_toLocaleDateString : number -> string.

Definition commit_entry (w : option CommitActivityWeek) (index : nat)
  : CommitActivityData :=
  {| week_label := "Week " ++ string_of_nat (index + 1)%nat;
     commits := Math_max (of_Z 0) (num_of (total_field w));
     date := Date_toLocaleDateString (num_of (week_field w) * of_Z 1000)%f64 |}.

Definition commit_window (weeks : list (option CommitActivityWeek))
  : list CommitActivityData :=
  slice_last 12 (mapi commit_entry (filter well_formed_week weeks)).

Definition prepareCommitActivityData (c : Component) : list CommitActivityData :=
  match analytics c with
  | None => []
  | Some a =>
      match commitActivity a with
      | None => []
      | Some weeks => commit_window weeks
      end
  end.

End Locale.

(** [issue && typeof issue.state === 'string'] *)
Definition valid_issue (i : option GitHubIssue) : bool :=
  match i with
  | Some x => is_string (state x)
  | None => false
  end.

Definition state_is (s : string) (i : option GitHubIssue) : bool :=
  match i with
  | Some x => is_str s (state x)
  | None => false
  end.

Definition getIssueStats (c : Component) : IssueStats :=
  match analytics c with
  | None => {| open := 0%nat; closed := 0%nat; stats_total := 0%nat |}
  | Some a =>
      match issues a with
      | None => {| open := 0%nat; closed := 0%nat; stats_total := 0%nat |}
      | Some l =>
          let validIssues := filter valid_issue l in
          let open := List.length (filter (state_is "open") validIssues) in
          let closed := List.length (filter (state_is "closed") validIssues) in
          {| open := open; closed := closed; stats_total := (open + closed)%nat |}
      end
  end.

(** The [labelCount] object: own properties in creation order.
    [bump name o] is [o[name] = (o[name] || 0) + 1]. *)
Fixpoint bump (name : string) (o : list (string * nat)) : list (string * nat) :=
  match o with
  | [] => [(name, 1%nat)]
  | (k, n) :: o' =>
      if String.eqb k name then (k, (n + 1)%nat) :: o' else (k, n) :: bump name o'
  end.

(** [label && label.name] *)
Definition label_key (l : option Label) : option string :=
  match l with
  | Some lb =>
      match label_name lb with
      | Some s => if String.eqb s "" then None else Some s
      | None => None
      end
  | None => None
  end.

Definition count_labels_of_issue (o : list (string * nat)) (i : option GitHubIssue)
  : list (string * nat) :=
  match i with
  | Some x =>
      match labels x with
      | Some ls =>
          fold_left
            (fun o l => match label_key l with Some s => bump s o | None => o end)
            ls o
      | None => o
      end
  | None => o
  end.

(** Whether a key is an array index (a canonical decimal numeral below
    [2^32 - 1]); [Object.entries] lists such keys first, in ascending
    numeric order, then the other keys in creation order. *)
Definition array_index (s : string) : option N :=
  match NilZero.uint_of_string s with
  | Some d =>
      let n := N.of_uint d in
      if String.eqb (string_of_N n) s && (n <? 4294967295)%N then Some n else None
  | None => None
  end.

Fixpoint insert_index {A : Type} (x : N * A) (l : list (N * A)) : list (N * A) :=
  match l with
  | [] => [x]
  | y :: l' => if (fst y <? fst x)%N then y :: insert_index x l' else x :: y :: l'
  end.

Definition Object_entries {A : Type} (o : list (string * A)) : list (string * A) :=
  let indexed :=
    fold_right
      (fun kv acc =>
         match array_index (fst kv) with
         | Some n => insert_index (n, kv) acc
         | None => acc
         end) [] o in
  map snd indexed
  ++ filter (fun kv => match array_index (fst kv) with Some _ => false | None => true end) o.

Definition by_count_desc (a b : LabelCount) : number :=
  (of_nat (count b) - of_nat (count a))%js.

(** Label names that collide with members of [Object.prototype] are not
    modelled. *)
Definition getTopLabels (c : Component) : list LabelCount :=
  match analytics c with
  | None => []
  | Some a =>
      match issues a with
      | None => []
      | Some l =>
          let labelCount := fold_left count_labels_of_issue l [] in
          slice_first 5
            (sort by_count_desc
               (map (fun kv => {| count_name := fst kv; count := snd kv |})
                  (Object_entries labelCount)))
      end
  end.

End Metrics.

(* ================================================================== *)
(** ** Inline computations of the single-view branch (second version) *)
(* ================================================================== *)

Module SingleView.

Local Open Scope string_scope.

Section Locale.
Variable Date_toLocaleDateString : number -> string.

(** The [commitData] constant of the commit-activity card. *)
Definition commitData (analytics : option RepoAnalytics)
  : list Metrics.CommitActivityData :=
  match analytics with
  | None => []
  | Some a =>
      match commitActivity a with
      | None => []
      | Some weeks =>
          slice_last 12
            (Metrics.mapi (Metrics.commit_entry Date_toLocaleDateString)
               (filter Metrics.well_formed_week weeks))
      end
  end.
End Locale.

(** [i && i.state] *)
Definition has_state (i : option GitHubIssue) : bool :=
  match i with
  | Some x => value_truthy (state x)
  | None => false
  end.

(** The [issueStats] constant of the issue-statistics card. *)
Definition issueStats (analytics : option RepoAnalytics) : Metrics.IssueStats :=
  match analytics with
  | None => Metrics.mkIssueStats 0 0 0
  | Some a =>
      match issues a with
      | None => Metrics.mkIssueStats 0 0 0
      | Some l =>
          {| Metrics.open := List.length (filter (Metrics.state_is "open") l);
             Metrics.closed := List.length (filter (Metrics.state_is "closed") l);
             Metrics.stats_total := List.length (filter has_state l) |}
      end
  end.

End SingleView.

(* ================================================================== *)
(** ** Language distribution in double arithmetic *)
(* ================================================================== *)

(** [prepareLanguageData] as the engine computes it: the text of the
    function in module [Metrics] with the sum, the quotient, the product
    and the comparator's difference rounded to the nearest double. *)
Module Languages64.

Import Metrics.

Definition total_bytes (langs : list (string * Q)) : number :=
  fold_left (fun sum kv => (sum + Fin (snd kv))%f64) langs (of_Z 0).

Definition language_entry (total : number) (kv : string * Q) : LanguageData :=
  let (lang, bytes) := kv in
  {| lang_name := lang;
     lang_value := bytes;
     percentage := toFixed1 ((Fin bytes / total) * of_Z 100)%f64;
     lang_color := color_of lang |}.

Definition by_value_desc (a b : LanguageData) : number :=
  (Fin (lang_value b) - Fin (lang_value a))%f64.

Definition prepareLanguageData (c : Component) : list LanguageData :=
  match analytics c with
  | None => []
  | Some a =>
      match languages a with
      | None | Some [] => []
      | Some langs =>
          let total := total_bytes langs in
          if strict_eq total (of_Z 0) then []
          else
            slice_first 6
              (sort by_value_desc
                 (map (language_entry total)
                    (filter (fun kv => gt (Fin (snd kv)) (of_Z 0)) langs)))
      end
  end.

(** The number of tenths that [toFixed(1)] prints for an entry of a map
    whose total is [t]. *)
Definition printed_tenths (t : Q) (e : LanguageData) : N :=
  Z.to_N
    (nearest_tenths (Binary64.round64 (Binary64.round64 (lang_value e / t) * 100))).

End Languages64.

(* ================================================================== *)
(** ** The component's functions over a store *)
(* ================================================================== *)

(** The same functions with their arrays and plain objects held in a
    store, as the engine holds them: the snapshot's collections are
    references, every array method reads the array it is called on, and
    either allocates its result or, for [sort] and [push], changes that
    array in place.  The objects that are built once and only read
    afterwards (the rows, the report and its [metrics], the colour table)
    are values. *)
Module Store.

Import Metrics.

(** The arrays and plain objects the component allocates or receives.
    An array is the list of its elements; a plain object ([languages],
    [labelCount]) is the list of its own properties in creation order. *)
Inductive object : Type :=
| OContributors (l : list GitHubContributor)
| OIssues (l : list (option GitHubIssue))
| OWeeks (l : list (option CommitActivityWeek))
| OBytes (l : list (string * Q))
| OKeys (l : list string)
| ONumbers (l : list Q)
| OLanguageData (l : list LanguageData)
| OCommitData (l : list CommitActivityData)
| OCounts (l : list (string * nat))
| OLabelCount (l : list LabelCount).

(** A reference is the position of an object in the store; allocation
    appends. *)
Definition loc : Type := nat.
Definition store : Type := list object.

Class Stored (A : Type) : Type := {
  box : list A -> object;
  unbox : object -> option (list A);
  unbox_box : forall l, unbox (box l) = Some l
}.

#[export] Instance Stored_contributor : Stored GitHubContributor :=
  {| box := OContributors;
     unbox := fun o => match o with OContributors l => Some l | _ => None end;
     unbox_box := fun l => eq_refl |}.
#[export] Instance Stored_issue : Stored (option GitHubIssue) :=
  {| box := OIssues;
     unbox := fun o => match o with OIssues l => Some l | _ => None end;
     unbox_box := fun l => eq_refl |}.
#[export] Instance Stored_week : Stored (option CommitActivityWeek) :=
  {| box := OWeeks;
     unbox := fun o => match o with OWeeks l => Some l | _ => None end;
     unbox_box := fun l => eq_refl |}.
#[export] Instance Stored_bytes : Stored (string * Q) :=
  {| box := OBytes;
     unbox := fun o => match o with OBytes l => Some l | _ => None end;
     unbox_box := fun l => eq_refl |}.
#[export] Instance Stored_key : Stored string :=
  {| box := OKeys;
     unbox := fun o => match o with OKeys l => Some l | _ => None end;
     unbox_box := fun l => eq_refl |}.
#[export] Instance Stored_number : Stored Q :=
  {| box := ONumbers;
     unbox := fun o => match o with ONumbers l => Some l | _ => None end;
     unbox_box := fun l => eq_refl |}.
#[export] Instance Stored_language : Stored LanguageData :=
  {| box := OLanguageData;
     unbox := fun o => match o with OLanguageData l => Some l | _ => None end;
     unbox_box := fun l => eq_refl |}.
#[export] Instance Stored_commit : Stored CommitActivityData :=
  {| box := OCommitData;
     unbox := fun o => match o with OCommitData l => Some l | _ => None end;
     unbox_box := fun l => eq_refl |}.
#[export] Instance Stored_count : Stored (string * nat) :=
  {| box := OCounts;
     unbox := fun o => match o with OCounts l => Some l | _ => None end;
     unbox_box := fun l => eq_refl |}.
#[export] Instance Stored_label : Stored LabelCount :=
  {| box := OLabelCount;
     unbox := fun o => match o with OLabelCount l => Some l | _ => None end;
     unbox_box := fun l => eq_refl |}.

(** A computation reads and changes the store; it has no result when it
    follows a reference to an object of another kind, which typed code
    does not do. *)
Definition M (A : Type) : Type := store -> option (A * store).

Definition ret {A : Type} (x : A) : M A := fun s => Some (x, s).

Definition bind {A B : Type} (m : M A) (f : A -> M B) : M B :=
  fun s => match m s with Some (x, s') => f x s' | None => None end.

Notation "x <- m ;; k" := (bind m (fun x => k))
  (at level 61, m at next level, right associativity).
Notation "m ;;; k" := (bind m (fun _ => k))
  (at level 61, right associativity).

Fixpoint update (a : loc) (o : object) (s : store) : store :=
  match s, a with
  | [], _ => []
  | _ :: t, O => o :: t
  | x :: t, S a' => x :: update a' o t
  end.

Definition lookup {A : Type} `{Stored A} (s : store) (a : loc) : option (list A) :=
  match nth_error s a with
  | Some o => unbox o
  | None => None
  end.

Definition alloc {A : Type} `{Stored A} (l : list A) : M loc :=
  fun s => Some (List.length s, s ++ [box l]).

Definition read {A : Type} `{Stored A} (a : loc) : M (list A) :=
  fun s => match lookup s a with Some l => Some (l, s) | None => None end.

Definition write {A : Type} `{Stored A} (a : loc) (l : list A) : M unit :=
  fun s => if (a <? List.length s)%nat then Some (tt, update a (box l) s) else None.

(** [m], started in a store that extends [s] by the objects [t], returns
    [x] and leaves the store that extends [s] by [t']. *)
Definition exec {A : Type} (m : M A) (s t : store) (x : A) (t' : store) : Prop :=
  m (s ++ t) = Some (x, s ++ t').

(** The reference [a] leads to the array [l] in the store that extends
    [s] by [t]. *)
Definition holds {A : Type} `{Stored A} (s t : store) (a : loc) (l : list A) : Prop :=
  lookup (s ++ t) a = Some l.

(** The array methods the component uses.  [filter], [map] and [slice]
    return a new array; [sort] and [push] change the array they are
    called on. *)
Definition Array_filter {A : Type} `{Stored A} (f : A -> bool) (a : loc) : M loc :=
  l <- read a ;; alloc (List.filter f l).

Definition Array_map {A B : Type} `{Stored A} `{Stored B} (f : A -> B) (a : loc)
  : M loc :=
  l <- read a ;; alloc (List.map f l).

Definition Array_mapi {A B : Type} `{Stored A} `{Stored B} (f : A -> nat -> B)
    (a : loc) : M loc :=
  l <- read a ;; alloc (mapi f l).

Definition Array_sort {A : Type} `{Stored A} (cmp : A -> A -> number) (a : loc)
  : M loc :=
  l <- read a ;; write a (sort cmp l) ;;; ret a.

Definition Array_slice_first {A : Type} `{Stored A} (n : nat) (a : loc) : M loc :=
  l <- read (A := A) a ;; alloc (slice_first n l).

Definition Array_slice_last {A : Type} `{Stored A} (n : nat) (a : loc) : M loc :=
  l <- read (A := A) a ;; alloc (slice_last n l).

Definition Array_length {A : Type} `{Stored A} (a : loc) : M nat :=
  l <- read (A := A) a ;; ret (List.length l).

Definition Array_reduce {A B : Type} `{Stored A} (f : B -> A -> B) (init : B)
    (a : loc) : M B :=
  l <- read a ;; ret (fold_left f l init).

Definition Array_push {A : Type} `{Stored A} (a : loc) (x : A) : M unit :=
  l <- read a ;; write a (l ++ [x]).

(** [arr.forEach(body)]: the body is run on the elements in turn. *)
Fixpoint for_each {A : Type} (body : A -> M unit) (l : list A) : M unit :=
  match l with
  | [] => ret tt
  | x :: l' => body x ;;; for_each body l'
  end.

Definition Array_forEach {A : Type} `{Stored A} (body : A -> M unit) (a : loc)
  : M unit :=
  l <- read a ;; for_each body l.

(** [Object.entries], [Object.keys] and [Object.values] list the own
    properties of a plain object in the same order, into a new array. *)
Definition Object_entries_of {A : Type} `{Stored (string * A)} (o : loc) : M loc :=
  l <- read (A := string * A) o ;; alloc (Object_entries l).

Definition Object_keys {A : Type} `{Stored (string * A)} (o : loc) : M loc :=
  l <- read (A := string * A) o ;; alloc (List.map fst (Object_entries l)).

Definition Object_values (o : loc) : M loc :=
  l <- read (A := string * Q) o ;; alloc (List.map snd (Object_entries l)).

(** The snapshot held in the [analytics] state: its collections are
    references. *)
Record RepoAnalyticsRef : Type := mkAnalyticsRef {
  repo_value : GitHubRepo;
  contributors_at : option loc;
  recentCommits_value : list GitHubCommit;
  issues_at : option loc;
  commitActivity_at : option loc;
  languages_at : option loc
}.

Record ComponentRef : Type := mkComponentRef {
  repoUrl_value : string;
  analytics_at : option RepoAnalyticsRef;
  loading_value : bool;
  error_value : string
}.

(** The host: its clock, its date parser, and its locale and time zone. *)
Record Host : Type := mkHost {
  Date_parse : string -> option Z;
  Date_now : Z;
  Date_toLocaleDateString : number -> string
}.

Definition prepareLanguageData (c : ComponentRef) : M loc :=
  match analytics_at c with
  | None => alloc (@nil LanguageData)
  | Some a =>
      match languages_at a with
      | None => alloc (@nil LanguageData)
      | Some o =>
          keys <- Object_keys (A := Q) o ;;
          n <- Array_length (A := string) keys ;;
          if (n =? 0)%nat then alloc (@nil LanguageData)
          else
            values <- Object_values o ;;
            total <- Array_reduce (fun sum bytes => (sum + Fin bytes)%f64) (of_Z 0)
                       values ;;
            if strict_eq total (of_Z 0) then alloc (@nil LanguageData)
            else
              entries <- Object_entries_of (A := Q) o ;;
              positive <- Array_filter (fun kv : string * Q => gt (Fin (snd kv)) (of_Z 0))
                            entries ;;
              rows <- Array_map (Languages64.language_entry total) positive ;;
              sorted <- Array_sort Languages64.by_value_desc rows ;;
              Array_slice_first (A := LanguageData) 6 sorted
      end
  end.

Definition prepareCommitActivityData (h : Host) (c : ComponentRef) : M loc :=
  match analytics_at c with
  | None => alloc (@nil CommitActivityData)
  | Some a =>
      match commitActivity_at a with
      | None => alloc (@nil CommitActivityData)
      | Some weeks =>
          wf <- Array_filter well_formed_week weeks ;;
          rows <- Array_mapi (commit_entry (Date_toLocaleDateString h)) wf ;;
          Array_slice_last (A := CommitActivityData) 12 rows
      end
  end.

Definition getIssueStats (c : ComponentRef) : M IssueStats :=
  match analytics_at c with
  | None => ret {| open := 0%nat; closed := 0%nat; stats_total := 0%nat |}
  | Some a =>
      match issues_at a with
      | None => ret {| open := 0%nat; closed := 0%nat; stats_total := 0%nat |}
      | Some l =>
          validIssues <- Array_filter valid_issue l ;;
          opened <- Array_filter (state_is "open"%string) validIssues ;;
          open <- Array_length (A := option GitHubIssue) opened ;;
          closed_ones <- Array_filter (state_is "closed"%string) validIssues ;;
          closed <- Array_length (A := option GitHubIssue) closed_ones ;;
          ret {| open := open; closed := closed; stats_total := (open + closed)%nat |}
      end
  end.

(** [labelCount[name] = (labelCount[name] || 0) + 1] (as in module
    [Metrics], for names that are not members of [Object.prototype]). *)
Definition count_label (labelCount : loc) (name : string) : M unit :=
  o <- read labelCount ;; write labelCount (bump name o).

Definition by_count_desc (a b : LabelCount) : number :=
  (of_nat (count b) - of_nat (count a))%f64.

Definition getTopLabels (c : ComponentRef) : M loc :=
  match analytics_at c with
  | None => alloc (@nil LabelCount)
  | Some a =>
      match issues_at a with
      | None => alloc (@nil LabelCount)
      | Some l =>
          labelCount <- alloc (@nil (string * nat)) ;;
          Array_forEach
            (fun issue : option GitHubIssue =>
               match issue with
               | Some x =>
                   match labels x with
                   | Some ls =>
                       for_each
                         (fun label =>
                            match label_key label with
                            | Some name => count_label labelCount name
                            | None => ret tt
                            end) ls
                   | None => ret tt
                   end
               | None => ret tt
               end) l ;;;
          entries <- Object_entries_of (A := nat) labelCount ;;
          rows <- Array_map (fun kv => {| count_name := fst kv; count := snd kv |})
                    entries ;;
          sorted <- Array_sort by_count_desc rows ;;
          Array_slice_first (A := LabelCount) 5 sorted
      end
  end.

(** The report object; its [recommendations] array is a reference. *)
Record HealthMetricsRef : Type := mkHealthRef {
  score_value : number;
  grade_value : string;
  color_value : string;
  metrics_value : Health.Metrics;
  recommendations_at : loc
}.

Definition calculateHealthScore (h : Host) (data : RepoAnalyticsRef)
  : M HealthMetricsRef :=
  recentCommits <-
    match commitActivity_at data with
    | Some weeks =>
        n <- Array_length (A := option CommitActivityWeek) weeks ;;
        if (0 <? n)%nat then
          last4 <- Array_slice_last (A := option CommitActivityWeek) 4 weeks ;;
          numeric <- Array_filter Health.has_numeric_total last4 ;;
          Array_reduce
            (fun sum w =>
               match w with
               | Some wk => (sum + num_of (total wk))%f64
               | None => sum
               end)
            (of_Z 0) numeric
        else ret (of_Z 0)
    | None => ret (of_Z 0)
    end ;;
  let activityScore :=
    Math_min (of_Z 100) ((recentCommits / of_Z 50) * of_Z 100)%f64 in
  closedIssues <-
    match issues_at data with
    | Some l =>
        closed <- Array_filter Health.is_closed l ;;
        n <- Array_length (A := option GitHubIssue) closed ;;
        ret (of_nat n)
    | None => ret (of_Z 0)
    end ;;
  let repo := repo_value data in
  let totalIssues :=
    (or_else (Fin (open_issues_count repo)) (of_Z 0) + closedIssues)%f64 in
  let issueRatio :=
    if gt totalIssues (of_Z 0) then (closedIssues / totalIssues)%f64 else Fin (1 # 2) in
  let maintenanceScore := (issueRatio * of_Z 100)%f64 in
  contributorCount <-
    match contributors_at data with
    | Some l => n <- Array_length (A := GitHubContributor) l ;; ret (of_nat n)
    | None => ret (of_Z 0)
    end ;;
  let contributorScore :=
    Math_min (of_Z 100) ((contributorCount / of_Z 20) * of_Z 100)%f64 in
  let starScore :=
    Math_min (of_Z 100)
      ((or_else (Fin (stargazers_count repo)) (of_Z 0) / of_Z 1000) * of_Z 100)%f64 in
  let communityScore := ((contributorScore + starScore) / of_Z 2)%f64 in
  let docScore := of_Z 0 in
  let docScore :=
    if Health.has_description repo then (docScore + of_Z 40)%f64 else docScore in
  let docScore :=
    if Health.has_license repo then (docScore + of_Z 30)%f64 else docScore in
  let docScore := (docScore + of_Z 30)%f64 in
  let documentationScore := docScore in
  let ageInDays :=
    ((of_Z (Date_now h) - Health.getTime (Date_parse h) (created_at repo))
     / Health.ms_per_day)%f64 in
  let ageScore := Math_min (of_Z 100) ((ageInDays / of_Z 365) * of_Z 50)%f64 in
  let daysSinceUpdate :=
    ((of_Z (Date_now h) - Health.getTime (Date_parse h) (updated_at repo))
     / Health.ms_per_day)%f64 in
  let freshnessScore :=
    Math_max (of_Z 0) (of_Z 100 - (daysSinceUpdate / of_Z 30) * of_Z 50)%f64 in
  let stabilityScore := ((ageScore + freshnessScore) / of_Z 2)%f64 in
  let overallScore :=
    Math_round
      (activityScore * Fin (25 # 100)
       + maintenanceScore * Fin (25 # 100)
       + communityScore * Binary64.literal (2 # 10)
       + documentationScore * Binary64.literal (15 # 100)
       + stabilityScore * Binary64.literal (15 # 100))%f64 in
  let gc := Health.gradeAndColor overallScore in
  recommendations <- alloc (@nil string) ;;
  (if lt activityScore (of_Z 50)
   then Array_push recommendations Health.rec_activity else ret tt) ;;;
  (if lt maintenanceScore (of_Z 60)
   then Array_push recommendations Health.rec_maintenance else ret tt) ;;;
  (if lt communityScore (of_Z 50)
   then Array_push recommendations Health.rec_community else ret tt) ;;;
  (if lt documentationScore (of_Z 70)
   then Array_push recommendations Health.rec_documentation else ret tt) ;;;
  (if lt stabilityScore (of_Z 60)
   then Array_push recommendations Health.rec_stability else ret tt) ;;;
  ret {| score_value := overallScore;
         grade_value := fst gc;
         color_value := snd gc;
         metrics_value :=
           {| Health.activity := Math_round activityScore;
              Health.maintenance := Math_round maintenanceScore;
              Health.community := Math_round communityScore;
              Health.documentation := Math_round documentationScore;
              Health.stability := Math_round stabilityScore |};
         recommendations_at := recommendations |}.

(** The calls of a render, what they return (a reference to a new array,
    or an object that holds one), and the contents of what they return. *)
Inductive call : Type :=
| PrepareLanguageData
| PrepareCommitActivityData
| GetIssueStats
| GetTopLabels
| CalculateHealthScore.

Inductive returned : Type :=
| RLanguages (a : loc)
| RCommits (a : loc)
| RStats (x : IssueStats)
| RLabels (a : loc)
| RHealth (x : HealthMetricsRef).

Inductive answer : Type :=
| LanguageRows (l : list LanguageData)
| CommitRows (l : list CommitActivityData)
| Stats (x : IssueStats)
| LabelRows (l : list LabelCount)
| Report (x : Health.HealthMetrics).

Definition perform (h : Host) (c : ComponentRef) (data : RepoAnalyticsRef) (k : call)
  : M returned :=
  match k with
  | PrepareLanguageData => a <- prepareLanguageData c ;; ret (RLanguages a)
  | PrepareCommitActivityData => a <- prepareCommitActivityData h c ;; ret (RCommits a)
  | GetIssueStats => x <- getIssueStats c ;; ret (RStats x)
  | GetTopLabels => a <- getTopLabels c ;; ret (RLabels a)
  | CalculateHealthScore => x <- calculateHealthScore h data ;; ret (RHealth x)
  end.

(** Earlier calls, each under the host of its time, results dropped. *)
Fixpoint perform_all (c : ComponentRef) (data : RepoAnalyticsRef)
    (calls : list (Host * call)) : M unit :=
  match calls with
  | [] => ret tt
  | (h, k) :: rest => perform h c data k ;;; perform_all c data rest
  end.

Definition content (s : store) (r : returned) : option answer :=
  match r with
  | RLanguages a => option_map LanguageRows (lookup s a)
  | RCommits a => option_map CommitRows (lookup s a)
  | RStats x => Some (Stats x)
  | RLabels a => option_map LabelRows (lookup s a)
  | RHealth x =>
      option_map
        (fun recs =>
           Report {| Health.score := score_value x;
                     Health.grade := grade_value x;
                     Health.color := color_value x;
                     Health.metrics := metrics_value x;
                     Health.recommendations := recs |})
        (lookup s (recommendations_at x))
  end.

(** The contents of the snapshot in a store. *)
Definition view_field {A : Type} `{Stored A} (s : store) (r : option loc)
  : option (option (list A)) :=
  match r with
  | None => Some None
  | Some a => option_map Some (lookup s a)
  end.

Definition view (s : store) (a : RepoAnalyticsRef) : option RepoAnalytics :=
  match view_field s (contributors_at a), view_field s (issues_at a),
        view_field s (commitActivity_at a), view_field s (languages_at a) with
  | Some cs, Some iss, Some ws, Some ls =>
      Some {| repo := repo_value a;
              contributors := cs;
              recentCommits := recentCommits_value a;
              issues := iss;
              commitActivity := ws;
              languages := ls |}
  | _, _, _, _ => None
  end.

(** The snapshot with the properties of its language map in the order in
    which [Object.entries] lists them. *)
Definition listed (data : RepoAnalytics) : RepoAnalytics :=
  {| repo := repo data;
     contributors := contributors data;
     recentCommits := recentCommits data;
     issues := issues data;
     commitActivity := commitActivity data;
     languages := option_map (@Object_entries Q) (languages data) |}.

(** A component of the functional model that holds the snapshot. *)
Definition component_of (data : RepoAnalytics) : Component :=
  {| repoUrl := ""; analytics := Some data; loading := false; error := "" |}.

(** What a call returns, as a function of the host and of the contents
    of the snapshot: the value of the functional model. *)
Definition answer_of (h : Host) (k : call) (data : RepoAnalytics) : answer :=
  match k with
  | PrepareLanguageData =>
      LanguageRows (Languages64.prepareLanguageData (component_of (listed data)))
  | PrepareCommitActivityData =>
      CommitRows
        (Metrics.prepareCommitActivityData (Date_toLocaleDateString h)
           (component_of data))
  | GetIssueStats => Stats (Metrics.getIssueStats (component_of data))
  | GetTopLabels =>
      LabelRows
        match issues data with
        | Some l =>
            slice_first 5
              (sort by_count_desc
                 (List.map (fun kv => {| count_name := fst kv; count := snd kv |})
                    (Object_entries (fold_left count_labels_of_issue l []))))
        | None => []
        end
  | CalculateHealthScore =>
      Report (Scorer64.calculateHealthScore (Date_parse h) (Date_now h) data)
  end.

(** The contents of what a computation returns, if it returns. *)
Definition outcome (m : M returned) (s : store) : option answer :=
  match m s with
  | Some (r, s') => content s' r
  | None => None
  end.

(** The dates of a commit window and the overall score of a report. *)
Definition dates_of (x : option answer) : list string :=
  match x with Some (CommitRows l) => List.map date l | _ => [] end.

Definition overall_of (x : option answer) : number :=
  match x with Some (Report h) => Health.score h | _ => NaN end.

(** What a call reads of its host. *)
Definition same_host_inputs (k : call) (data : RepoAnalytics) (h1 h2 : Host) : Prop :=
  match k with
  | CalculateHealthScore =>
      Date_now h1 = Date_now h2
      /\ Date_parse h1 (created_at (repo data)) = Date_parse h2 (created_at (repo data))
      /\ Date_parse h1 (updated_at (repo data)) = Date_parse h2 (updated_at (repo data))
  | PrepareCommitActivityData =>
      forall v, Date_toLocaleDateString h1 v = Date_toLocaleDateString h2 v
  | _ => True
  end.

End Store.

(* ================================================================== *)
(** ** Backend: GitHub service, routes and error handler *)
(* ================================================================== *)

Module Backend.

Local Open Scope string_scope.

(** Values that the backend throws or passes to [next]. *)
Inductive thrown : Type :=
| ZodError (zod_issues : list string)
| AxiosError (message : string) (response_status : option Z)
| Error (message : string).

(** [`${error}`]: [Error.prototype.toString]. *)
Definition error_toString (e : thrown) : string :=
  match e with
  | ZodError _ => "ZodError: validation failed"
  | AxiosError m _ => "AxiosError: " ++ m
  | Error m => "Error: " ++ m
  end.

(** [error.response?.status] *)
Definition response_status_of (e : thrown) : option Z :=
  match e with
  | AxiosError _ st => st
  | _ => None
  end.

Definition error_message (e : thrown) : string :=
  match e with
  | ZodError _ => "validation failed"
  | AxiosError m _ => m
  | Error m => m
  end.

(** The read-through cache, one table per resource kind. *)
Record Cache : Type := mkCache {
  cache_repo : list (string * GitHubRepo);
  cache_contributors : list (string * list GitHubContributor);
  cache_commits : list (string * list GitHubCommit);
  cache_issues : list (string * list (option GitHubIssue));
  cache_activity : list (string * option (list (option CommitActivityWeek)));
  cache_languages : list (string * option (list (string * Q)))
}.

Definition empty_cache : Cache := mkCache [] [] [] [] [] [].

(** The result of awaiting a promise. *)
Definition settled (A : Type) : Type := (thrown + A)%type.

(** [Promise.all] rejects with the reason of the promise that rejects
    first.  [order] lists promise positions in the order in which they
    settle; positions it omits settle afterwards, in call order. *)
Definition first_rejection (order : list nat) (reasons : list (option thrown))
  : option thrown :=
  let by_arrival :=
    fold_right
      (fun i acc =>
         match nth i reasons None with
         | Some e => Some e
         | None => acc
         end) None order in
  match by_arrival with
  | Some e => Some e
  | None =>
      fold_right (fun r acc => match r with Some e => Some e | None => acc end)
        None reasons
  end.

Definition reason {A : Type} (r : settled A) : option thrown :=
  match r with inl e => Some e | inr _ => None end.

Section Service.

(** The upstream API as seen through [axios.get], one function per payload
    type, applied to the request URL. *)
Variable axios_repo : string -> settled GitHubRepo.
Variable axios_contributors : string -> settled (list GitHubContributor).
Variable axios_commits : string -> settled (list GitHubCommit).
Variable axios_issues : string -> settled (list (option GitHubIssue)).
Variable axios_activity : string -> settled (option (list (option CommitActivityWeek))).
Variable axios_languages : string -> settled (option (list (string * Q))).

(** Settling order of the promises inside the two [Promise.all] calls. *)
Variable issues_order : list nat.
Variable analytics_order : list nat.

Definition baseURL := "https://api.github.com".

Definition getRepoInfo (owner repo : string) (c : Cache)
  : settled GitHubRepo * Cache :=
  let cacheKey := "repo:" ++ owner ++ "/" ++ repo in
  match Metrics.lookup cacheKey (cache_repo c) with
  | Some cached => (inr cached, c)
  | None =>
      match axios_repo (baseURL ++ "/repos/" ++ owner ++ "/" ++ repo) with
      | inr data =>
          (inr data,
           mkCache ((cacheKey, data) :: cache_repo c) (cache_contributors c)
             (cache_commits c) (cache_issues c) (cache_activity c) (cache_languages c))
      | inl error =>
          (inl (Error ("Failed to fetch repository: " ++ error_toString error)), c)
      end
  end.

Definition getContributors (owner repo : string) (c : Cache)
  : settled (list GitHubContributor) * Cache :=
  let cacheKey := "contributors:" ++ owner ++ "/" ++ repo in
  match Metrics.lookup cacheKey (cache_contributors c) with
  | Some cached => (inr cached, c)
  | None =>
      match axios_contributors
              (baseURL ++ "/repos/" ++ owner ++ "/" ++ repo ++ "/contributors?per_page=30") with
      | inr data =>
          (inr data,
           mkCache (cache_repo c) ((cacheKey, data) :: cache_contributors c)
             (cache_commits c) (cache_issues c) (cache_activity c) (cache_languages c))
      | inl error =>
          (inl (Error ("Failed to fetch contributors: " ++ error_toString error)), c)
      end
  end.

Definition getCommits (owner repo : string) (c : Cache)
  : settled (list GitHubCommit) * Cache :=
  let cacheKey := "commits:" ++ owner ++ "/" ++ repo in
  match Metrics.lookup cacheKey (cache_commits c) with
  | Some cached => (inr cached, c)
  | None =>
      match axios_commits
              (baseURL ++ "/repos/" ++ owner ++ "/" ++ repo ++ "/commits?per_page=50") with
      | inr data =>
          (inr data,
           mkCache (cache_repo c) (cache_contributors c)
             ((cacheKey, data) :: cache_commits c) (cache_issues c) (cache_activity c)
             (cache_languages c))
      | inl error =>
          (inl (Error ("Failed to fetch commits: " ++ error_toString error)), c)
      end
  end.

Definition getIssues (owner repo : string) (c : Cache)
  : settled (list (option GitHubIssue)) * Cache :=
  let cacheKey := "issues:" ++ owner ++ "/" ++ repo in
  match Metrics.lookup cacheKey (cache_issues c) with
  | Some cached => (inr cached, c)
  | None =>
      let openIssues :=
        axios_issues
          (baseURL ++ "/repos/" ++ owner ++ "/" ++ repo ++ "/issues?state=open&per_page=50") in
      let closedIssues :=
        axios_issues
          (baseURL ++ "/repos/" ++ owner ++ "/" ++ repo ++ "/issues?state=closed&per_page=50") in
      match openIssues, closedIssues with
      | inr o, inr cl =>
          let allIssues := (o ++ cl)%list in
          (inr allIssues,
           mkCache (cache_repo c) (cache_contributors c) (cache_commits c)
             ((cacheKey, allIssues) :: cache_issues c) (cache_activity c)
             (cache_languages c))
      | _, _ =>
          (* one of the two was rejected, so a first rejection exists *)
          match first_rejection issues_order [reason openIssues; reason closedIssues] with
          | Some error =>
              (inl (Error ("Failed to fetch issues: " ++ error_toString error)), c)
          | None => (inl (Error "Failed to fetch issues: undefined"), c)
          end
      end
  end.

(** The two getters below cache whatever payload arrived.  [if (cached)]
    takes a cached payload for a hit when it is truthy, as every array and
    object is; an upstream that answers with a falsy payload (an empty
    body) is outside the model. *)
Definition getCommitActivity (owner repo : string) (c : Cache)
  : settled (option (list (option CommitActivityWeek))) * Cache :=
  let cacheKey := "activity:" ++ owner ++ "/" ++ repo in
  match Metrics.lookup cacheKey (cache_activity c) with
  | Some cached => (inr cached, c)
  | None =>
      match axios_activity
              (baseURL ++ "/repos/" ++ owner ++ "/" ++ repo ++ "/stats/commit_activity") with
      | inr data =>
          (inr data,
           mkCache (cache_repo c) (cache_contributors c) (cache_commits c)
             (cache_issues c) ((cacheKey, data) :: cache_activity c) (cache_languages c))
      | inl error =>
          (inl (Error ("Failed to fetch commit activity: " ++ error_toString error)), c)
      end
  end.

Definition getLanguages (owner repo : string) (c : Cache)
  : settled (option (list (string * Q))) * Cache :=
  let cacheKey := "languages:" ++ owner ++ "/" ++ repo in
  match Metrics.lookup cacheKey (cache_languages c) with
  | Some cached => (inr cached, c)
  | None =>
      match axios_languages
              (baseURL ++ "/repos/" ++ owner ++ "/" ++ repo ++ "/languages") with
      | inr data =>
          (inr data,
           mkCache (cache_repo c) (cache_contributors c) (cache_commits c)
             (cache_issues c) (cache_activity c) ((cacheKey, data) :: cache_languages c))
      | inl error =>
          (inl (Error ("Failed to fetch languages: " ++ error_toString error)), c)
      end
  end.

(** The six calls are started in this order; each touches its own cache
    table, and the cache is given as it stands once all six have settled. *)
Definition getFullAnalytics (owner repo : string) (c : Cache)
  : settled RepoAnalytics * Cache :=
  let (repoInfo, c) := getRepoInfo owner repo c in
  let (contributors, c) := getContributors owner repo c in
  let (commits, c) := getCommits owner repo c in
  let (issues, c) := getIssues owner repo c in
  let (commitActivity, c) := getCommitActivity owner repo c in
  let (languages, c) := getLanguages owner repo c in
  match repoInfo, contributors, commits, issues, commitActivity, languages with
  | inr r, inr cs, inr cm, inr i, inr ca, inr l =>
      (inr {| repo := r; contributors := Some cs; recentCommits := cm;
              issues := Some i; commitActivity := ca; languages := l |}, c)
  | _, _, _, _, _, _ =>
      (* one of the six was rejected, so a first rejection exists *)
      match first_rejection analytics_order
              [reason repoInfo; reason contributors; reason commits;
               reason issues; reason commitActivity; reason languages] with
      | Some error =>
          (inl (Error ("Failed to fetch full analytics: " ++ error_toString error)), c)
      | None => (inl (Error "Failed to fetch full analytics: undefined"), c)
      end
  end.

(** The JSON body and status written to the response. *)
Inductive Response : Type :=
| Success (data : RepoAnalytics) (timestamp : string)
| Failure (status : Z) (error : string) (details : list string)
    (message : option string).

Variable development : bool.
Variable timestamp_now : string.

(** The Express error-handling middleware. *)
Definition errorHandler (error : thrown) : Response :=
  match error with
  | ZodError zod_issues => Failure 400 "Validation error" zod_issues None
  | _ =>
      match response_status_of error with
      | Some 404%Z => Failure 404 "Repository not found" [] None
      | Some 403%Z => Failure 403 "GitHub API rate limit exceeded" [] None
      | _ =>
          Failure 500 "Internal server error" []
            (if development then Some (error_message error) else None)
      end
  end.

(** [repoParamsSchema.parse]: both parameters are strings of length at
    least one. *)
Definition repoParamsSchema_parse (owner repo : string) : settled (string * string) :=
  let issue name s :=
    if String.eqb s "" then [name ++ ": String must contain at least 1 character(s)"]
    else [] in
  match (issue "owner" owner ++ issue "repo" repo)%list with
  | [] => inr (owner, repo)
  | l => inl (ZodError l)
  end.

(** [GET /analyze/:owner/:repo], followed by the error handler when the
    route calls [next(error)]. *)
Definition analyze_route (owner repo : string) (c : Cache) : Response * Cache :=
  match repoParamsSchema_parse owner repo with
  | inl error => (errorHandler error, c)
  | inr (owner, repo) =>
      match getFullAnalytics owner repo c with
      | (inr analytics, c') => (Success analytics timestamp_now, c')
      | (inl error, c') => (errorHandler error, c')
      end
  end.

End Service.

End Backend.

(* ================================================================== *)
(** ** URL validation (utils/validation.ts) *)
(* ================================================================== *)

Module Validation.

Local Open Scope string_scope.

(** The fragment of the pattern language used by [validateRepoUrl]. *)
Inductive regex : Type :=
| Eps
| Chr (c : ascii)
| Plus (greedy : bool) (excluded : ascii)
| Seq (r1 r2 : regex)
| Alt (r1 r2 : regex)
| Opt (r : regex)
| Group (n : nat) (r : regex)
| Bol
| Eol.

(** A match state: the index reached, the input that remains, and the
    captures made so far. *)
Record MatchState : Type := mkState {
  endIndex : nat;
  rest : string;
  captures : nat -> option string
}.

Definition Continuation : Type := MatchState -> option MatchState.

Definition set_capture (n : nat) (s : string) (x : MatchState) : MatchState :=
  {| endIndex := endIndex x;
     rest := rest x;
     captures := fun m => if Nat.eqb m n then Some s else captures x m |}.

(** [[^c]+] (greedy) and [[^c]+?] (lazy): one character is consumed, then
    the greedy form tries to go on before it tries the continuation, and
    the lazy form does the opposite. *)
Fixpoint plus_class (greedy : bool) (excluded : ascii) (s : string) (i : nat)
    (caps : nat -> option string) (k : Continuation) : option MatchState :=
  match s with
  | EmptyString => None
  | String a t =>
      if Ascii.eqb a excluded then None
      else
        let y := {| endIndex := S i; rest := t; captures := caps |} in
        if greedy then
          match plus_class greedy excluded t (S i) caps k with
          | Some z => Some z
          | None => k y
          end
        else
          match k y with
          | Some z => Some z
          | None => plus_class greedy excluded t (S i) caps k
          end
  end.

(** The backtracking matcher, in the continuation style of the language
    definition. *)
Fixpoint matcher (r : regex) (x : MatchState) (k : Continuation) : option MatchState :=
  match r with
  | Eps => k x
  | Chr c =>
      match rest x with
      | String a t =>
          if Ascii.eqb a c
          then k {| endIndex := S (endIndex x); rest := t; captures := captures x |}
          else None
      | EmptyString => None
      end
  | Plus greedy excluded =>
      plus_class greedy excluded (rest x) (endIndex x) (captures x) k
  | Seq r1 r2 => matcher r1 x (fun y => matcher r2 y k)
  | Alt r1 r2 =>
      match matcher r1 x k with
      | Some z => Some z
      | None => matcher r2 x k
      end
  | Opt r1 =>
      match matcher r1 x
              (fun y => if Nat.eqb (endIndex y) (endIndex x) then None else k y) with
      | Some z => Some z
      | None => k x
      end
  | Group n r1 =>
      matcher r1 x
        (fun y =>
           k (set_capture n (substring 0 (endIndex y - endIndex x) (rest x)) y))
  | Bol => if Nat.eqb (endIndex x) 0 then k x else None
  | Eol =>
      match rest x with
      | EmptyString => k x
      | String _ _ => None
      end
  end.

(** A sequence of pattern characters. *)
Fixpoint Lit (s : string) : regex :=
  match s with
  | EmptyString => Eps
  | String c s' => Seq (Chr c) (Lit s')
  end.

(** [s.match(r)] for a pattern without the global flag: the first start
    index at which the pattern matches. *)
Fixpoint exec_from (r : regex) (i : nat) (s : string) : option MatchState :=
  match matcher r {| endIndex := i; rest := s; captures := fun _ => None |} Some with
  | Some z => Some z
  | None =>
      match s with
      | EmptyString => None
      | String _ t => exec_from r (S i) t
      end
  end.

Definition string_match (s : string) (r : regex) : option MatchState :=
  exec_from r 0 s.

Definition slash : ascii := "/"%char.

(** [/^https:\/\/github\.com\/([^\/]+)\/([^\/]+?)(?:\/|\.git)?$/] *)
Definition regex_repo_url : regex :=
  Seq Bol
    (Seq (Lit "https://github.com/")
       (Seq (Group 1 (Plus true slash))
          (Seq (Chr slash)
             (Seq (Group 2 (Plus false slash))
                (Seq (Opt (Alt (Chr slash) (Lit ".git"))) Eol))))).

Record RepoRef : Type := mkRepoRef {
  owner : option string;
  repo : option string
}.

Definition validateRepoUrl (url : string) : Backend.settled RepoRef :=
  match string_match url regex_repo_url with
  | None => inl (Backend.Error "Invalid GitHub repository URL")
  | Some m => inr {| owner := captures m 1; repo := captures m 2 |}
  end.

End Validation.

(* ================================================================== *)
(** ** A host for the examples *)
(* ================================================================== *)

(** A [Date] that reads the date-time format of the upstream API,
    [YYYY-MM-DDTHH:mm:ssZ], and yields an invalid date on anything else;
    it instantiates [Date_parse] in the concrete runs below. *)
Module Host.

Local Open Scope Z_scope.

Definition digit (c : ascii) : option Z :=
  let n := Z.of_nat (nat_of_ascii c) in
  if (48 <=? n) && (n <=? 57) then Some (n - 48) else None.

Fixpoint number_of_digits (acc : Z) (l : list ascii) : option Z :=
  match l with
  | [] => Some acc
  | c :: l' =>
      match digit c with
      | Some d => number_of_digits (10 * acc + d) l'
      | None => None
      end
  end.

Definition is_leap (y : Z) : bool :=
  ((y mod 4 =? 0) && negb (y mod 100 =? 0)) || (y mod 400 =? 0).

Definition days_in_month (y m : Z) : Z :=
  if m =? 2 then (if is_leap y then 29 else 28)
  else if (m =? 4) || (m =? 6) || (m =? 9) || (m =? 11) then 30
  else 31.

(** Days from 1970-01-01 to the given civil date. *)
Definition days_from_civil (y m d : Z) : Z :=
  let y := if m <=? 2 then y - 1 else y in
  let era := y / 400 in
  let yoe := y - era * 400 in
  let mp := if 2 <? m then m - 3 else m + 9 in
  let doy := (153 * mp + 2) / 5 + d - 1 in
  let doe := yoe * 365 + yoe / 4 - yoe / 100 + doy in
  era * 146097 + doe - 719468.

Definition Date_parse (s : string) : option Z :=
  match list_ascii_of_string s with
  | [y1; y2; y3; y4; sep1; m1; m2; sep2; d1; d2; sepT; h1; h2; sep3; n1; n2; sep4;
     s1; s2; z] =>
      if Ascii.eqb sep1 "-" && Ascii.eqb sep2 "-" && Ascii.eqb sepT "T"
         && Ascii.eqb sep3 ":" && Ascii.eqb sep4 ":" && Ascii.eqb z "Z"
      then
        match number_of_digits 0 [y1; y2; y3; y4], number_of_digits 0 [m1; m2],
              number_of_digits 0 [d1; d2], number_of_digits 0 [h1; h2],
              number_of_digits 0 [n1; n2], number_of_digits 0 [s1; s2] with
        | Some y, Some m, Some d, Some h, Some n, Some sec =>
            if (1 <=? m) && (m <=? 12) && (1 <=? d) && (d <=? days_in_month y m)
               && (h <=? 23) && (n <=? 59) && (sec <=? 59)
            then Some ((((days_from_civil y m d * 24 + h) * 60 + n) * 60 + sec) * 1000)
            else None
        | _, _, _, _, _, _ => None
        end
      else None
  | _ => None
  end.

(** The civil date of a day count from 1970-01-01. *)
Definition civil_from_days (days : Z) : Z * Z * Z :=
  let z := days + 719468 in
  let era := z / 146097 in
  let doe := z - era * 146097 in
  let yoe := (doe - doe / 1460 + doe / 36524 - doe / 146096) / 365 in
  let doy := doe - (365 * yoe + yoe / 4 - yoe / 100) in
  let mp := (5 * doy + 2) / 153 in
  let d := doy - (153 * mp + 2) / 5 + 1 in
  let m := if mp <? 10 then mp + 3 else mp - 9 in
  let y := yoe + era * 400 in
  (if m <=? 2 then y + 1 else y, m, d).

(** [new Date(v).toLocaleDateString()] for the [en-US] locale in the UTC
    time zone, for dates from 1970 on. *)
Definition Date_toLocaleDateString (v : number) : string :=
  match v with
  | Fin q =>
      let '(y, m, d) := civil_from_days (Qfloor q / 86400000) in
      (Metrics.string_of_N (Z.to_N m) ++ "/" ++ Metrics.string_of_N (Z.to_N d)
       ++ "/" ++ Metrics.string_of_N (Z.to_N y))%string
  | NaN => "Invalid Date"%string
  end.

End Host.

(* ================================================================== *)
(** ** Sample snapshots *)
(* ================================================================== *)

Module Sample.

Local Open Scope string_scope.

Definition mit : License := mkLicense "mit" "MIT License".

(** A repository with the given counts, documentation and timestamps. *)
Definition repo_with (stars forks open_issues : Q) (desc : option string)
    (lic : option License) (created updated : string) : GitHubRepo :=
  {| repo_id := 1;
     repo_name := "ProductViz";
     full_name := "soham-shrinagar/ProductViz";
     description := desc;
     repo_html_url := "https://github.com/soham-shrinagar/ProductViz";
     language := Some "TypeScript";
     stargazers_count := stars;
     watchers_count := stars;
     forks_count := forks;
     open_issues_count := open_issues;
     license := lic;
     created_at := created;
     updated_at := updated;
     pushed_at := updated;
     size := 2048;
     default_branch := "main" |}.

Definition contributor (n : nat) : GitHubContributor :=
  {| login := "user" ++ Metrics.string_of_nat n;
     contributor_id := inject_Z (Z.of_nat n);
     avatar_url := "";
     contributions := 1;
     contributor_html_url := "" |}.

Definition issue (n : nat) (st : value) (ls : list string) : option GitHubIssue :=
  Some {| issue_id := inject_Z (Z.of_nat n);
          issue_number := inject_Z (Z.of_nat n);
          title := "issue";
          state := st;
          issue_created_at := "2024-01-01T00:00:00Z";
          closed_at := None;
          labels := Some (map (fun l => Some (mkLabel (Some l) "ededed")) ls);
          issue_html_url := "" |}.

(** The week that starts [n] weeks after the epoch, with the given total. *)
Definition week_of (n : nat) (t : Q) : option CommitActivityWeek :=
  Some {| week := JNum (inject_Z (Z.of_nat n * 604800));
          total := JNum t;
          days := [t; 0; 0; 0; 0; 0; 0] |}.

Definition snapshot (r : GitHubRepo) (cs : nat) (iss : list (option GitHubIssue))
    (ws : list (option CommitActivityWeek)) (ls : list (string * Q)) : RepoAnalytics :=
  {| repo := r;
     contributors := Some (map contributor (seq 1 cs));
     recentCommits := [];
     issues := Some iss;
     commitActivity := Some ws;
     languages := Some ls |}.

Definition component (a : RepoAnalytics) : Metrics.Component :=
  {| Metrics.repoUrl := "https://github.com/soham-shrinagar/ProductViz";
     Metrics.analytics := Some a;
     Metrics.loading := false;
     Metrics.error := "" |}.

(** The same snapshot in a component that is loading and shows an error. *)
Definition busy_component (a : RepoAnalytics) : Metrics.Component :=
  {| Metrics.repoUrl := "";
     Metrics.analytics := Some a;
     Metrics.loading := true;
     Metrics.error := "Something went wrong" |}.

(** The clock of the concrete runs: 2024-06-01T00:00:00Z. *)
Definition now : Z := 1717200000000.

(** The clock thirty days later: 2024-07-01T00:00:00Z. *)
Definition thirty_days_later : Z := 1719792000000.

(** Scenario A of the specification: 1500 stars, 25 contributors, weekly
    totals 10, 20, 15, 25, forty closed issues against ten reported open,
    description and license present, created two years before [now] and
    updated the day before. *)
Definition scenario_A : RepoAnalytics :=
  snapshot
    (repo_with 1500 300 10 (Some "Repository analytics dashboard") (Some mit)
       "2022-06-01T00:00:00Z" "2024-05-31T00:00:00Z")
    25
    (map (fun n => issue n (JStr "closed") []) (seq 1 40))
    [week_of 1 10; week_of 2 20; week_of 3 15; week_of 4 25]
    [("TypeScript", 9000); ("CSS", 1000)].


(** The same repository with a creation timestamp that is not a date. *)
Definition unparsable_created_at : RepoAnalytics :=
  snapshot
    (repo_with 1500 300 10 (Some "Repository analytics dashboard") (Some mit)
       "unknown" "2024-05-31T00:00:00Z")
    25
    (map (fun n => issue n (JStr "closed") []) (seq 1 40))
    [week_of 1 10; week_of 2 20; week_of 3 15; week_of 4 25]
    [("TypeScript", 9000); ("CSS", 1000)].

(** Six languages of one byte each. *)
Definition six_equal_languages : RepoAnalytics :=
  snapshot
    (repo_with 0 0 0 None None "2022-06-01T00:00:00Z" "2024-05-31T00:00:00Z")
    0 [] []
    [("C", 1); ("Go", 1); ("Java", 1); ("Python", 1); ("Ruby", 1); ("Rust", 1)].

(** One issue whose state is neither ['open'] nor ['closed']. *)
Definition one_merged_issue : RepoAnalytics :=
  snapshot
    (repo_with 0 0 0 None None "2022-06-01T00:00:00Z" "2024-05-31T00:00:00Z")
    0 [issue 1 (JStr "merged") []] [] [].

(** Thirteen well-formed weeks. *)
Definition thirteen_weeks : RepoAnalytics :=
  snapshot
    (repo_with 0 0 0 None None "2022-06-01T00:00:00Z" "2024-05-31T00:00:00Z")
    0 [] (map (fun n => week_of n 1) (seq 1 13)) [].

(** Three closed issues against a reported open count of -5; 23 closed
    against 17 reported open; and Scenario A created and updated so that
    its stability score is 60 in real arithmetic. *)
Definition negative_open_count : RepoAnalytics :=
  snapshot
    (repo_with 0 0 (-5) None None "2022-06-01T00:00:00Z" "2024-05-31T00:00:00Z")
    0 (map (fun n => issue n (JStr "closed") []) (seq 1 3)) [] [].
Definition closed_23_open_17 : RepoAnalytics :=
  snapshot
    (repo_with 0 0 17 None None "2022-06-01T00:00:00Z" "2024-05-31T00:00:00Z")
    0 (map (fun n => issue n (JStr "closed") []) (seq 1 23)) [] [].
Definition stability_at_threshold : RepoAnalytics :=
  snapshot
    (repo_with 1500 300 10 (Some "Repository analytics dashboard") (Some mit)
       "2023-07-02T10:00:00Z" "2024-05-16T12:00:00Z")
    25
    (map (fun n => issue n (JStr "closed") []) (seq 1 40))
    [week_of 1 10; week_of 2 20; week_of 3 15; week_of 4 25]
    [("TypeScript", 9000); ("CSS", 1000)].

(** Two languages of 23 and 57 bytes. *)
Definition alpha_beta : RepoAnalytics :=
  snapshot
    (repo_with 0 0 0 None None "2022-06-01T00:00:00Z" "2024-05-31T00:00:00Z")
    0 [] [] [("Alpha", 23); ("Beta", 57)].

(** Two languages whose total is above [10^12] bytes. *)
Definition large_total : RepoAnalytics :=
  snapshot
    (repo_with 0 0 0 None None "2022-06-01T00:00:00Z" "2024-05-31T00:00:00Z")
    0 [] [] [("Alpha", 5420984623022); ("Beta", 4233484874791)].

(** The host of the concrete runs, in the UTC time zone, and the same
    host one hour west of it. *)
Definition host : Store.Host :=
  {| Store.Date_parse := Host.Date_parse;
     Store.Date_now := now;
     Store.Date_toLocaleDateString := Host.Date_toLocaleDateString |}.

Definition host_west : Store.Host :=
  {| Store.Date_parse := Host.Date_parse;
     Store.Date_now := now;
     Store.Date_toLocaleDateString :=
       fun v => Host.Date_toLocaleDateString (v - of_Z 3600000)%js |}.

Definition host_later : Store.Host :=
  {| Store.Date_parse := Host.Date_parse;
     Store.Date_now := thirty_days_later;
     Store.Date_toLocaleDateString := Host.Date_toLocaleDateString |}.

(** Scenario A in a store: the four collections of the snapshot, after
    an object that is not part of it. *)
Definition scenario_A_store : Store.store :=
  [ Store.OKeys ["unrelated"];
    Store.OContributors (map contributor (seq 1 25));
    Store.OIssues (map (fun n => issue n (JStr "closed") []) (seq 1 40));
    Store.OWeeks [week_of 1 10; week_of 2 20; week_of 3 15; week_of 4 25];
    Store.OBytes [("TypeScript", 9000); ("CSS", 1000)] ].

Definition scenario_A_ref : Store.RepoAnalyticsRef :=
  {| Store.repo_value := repo scenario_A;
     Store.contributors_at := Some 1%nat;
     Store.recentCommits_value := [];
     Store.issues_at := Some 2%nat;
     Store.commitActivity_at := Some 3%nat;
     Store.languages_at := Some 4%nat |}.

Definition component_ref : Store.ComponentRef :=
  {| Store.repoUrl_value := "https://github.com/soham-shrinagar/ProductViz";
     Store.analytics_at := Some scenario_A_ref;
     Store.loading_value := false;
     Store.error_value := "" |}.

(** An upstream whose repository endpoint fails with [failure], when
    given, and whose other endpoints answer. *)
Definition upstream_repo (failure : option Backend.thrown) (url : string)
  : Backend.settled GitHubRepo :=
  match failure with
  | Some e => inl e
  | None => inr (repo scenario_A)
  end.

Definition not_found : Backend.thrown :=
  Backend.AxiosError "Request failed with status code 404" (Some 404%Z).
Definition rate_limited : Backend.thrown :=
  Backend.AxiosError "Request failed with status code 403" (Some 403%Z).
Definition connection_refused : Backend.thrown :=
  Backend.AxiosError "connect ECONNREFUSED 140.82.121.6:443" None.

(** [GET /analyze/octocat/hello] against that upstream, with an empty
    cache, outside development mode. *)
Definition analyze (failure : option Backend.thrown) : Backend.Response :=
  fst (Backend.analyze_route
         (upstream_repo failure)
         (fun _ => inr (map contributor (seq 1 3)))
         (fun _ => inr [])
         (fun _ => inr [issue 1 (JStr "open") ["bug"]])
         (fun _ => inr (Some [week_of 1 10]))
         (fun _ => inr (Some [("TypeScript", 9000)]))
         [0; 1]%nat [0; 1; 2; 3; 4; 5]%nat
         false "2024-06-01T00:00:00.000Z"
         "octocat" "hello" Backend.empty_cache).

End Sample.

(* ================================================================== *)
(** ** Vocabulary of the specification *)
(* ================================================================== *)

Module Spec.

Local Open Scope string_scope.





(** The five sub-scores, in their fixed order, with the threshold and the
    advisory text of each. *)
Inductive SubScore : Type :=
| Activity | Maintenance | Community | Documentation | Stability.

Definition all_subscores : list SubScore :=
  [Activity; Maintenance; Community; Documentation; Stability].

Definition threshold (s : SubScore) : Z :=
  match s with
  | Activity => 50
  | Maintenance => 60
  | Community => 50
  | Documentation => 70
  | Stability => 60
  end.

Definition advisory (s : SubScore) : string :=
  match s with
  | Activity => "Increase commit frequency to show active development"
  | Maintenance => "Address open issues to improve maintenance score"
  | Community => "Encourage more contributors and engagement"
  | Documentation => "Improve documentation with detailed README and proper license"
  | Stability => "Update repository more regularly to maintain stability"
  end.

Section Scores.
Variable Date_parse : string -> option Z.
Variable Date_now : Z.

Definition subscore (data : RepoAnalytics) (s : SubScore) : number :=
  match s with
  | Activity => Health.activityScore data
  | Maintenance => Health.maintenanceScore data
  | Community => Health.communityScore data
  | Documentation => Health.documentationScore data
  | Stability => Health.stabilityScore Date_parse Date_now data
  end.

(** A sub-score falls below its threshold. *)
Definition below_threshold (data : RepoAnalytics) (s : SubScore) : bool :=
  lt (subscore data s) (of_Z (threshold s)).

End Scores.

(** The sub-scores as the engine computes them, and the test it makes on
    them. *)
Section Scores64.
Variable Date_parse : string -> option Z.
Variable Date_now : Z.

Definition subscore64 (data : RepoAnalytics) (s : SubScore) : number :=
  match s with
  | Activity => Scorer64.activityScore data
  | Maintenance => Scorer64.maintenanceScore data
  | Community => Scorer64.communityScore data
  | Documentation => Scorer64.documentationScore data
  | Stability => Scorer64.stabilityScore Date_parse Date_now data
  end.

Definition below_threshold64 (data : RepoAnalytics) (s : SubScore) : bool :=
  lt (subscore64 data s) (of_Z (threshold s)).

End Scores64.


(** The number of issue records whose state is exactly [s]. *)
Fixpoint count_state (s : string) (l : list (option GitHubIssue)) : nat :=
  match l with
  | [] => 0%nat
  | Some i :: l' =>
      match state i with
      | JStr t => if String.eqb t s then S (count_state s l') else count_state s l'
      | _ => count_state s l'
      end
  | None :: l' => count_state s l'
  end.

(** The number of fetched issue records whose state is exactly
    ['closed']. *)
Definition closed_count (l : list (option GitHubIssue)) : nat :=
  count_state "closed" l.

(** The label of the [k]-th week. *)
Definition week_label_of (k : nat) : string := "Week " ++ Metrics.string_of_nat k.

(** The weekly total of a bucket, negative values replaced by zero. *)
Definition clamped_total (w : option CommitActivityWeek) (n : number) : Prop :=
  exists wk t, w = Some wk /\ total wk = JNum t /\ n =n= Fin (Qmax 0 t).

Definition closedIssueCount (data : RepoAnalytics) : Q :=
  match issues data with
  | Some l => inject_Z (Z.of_nat (closed_count l))
  | None => 0
  end.

(** The maintenance sub-score of the specification, in real arithmetic:
    the closed count over the sum of the reported open count and the
    closed count, times 100, and 50 when that sum is zero. *)
Definition maintenance_formula (data : RepoAnalytics) : Q :=
  let o := open_issues_count (repo data) in
  let c := closedIssueCount data in
  if Qeq_bool (o + c) 0 then 50 else c / (o + c) * 100.

(** The text of [t] tenths with one decimal: the integer part in decimal,
    a point, and the last digit. *)
Definition one_decimal (t : N) : string :=
  Metrics.string_of_N (t / 10) ++ "." ++ Metrics.string_of_N (t mod 10).

(** A byte count: a whole number, not negative. *)
Definition byte_count (q : Q) : Prop := exists z : Z, q == inject_Z z /\ (0 <= z)%Z.

(** [t] tenths is a multiple of one tenth nearest to [x]. *)
Definition nearest_tenth (t : N) (x : Q) : Prop :=
  Qabs (inject_Z (Z.of_N t) / 10 - x) <= 1 # 20.

(** A bucket whose week and total are both numbers. *)
Definition numeric_week (w : option CommitActivityWeek) : Prop :=
  exists wk q t, w = Some wk /\ week wk = JNum q /\ total wk = JNum t.

(** [kept] is [l] without the elements that fail [P], in the order of
    [l]. *)
Inductive filtered {A : Type} (P : A -> Prop) : list A -> list A -> Prop :=
| filtered_nil : filtered P [] []
| filtered_keep x l kept : P x -> filtered P l kept -> filtered P (x :: l) (x :: kept)
| filtered_drop x l kept : ~ P x -> filtered P l kept -> filtered P (x :: l) kept.

(** [tail] is the last [n] elements of [l], or all of [l] when it has
    fewer. *)
Definition last_of {A : Type} (n : nat) (l tail : list A) : Prop :=
  exists dropped,
    l = (dropped ++ tail)%list /\ List.length tail = Nat.min n (List.length l).

Definition sumQ (xs : list Q) : Q := fold_right Qplus 0 xs.
Definition sumZ (zs : list Z) : Z := fold_right Z.add 0%Z zs.

(** Total of the byte counts of a language map. *)
Definition sum_bytes (langs : list (string * Q)) : Q := sumQ (map snd langs).

(** A language with a non-zero byte count. *)
Definition nonzero (kv : string * Q) : bool := negb (Qeq_bool (snd kv) 0).

(** The share of [bytes] in [total], in percent. *)
Definition share (total bytes : Q) : Q := bytes / total * 100.

Definition entry_key (e : Metrics.LanguageData) : string * Q :=
  (Metrics.lang_name e, Metrics.lang_value e).

(** The sum of printed percentages, in tenths of a percent. *)
Definition sum_tenths (ts : list N) : Z := sumZ (map Z.of_N ts).

(** No character of [s] is [e]. *)
Fixpoint not_in (e : ascii) (s : string) : Prop :=
  match s with
  | EmptyString => True
  | String c t => Ascii.eqb c e = false /\ not_in e t
  end.

(** The steps a pattern can take from one match state to another. *)
Inductive run : Validation.regex -> Validation.MatchState -> Validation.MatchState -> Prop :=
| run_eps x : run Validation.Eps x x
| run_chr c i t caps :
    run (Validation.Chr c) (Validation.mkState i (String c t) caps)
      (Validation.mkState (S i) t caps)
| run_plus g e i a t caps :
    a <> EmptyString -> not_in e a ->
    run (Validation.Plus g e) (Validation.mkState i (a ++ t) caps)
      (Validation.mkState (i + String.length a) t caps)
| run_seq r1 r2 x y z :
    run r1 x y -> run r2 y z -> run (Validation.Seq r1 r2) x z
| run_alt_l r1 r2 x y : run r1 x y -> run (Validation.Alt r1 r2) x y
| run_alt_r r1 r2 x y : run r2 x y -> run (Validation.Alt r1 r2) x y
| run_opt_skip r x : run (Validation.Opt r) x x
| run_opt_take r x y :
    run r x y -> Validation.endIndex y <> Validation.endIndex x ->
    run (Validation.Opt r) x y
| run_group n r x y :
    run r x y ->
    run (Validation.Group n r) x
      (Validation.set_capture n
         (substring 0 (Validation.endIndex y - Validation.endIndex x)
            (Validation.rest x)) y)
| run_bol x : Validation.endIndex x = 0%nat -> run Validation.Bol x x
| run_eol x : Validation.rest x = EmptyString -> run Validation.Eol x x.

(** The shape [https://github.com/<owner>/<repo>] with an optional
    trailing ["/"] or [".git"]. *)
Definition repo_url_parts (url owner repo suffix : string) : Prop :=
  url = "https://github.com/" ++ owner ++ "/" ++ repo ++ suffix
  /\ owner <> EmptyString /\ repo <> EmptyString
  /\ not_in "/" owner /\ not_in "/" repo
  /\ (suffix = "" \/ suffix = "/" \/ suffix = ".git").

Definition repo_url_form (url : string) : Prop :=
  exists owner repo suffix, repo_url_parts url owner repo suffix.

(** What a step that consumes the text [a] does to the state. *)
Definition consumes (a : string) (x y : Validation.MatchState) : Prop :=
  Validation.rest x = a ++ Validation.rest y
  /\ Validation.endIndex y = (Validation.endIndex x + String.length a)%nat
  /\ Validation.captures y = Validation.captures x.

End Spec.

From Stdlib Require Import Sorted.

(* ================================================================== *)
(** ** Display helpers of the component *)
(* ================================================================== *)

Module Display.

Local Open Scope string_scope.

(** Decimal rendering of an integer. *)
Definition string_of_Z (z : Z) : string :=
  if (z <? 0)%Z then "-" ++ Metrics.string_of_N (Z.to_N (- z))
  else Metrics.string_of_N (Z.to_N z).

Definition is_integer (q : Q) : bool := Qeq_bool (inject_Z (Qfloor q)) q.

Section Rendering.

(** The host's rendering of a number that is not an integer (the shortest
    decimal that reads back as the same double). *)
Variable Number_toString_fraction : Q -> string.

(** [x.toString()]; integers are rendered in full (the exponent notation
    used from 1e21 on is not modelled). *)
Definition Number_toString (a : number) : string :=
  match a with
  | NaN => "NaN"
  | Fin q => if is_integer q then string_of_Z (Qfloor q) else Number_toString_fraction q
  end.

(** [formatNumber]; an [undefined] or [null] argument is [None]. *)
Definition formatNumber (num : option number) : string :=
  match num with
  | None => "0"
  | Some n =>
      if isNaN n then "0"
      else
        let numValue := Math_max (of_Z 0) n in
        if ge numValue (of_Z 1000000)
        then Metrics.toFixed1 (numValue / of_Z 1000000)%f64 ++ "M"
        else if ge numValue (of_Z 1000)
        then Metrics.toFixed1 (numValue / of_Z 1000)%f64 ++ "K"
        else Number_toString numValue
  end.

End Rendering.

(** [s.split('\n')[0]]: the text before the first line feed. *)
Fixpoint first_line (s : string) : string :=
  match s with
  | EmptyString => EmptyString
  | String c t => if Ascii.eqb c "010" then EmptyString else String c (first_line t)
  end.

(** The summary shown for a commit:
    [message ? message.split('\n')[0] : 'No commit message']. *)
Definition commit_summary (commit : GitHubCommit) : string :=
  if negb (String.eqb (commit_message commit) "")
  then first_line (commit_message commit)
  else "No commit message".

End Display.

(* ================================================================== *)
(** ** The analyze-by-URL route *)
(* ================================================================== *)

Module Routes.

Import Backend.

Local Open Scope string_scope.

(** [`${x}`] for a capture that may be [undefined]. *)
Definition text_of (x : option string) : string :=
  match x with
  | Some s => s
  | None => "undefined"
  end.

Section Route.

Variable axios_repo : string -> settled GitHubRepo.
Variable axios_contributors : string -> settled (list GitHubContributor).
Variable axios_commits : string -> settled (list GitHubCommit).
Variable axios_issues : string -> settled (list (option GitHubIssue)).
Variable axios_activity : string -> settled (option (list (option CommitActivityWeek))).
Variable axios_languages : string -> settled (option (list (string * Q))).
Variable issues_order : list nat.
Variable analytics_order : list nat.
Variable development : bool.
Variable timestamp_now : string.

(** Whether the host's [URL] constructor accepts the string, which is the
    test behind [z.string().url()]. *)
Variable URL_valid : string -> bool.

(** [repoUrlSchema.parse(req.body)], given the [url] property of the
    body. *)
Definition repoUrlSchema_parse (body_url : value) : settled string :=
  match body_url with
  | JStr s => if URL_valid s then inr s else inl (ZodError ["url: Invalid url"])
  | JUndefined => inl (ZodError ["url: Required"])
  | _ => inl (ZodError ["url: Expected string"])
  end.

(** [POST /analyze-url], followed by the error handler when the route
    calls [next(error)]. *)
Definition analyze_url_route (body_url : value) (c : Cache) : Response * Cache :=
  match repoUrlSchema_parse body_url with
  | inl error => (errorHandler development error, c)
  | inr url =>
      match Validation.validateRepoUrl url with
      | inl error => (errorHandler development error, c)
      | inr ref =>
          match getFullAnalytics axios_repo axios_contributors axios_commits
                  axios_issues axios_activity axios_languages issues_order
                  analytics_order
                  (text_of (Validation.owner ref)) (text_of (Validation.repo ref)) c with
          | (inr analytics, c') => (Success analytics timestamp_now, c')
          | (inl error, c') => (errorHandler development error, c')
          end
      end
  end.

End Route.

End Routes.

(* ================================================================== *)
(** ** Requesting a snapshot from the components *)
(* ================================================================== *)

Module Fetching.

Local Open Scope string_scope.

(** What the exchange with the backend comes to: [fetch] or
    [response.json()] throws, with the message of the error thrown when
    it is an [Error]; or a JSON object arrives, of which the code reads
    [response.ok], [data.success], [data.error] when the object has the
    property, and [data.data]. *)
Inductive Exchange : Type :=
| Throws (message : option string)
| Reply (ok success : bool) (reply_error : option string)
    (reply_data : option RepoAnalytics).

(** The request up to [setData]: the value thrown, or the snapshot handed
    to the setter. *)
Definition settle (x : Exchange) : option string + option RepoAnalytics :=
  match x with
  | Throws m => inl m
  | Reply ok success reply_error reply_data =>
      if negb ok || negb success then
        inl (Some (match reply_error with
                   | Some e => e
                   | None => "Failed to analyze repository"
                   end))
      else inr reply_data
  end.

(** [err instanceof Error ? err.message : 'Something went wrong'] *)
Definition errorMessage (err : option string) : string :=
  match err with
  | Some message => message
  | None => "Something went wrong"
  end.

Inductive ViewMode : Type := single | compare | health.

(** The state hooks of the component with the comparison view. *)
Record Page : Type := mkPage {
  viewMode : ViewMode;
  repoUrl : string;
  repoUrl2 : string;
  analytics : option RepoAnalytics;
  analytics2 : option RepoAnalytics;
  loading : bool;
  error : string
}.

Definition is_compare (m : ViewMode) : bool :=
  match m with compare => true | _ => false end.

Section Client.

(** [String.prototype.trim] of the host. *)
Variable String_trim : string -> string.

(** The exchange that the [n]-th request of a run comes to, given the
    URL sent in its body. *)
Variable exchange : nat -> string -> Exchange.

(** Whether the second request of a comparison settles before the
    first. *)
Variable second_settles_first : bool.

(** [analyzeRepository] of the first component, once the request has
    settled: the state, and the URLs sent. *)
Definition analyzeRepository (c : Metrics.Component)
  : Metrics.Component * list string :=
  if String.eqb (String_trim (Metrics.repoUrl c)) "" then
    ({| Metrics.repoUrl := Metrics.repoUrl c;
        Metrics.analytics := Metrics.analytics c;
        Metrics.loading := Metrics.loading c;
        Metrics.error := "Please enter a GitHub repository URL" |}, [])
  else
    let url := String_trim (Metrics.repoUrl c) in
    match settle (exchange 0 url) with
    | inr data =>
        ({| Metrics.repoUrl := Metrics.repoUrl c;
            Metrics.analytics := data;
            Metrics.loading := false;
            Metrics.error := "" |}, [url])
    | inl err =>
        ({| Metrics.repoUrl := Metrics.repoUrl c;
            Metrics.analytics := None;
            Metrics.loading := false;
            Metrics.error := errorMessage err |}, [url])
    end.

(** What a slot holds after its request: the snapshot handed to the
    setter, or the [null] set before the request. *)
Definition stored (r : option string + option RepoAnalytics) : option RepoAnalytics :=
  match r with
  | inr data => data
  | inl _ => None
  end.

(** [handleAnalyze] of the component with the comparison view, once every
    request has settled: the state, and the URLs sent. *)
Definition handleAnalyze (p : Page) : Page * list string :=
  let refuse message :=
    ({| viewMode := viewMode p; repoUrl := repoUrl p; repoUrl2 := repoUrl2 p;
        analytics := analytics p; analytics2 := analytics2 p;
        loading := loading p; error := message |}, []) in
  if String.eqb (String_trim (repoUrl p)) "" then
    refuse "Please enter a GitHub repository URL"
  else if is_compare (viewMode p) && String.eqb (String_trim (repoUrl2 p)) "" then
    refuse "Please enter both repository URLs for comparison"
  else if is_compare (viewMode p) then
    let url := String_trim (repoUrl p) in
    let url2 := String_trim (repoUrl2 p) in
    let r1 := settle (exchange 0 url) in
    let r2 := settle (exchange 1 url2) in
    ({| viewMode := viewMode p; repoUrl := repoUrl p; repoUrl2 := repoUrl2 p;
        analytics := stored r1; analytics2 := stored r2;
        loading := false;
        error :=
          match r1, r2 with
          | inr _, inr _ => ""
          | inl err, inr _ => errorMessage err
          | inr _, inl err => errorMessage err
          | inl err1, inl err2 =>
              errorMessage (if second_settles_first then err2 else err1)
          end |}, [url; url2])
  else
    let url := String_trim (repoUrl p) in
    let r1 := settle (exchange 0 url) in
    ({| viewMode := viewMode p; repoUrl := repoUrl p; repoUrl2 := repoUrl2 p;
        analytics := stored r1; analytics2 := None;
        loading := false;
        error := match r1 with inr _ => "" | inl err => errorMessage err end |},
     [url]).

End Client.

(** The part of the state that the first component has too. *)
Definition first_component (p : Page) : Metrics.Component :=
  {| Metrics.repoUrl := repoUrl p;
     Metrics.analytics := analytics p;
     Metrics.loading := loading p;
     Metrics.error := error p |}.

End Fetching.

(* ================================================================== *)
(** ** Further vocabulary *)
(* ================================================================== *)

Module Terms.

Local Open Scope string_scope.

(** The position of a grade on the scale F, D, C, B, A, A+. *)
Definition grade_rank (g : string) : nat :=
  if String.eqb g "A+" then 5
  else if String.eqb g "A" then 4
  else if String.eqb g "B" then 3
  else if String.eqb g "C" then 2
  else if String.eqb g "D" then 1
  else 0.

(** The grades with their display colours. *)
Definition grade_bands : list (string * string) :=
  [("A+", "#10B981"); ("A", "#34D399"); ("B", "#FBBF24"); ("C", "#F59E0B");
   ("D", "#F97316"); ("F", "#EF4444")].

(** The names of the labels of an issue that the tally counts, in
    encounter order. *)
Definition names_of_issue (i : option GitHubIssue) : list string :=
  match i with
  | Some x =>
      match labels x with
      | Some ls =>
          flat_map
            (fun l => match Metrics.label_key l with Some s => [s] | None => [] end)
            ls
      | None => []
      end
  | None => []
  end.

Definition label_names (l : list (option GitHubIssue)) : list string :=
  flat_map names_of_issue l.

(** The property names that every object inherits from
    [Object.prototype]; the tally of a label of such a name does not
    start from zero. *)
Definition Object_prototype_names : list string :=
  ["constructor"; "hasOwnProperty"; "isPrototypeOf"; "propertyIsEnumerable";
   "toLocaleString"; "toString"; "valueOf"; "__proto__"; "__defineGetter__";
   "__defineSetter__"; "__lookupGetter__"; "__lookupSetter__"].

Definition plain_name (k : string) : bool :=
  negb (existsb (String.eqb k) Object_prototype_names).

(** The count recorded for a key in a tally, zero when absent. *)
Definition tally (k : string) (o : list (string * nat)) : nat :=
  match Metrics.lookup k o with
  | Some n => n
  | None => 0
  end.

(** Largest first. *)
Definition descending {A : Type} (key : A -> Q) (l : list A) : Prop :=
  StronglySorted (fun a b => key b <= key a) l.

(** What a table of the cache holds for the resource of [owner]/[repo]. *)
Definition cached_repo (o n : string) (c : Backend.Cache) :=
  Metrics.lookup ("repo:" ++ o ++ "/" ++ n) (Backend.cache_repo c).
Definition cached_contributors (o n : string) (c : Backend.Cache) :=
  Metrics.lookup ("contributors:" ++ o ++ "/" ++ n) (Backend.cache_contributors c).
Definition cached_commits (o n : string) (c : Backend.Cache) :=
  Metrics.lookup ("commits:" ++ o ++ "/" ++ n) (Backend.cache_commits c).
Definition cached_issues (o n : string) (c : Backend.Cache) :=
  Metrics.lookup ("issues:" ++ o ++ "/" ++ n) (Backend.cache_issues c).
Definition cached_activity (o n : string) (c : Backend.Cache) :=
  Metrics.lookup ("activity:" ++ o ++ "/" ++ n) (Backend.cache_activity c).
Definition cached_languages (o n : string) (c : Backend.Cache) :=
  Metrics.lookup ("languages:" ++ o ++ "/" ++ n) (Backend.cache_languages c).

(** An issue record whose state is exactly [s]. *)
Definition in_state (s : string) (i : option GitHubIssue) : Prop :=
  exists x, i = Some x /\ state x = JStr s.

(** The cache returns every part of the snapshot [a], whose lists and
    objects are all present. *)
Definition holds_snapshot (o n : string) (c : Backend.Cache) (a : RepoAnalytics) : Prop :=
  cached_repo o n c = Some (repo a)
  /\ (exists cs, contributors a = Some cs /\ cached_contributors o n c = Some cs)
  /\ cached_commits o n c = Some (recentCommits a)
  /\ (exists i, issues a = Some i /\ cached_issues o n c = Some i)
  /\ (exists ws, commitActivity a = Some ws /\ cached_activity o n c = Some (Some ws))
  /\ (exists ls, languages a = Some ls /\ cached_languages o n c = Some (Some ls)).

End Terms.


(* ================================================================== *)
(** ** Further sample data *)
(* ================================================================== *)

Module Fixtures.

Local Open Scope string_scope.

(** Three issues labelled bug and ui, bug, and docs. *)
Definition labelled_issues : list (option GitHubIssue) :=
  [Sample.issue 1 (JStr "open") ["bug"; "ui"];
   Sample.issue 2 (JStr "closed") ["bug"];
   Sample.issue 3 (JStr "open") ["docs"]].

Definition labelled : RepoAnalytics :=
  Sample.snapshot (repo Sample.scenario_A) 3 labelled_issues [] [].

(** A host rendering of non-integers for the runs below, which render
    integers only. *)
Definition Number_toString_fraction (q : Q) : string :=
  Display.string_of_Z (Qfloor q) ++ ".?".

(** A URL check for the runs below: it accepts the strings that start
    with ["http://"] or ["https://"]. *)
Definition URL_valid (s : string) : bool :=
  String.prefix "http://" s || String.prefix "https://" s.

(** A commit whose message has a summary line and a body. *)
Definition commit_with_body : GitHubCommit :=
  {| sha := "3f2a9c1";
     commit_author := mkCommitAuthor "Soham" "soham@example.com" "2024-05-31T00:00:00Z";
     commit_message :=
       "Fix label tally" ++ String "010" (String "010" "Counts were off by one.");
     commit_html_url := "";
     commit_account := None |}.

(** A cache that holds every part of [Sample.scenario_A] for
    [octocat/hello]. *)
Definition warm_cache : Backend.Cache :=
  Backend.mkCache
    [("repo:octocat/hello", repo Sample.scenario_A)]
    [("contributors:octocat/hello", map Sample.contributor (seq 1 25))]
    [("commits:octocat/hello", [])]
    [("issues:octocat/hello",
      map (fun n => Sample.issue n (JStr "closed") []) (seq 1 40))]
    [("activity:octocat/hello", commitActivity Sample.scenario_A)]
    [("languages:octocat/hello", languages Sample.scenario_A)].

(** A host [trim] for the runs below: it removes spaces at both ends. *)
Fixpoint trim_start (s : string) : string :=
  match s with
  | String " " t => trim_start t
  | _ => s
  end.

Fixpoint trim_end (s : string) : string :=
  match s with
  | EmptyString => EmptyString
  | String c t =>
      match trim_end t with
      | EmptyString => if Ascii.eqb c " " then EmptyString else String c EmptyString
      | t' => String c t'
      end
  end.

Definition String_trim (s : string) : string := trim_end (trim_start s).

(** A backend that is down for the first request of a run and answers
    the second with [Sample.scenario_A]. *)
Definition first_down (n : nat) (url : string) : Fetching.Exchange :=
  match n with
  | O => Fetching.Throws (Some "Failed to fetch")
  | _ => Fetching.Reply true true None (Some Sample.scenario_A)
  end.

(** A comparison about to be run, showing the results of an earlier
    one. *)
Definition comparison : Fetching.Page :=
  {| Fetching.viewMode := Fetching.compare;
     Fetching.repoUrl := " https://github.com/octocat/missing ";
     Fetching.repoUrl2 := "https://github.com/soham-shrinagar/ProductViz";
     Fetching.analytics := Some Sample.six_equal_languages;
     Fetching.analytics2 := Some Sample.one_merged_issue;
     Fetching.loading := false;
     Fetching.error := "" |}.

(** An upstream with two open issues and one closed issue. *)
Definition issue_pages (url : string) : Backend.settled (list (option GitHubIssue)) :=
  if String.eqb url "https://api.github.com/repos/octocat/hello/issues?state=open&per_page=50"
  then inr [Sample.issue 1 (JStr "open") ["bug"]; Sample.issue 2 (JStr "open") []]
  else inr [Sample.issue 3 (JStr "closed") []].

(** A snapshot with the issue list fetched from that upstream. *)
Definition two_pages : RepoAnalytics :=
  Sample.snapshot (repo Sample.scenario_A) 3
    [Sample.issue 1 (JStr "open") ["bug"]; Sample.issue 2 (JStr "open") [];
     Sample.issue 3 (JStr "closed") []] [] [].

(** The same comparison before any result was shown. *)
Definition comparison_at_start : Fetching.Page :=
  {| Fetching.viewMode := Fetching.compare;
     Fetching.repoUrl := " https://github.com/octocat/missing ";
     Fetching.repoUrl2 := "https://github.com/soham-shrinagar/ProductViz";
     Fetching.analytics := None;
     Fetching.analytics2 := None;
     Fetching.loading := true;
     Fetching.error := "Failed to fetch" |}.

(** A page in the health view with a URL typed in. *)
Definition health_page : Fetching.Page :=
  {| Fetching.viewMode := Fetching.health;
     Fetching.repoUrl := "https://github.com/soham-shrinagar/ProductViz";
     Fetching.repoUrl2 := "";
     Fetching.analytics := None;
     Fetching.analytics2 := None;
     Fetching.loading := false;
     Fetching.error := "" |}.

End Fixtures.

(* ================================================================== *)
(** * Properties *)
(* ================================================================== *)

(** ** Numbers *)

Module JSFacts.


Lemma num_eq_sym (a b : number) : a =n= b -> b =n= a.
Proof. destruct a, b; simpl; auto. intros H. symmetry. exact H. Qed.


Lemma Qlt_bool_iff (x y : Q) : Qlt_bool x y = true <-> x < y.
Proof.
  unfold Qlt_bool. rewrite negb_true_iff. split.
  - intros H. apply Qnot_le_lt. intros Hle.
    apply Qle_bool_iff in Hle. congruence.
  - intros H. destruct (Qle_bool y x) eqn:E; [|reflexivity].
    apply Qle_bool_iff in E. exfalso. apply (Qlt_not_le _ _ H). exact E.
Qed.

Lemma Qlt_bool_false_iff (x y : Q) : Qlt_bool x y = false <-> y <= x.
Proof.
  unfold Qlt_bool. rewrite negb_false_iff. apply Qle_bool_iff.
Qed.

Lemma Qle_bool_false (x y : Q) : Qle_bool x y = false -> y < x.
Proof.
  intros H. apply Qnot_le_lt. intros Hle. apply Qle_bool_iff in Hle. congruence.
Qed.






Lemma Math_max_Qmax (x y : Q) : Math_max (Fin x) (Fin y) =n= Fin (Qmax x y).
Proof.
  simpl. destruct (Qle_bool x y) eqn:E.
  - apply Qle_bool_iff in E. rewrite Q.max_r; [reflexivity | exact E].
  - apply Qle_bool_false in E.
    rewrite Q.max_l; [reflexivity | apply Qlt_le_weak; exact E].
Qed.



Lemma slice_last_incl {A : Type} (n : nat) (l : list A) (P : A -> Prop) :
  Forall P l -> Forall P (slice_last n l).
Proof.
  intros H. unfold slice_last. rewrite Forall_forall in *.
  intros x Hx. apply H.
  rewrite <- (firstn_skipn (List.length l - n) l).
  apply in_or_app. right. exact Hx.
Qed.

Lemma slice_last_length {A : Type} (n : nat) (l : list A) :
  List.length (slice_last n l) = Nat.min n (List.length l).
Proof. unfold slice_last. rewrite length_skipn. lia. Qed.

Lemma filter_Forall {A : Type} (f : A -> bool) (l : list A) (P : A -> Prop) :
  Forall P l -> Forall P (filter f l).
Proof.
  intros H. rewrite Forall_forall in *. intros x Hx.
  apply filter_In in Hx. apply H. tauto.
Qed.

End JSFacts.

(** ** Rounding to the nearest double *)

Module Binary64Facts.

Import Binary64.

Lemma pow2_pos (e : Z) : 0 < pow2 e.
Proof. apply Qpower_0_lt. reflexivity. Qed.

Lemma pow2_add (a b : Z) : pow2 (a + b) == pow2 a * pow2 b.
Proof. apply Qpower_plus. discriminate. Qed.

Lemma pow2_le (a b : Z) : (a <= b)%Z -> pow2 a <= pow2 b.
Proof. intros H. apply Qpower_le_compat_l; [exact H | discriminate]. Qed.

Lemma pow2_lt_inv (a b : Z) : pow2 a < pow2 b -> (a < b)%Z.
Proof. intros H. apply (Qpower_lt_compat_l_inv 2 a b H). reflexivity. Qed.

Lemma pow2_nonneg_exp (a : Z) : (0 <= a)%Z -> pow2 a == inject_Z (2 ^ a).
Proof. intros H. unfold pow2. rewrite Zpower_Qpower by exact H. reflexivity. Qed.

Lemma pow2_inv (a : Z) : pow2 (- a) == / pow2 a.
Proof. apply Qpower_opp. Qed.

Lemma log2_bracket (n : Z) :
  (0 < n)%Z -> pow2 (Z.log2 n) <= inject_Z n /\ inject_Z n < pow2 (Z.log2 n + 1).
Proof.
  intros Hn. pose proof (Z.log2_spec n Hn) as [H1 H2].
  pose proof (Z.log2_nonneg n) as H0.
  rewrite !pow2_nonneg_exp by lia.
  split; [rewrite <- Zle_Qle | rewrite <- Zlt_Qlt]; [exact H1|].
  replace (Z.log2 n + 1)%Z with (Z.succ (Z.log2 n)) by lia. exact H2.
Qed.

Lemma Q_as_quotient (x : Q) : x == inject_Z (Qnum x) / inject_Z (Zpos (Qden x)).
Proof.
  destruct x as [n d]. unfold Qeq, Qdiv, Qmult, Qinv, inject_Z. simpl. lia.
Qed.

Lemma ilog2_spec (x : Q) :
  0 < x -> pow2 (ilog2 x) <= x /\ x < pow2 (ilog2 x + 1).
Proof.
  intros Hx.
  assert (Hn : (0 < Qnum x)%Z).
  { destruct x as [n d]. unfold Qlt in Hx. simpl in *. lia. }
  assert (Hd : (0 < Zpos (Qden x))%Z) by lia.
  destruct (log2_bracket Hn) as [N1 N2].
  destruct (log2_bracket Hd) as [D1 D2].
  unfold ilog2.
  set (a := Z.log2 (Qnum x)) in *. set (b := Z.log2 (Zpos (Qden x))) in *.
  pose proof (Q_as_quotient x) as Ex.
  set (n := inject_Z (Qnum x)) in *. set (d := inject_Z (Zpos (Qden x))) in *.
  assert (Hd0 : 0 < d) by (unfold d; rewrite <- (Zlt_Qlt 0); lia).
  assert (Hlow : pow2 (a - b - 1) < x).
  { rewrite Ex. apply Qlt_shift_div_l; [exact Hd0|].
    apply Qlt_le_trans with (pow2 (a - b - 1) * pow2 (b + 1)).
    - apply Qmult_lt_l; [apply pow2_pos | exact D2].
    - rewrite <- pow2_add. replace (a - b - 1 + (b + 1))%Z with a by lia. exact N1. }
  assert (Hhigh : x < pow2 (a - b + 1)).
  { rewrite Ex. apply Qlt_shift_div_r; [exact Hd0|].
    apply Qlt_le_trans with (pow2 (a - b + 1) * pow2 b).
    - rewrite <- pow2_add. replace (a - b + 1 + b)%Z with (a + 1)%Z by lia. exact N2.
    - apply Qmult_le_l; [apply pow2_pos | exact D1]. }
  destruct (Qle_bool (pow2 (a - b)) x) eqn:E.
  - apply Qle_bool_iff in E. split; assumption.
  - assert (E' : x < pow2 (a - b)).
    { apply Qnot_le_lt. intros H. apply Qle_bool_iff in H. congruence. }
    replace (a - b - 1 + 1)%Z with (a - b)%Z by lia.
    split; [apply Qlt_le_weak; exact Hlow | exact E'].
Qed.

Lemma nearest_even_near (q : Q) :
  Qabs (inject_Z (nearest_even q) - q) <= 1 # 2.
Proof.
  unfold nearest_even.
  pose proof (Qfloor_le q) as H1. pose proof (Qlt_floor q) as H2.
  set (f := Qfloor q) in *. rewrite inject_Z_plus in H2.
  change (inject_Z 1) with 1 in H2.
  apply Qabs_Qle_condition.
  destruct (Qcompare (q - inject_Z f) (1 # 2)) eqn:E.
  - apply (proj2 (Qeq_alt _ _)) in E.
    destruct (Z.even f); [|rewrite inject_Z_plus; change (inject_Z 1) with 1]; lra.
  - apply (proj2 (Qlt_alt _ _)) in E. lra.
  - apply (proj2 (Qgt_alt _ _)) in E. rewrite inject_Z_plus. change (inject_Z 1) with 1. lra.
Qed.

Lemma nearest_even_int (q : Q) (z : Z) : q == inject_Z z -> nearest_even q = z.
Proof.
  intros H. unfold nearest_even.
  assert (Hf : Qfloor q = z) by (rewrite H; apply Qfloor_Z).
  rewrite Hf.
  assert (E : Qcompare (q - inject_Z z) (1 # 2) = Lt).
  { apply (proj1 (Qlt_alt _ _)). lra. }
  rewrite E. reflexivity.
Qed.

(** The error of rounding is at most half a unit in the last place: for a
    number in the normal range, at most [2^-53] of its magnitude. *)
Lemma round_positive_error (x : Q) :
  pow2 (-1022) <= x ->
  Qabs (round_positive x - x) <= x * pow2 (-53).
Proof.
  intros Hx.
  assert (H0 : 0 < x) by (eapply Qlt_le_trans; [apply (pow2_pos (-1022)) | exact Hx]).
  destruct (ilog2_spec H0) as [L1 L2].
  assert (HL : (-1022 <= ilog2 x)%Z).
  { assert (H : pow2 (-1022) < pow2 (ilog2 x + 1)) by (eapply Qle_lt_trans; eassumption).
    apply pow2_lt_inv in H. lia. }
  unfold round_positive, ulp_exponent.
  rewrite Z.max_l by lia.
  set (e := (ilog2 x - 52)%Z).
  pose proof (pow2_pos e) as He.
  pose proof (nearest_even_near (x / pow2 e)) as Hn.
  set (m := inject_Z (nearest_even (x / pow2 e))) in *.
  assert (E : m * pow2 e - x == (m - x / pow2 e) * pow2 e).
  { field. intros H. rewrite H in He. discriminate He. }
  rewrite E, Qabs_Qmult, (Qabs_pos (pow2 e)) by (apply Qlt_le_weak; exact He).
  apply Qle_trans with ((1 # 2) * pow2 e).
  - apply Qmult_le_compat_r; [exact Hn | apply Qlt_le_weak; exact He].
  - apply Qle_trans with (pow2 (ilog2 x) * pow2 (-53)).
    + rewrite <- pow2_add. replace (ilog2 x + -53)%Z with (-1 + e)%Z by (unfold e; lia).
      rewrite pow2_add. apply Qmult_le_compat_r; [|apply Qlt_le_weak; exact He].
      apply Qle_refl.
    + apply Qmult_le_compat_r; [exact L1 | apply Qlt_le_weak, pow2_pos].
Qed.

Lemma round64_error (x : Q) :
  pow2 (-1022) <= Qabs x ->
  Qabs (round64 x - x) <= Qabs x * pow2 (-53).
Proof.
  intros Hx. unfold round64.
  destruct (Qcompare x 0) eqn:E.
  - apply (proj2 (Qeq_alt _ _)) in E. exfalso.
    rewrite E in Hx. pose proof (pow2_pos (-1022)) as P.
    change (Qabs 0) with 0 in Hx. lra.
  - apply (proj2 (Qlt_alt _ _)) in E.
    assert (Ea : Qabs x == - x) by (apply Qabs_neg; lra).
    rewrite Ea in *.
    setoid_replace (- round_positive (- x) - x) with (- (round_positive (- x) - - x))
      by ring.
    rewrite Qabs_opp. apply round_positive_error. exact Hx.
  - apply (proj2 (Qgt_alt _ _)) in E.
    assert (Ea : Qabs x == x) by (apply Qabs_pos; lra).
    rewrite Ea in *. apply round_positive_error. exact Hx.
Qed.

Lemma ilog2_unique (x : Q) (l : Z) :
  pow2 l <= x -> x < pow2 (l + 1) -> ilog2 x = l.
Proof.
  intros H1 H2.
  assert (H0 : 0 < x) by (eapply Qlt_le_trans; [apply (pow2_pos l) | exact H1]).
  destruct (ilog2_spec H0) as [L1 L2].
  assert (A : pow2 l < pow2 (ilog2 x + 1)) by (eapply Qle_lt_trans; eassumption).
  assert (B : pow2 (ilog2 x) < pow2 (l + 1)) by (eapply Qle_lt_trans; eassumption).
  apply pow2_lt_inv in A. apply pow2_lt_inv in B. lia.
Qed.

(** A positive integer below [2^53] is a double. *)
Lemma round_positive_int (x : Q) (z : Z) :
  x == inject_Z z -> (0 < z < 2 ^ 53)%Z -> round_positive x == x.
Proof.
  intros Hx [Hz1 Hz2].
  assert (H0 : 0 < x) by (rewrite Hx; rewrite <- (Zlt_Qlt 0); exact Hz1).
  destruct (ilog2_spec H0) as [L1 L2].
  set (l := ilog2 x) in *.
  assert (Hl0 : (0 <= l)%Z).
  { assert (A : pow2 0 < pow2 (l + 1)).
    { eapply Qle_lt_trans; [|exact L2]. rewrite Hx.
      change (pow2 0) with (inject_Z 1). rewrite <- Zle_Qle. lia. }
    apply pow2_lt_inv in A. lia. }
  assert (Hl1 : (l <= 52)%Z).
  { assert (A : pow2 l < pow2 53).
    { eapply Qle_lt_trans; [exact L1|]. rewrite Hx.
      rewrite (@pow2_nonneg_exp 53) by lia. rewrite <- Zlt_Qlt. exact Hz2. }
    apply pow2_lt_inv in A. lia. }
  unfold round_positive, ulp_exponent. fold l.
  rewrite Z.max_l by lia.
  set (e := (l - 52)%Z).
  assert (He : pow2 e == / pow2 (52 - l)).
  { rewrite <- pow2_inv. replace (- (52 - l))%Z with e by (unfold e; lia). reflexivity. }
  assert (Hp : 0 < pow2 (52 - l)) by apply pow2_pos.
  assert (Hs : x / pow2 e == inject_Z (z * 2 ^ (52 - l))).
  { rewrite He, Hx, inject_Z_mult, <- pow2_nonneg_exp by lia.
    field. intros H. rewrite H in Hp. discriminate Hp. }
  rewrite (nearest_even_int Hs), inject_Z_mult, <- pow2_nonneg_exp by lia.
  rewrite He, Hx. field. intros H. rewrite H in Hp. discriminate Hp.
Qed.

Lemma round64_int (x : Q) (z : Z) :
  x == inject_Z z -> (Z.abs z < 2 ^ 53)%Z -> round64 x == x.
Proof.
  intros Hx Hz. unfold round64.
  destruct (Qcompare x 0) eqn:E.
  - apply (proj2 (Qeq_alt _ _)) in E. symmetry. exact E.
  - apply (proj2 (Qlt_alt _ _)) in E.
    assert (Hn : (z < 0)%Z) by (rewrite Zlt_Qlt, <- Hx; exact E).
    assert (H : round_positive (- x) == - x).
    { apply (@round_positive_int (- x) (- z)); [rewrite Hx, inject_Z_opp; reflexivity | lia]. }
    rewrite H. ring.
  - apply (proj2 (Qgt_alt _ _)) in E.
    assert (Hn : (0 < z)%Z) by (rewrite Zlt_Qlt, <- Hx; exact E).
    apply (@round_positive_int x z); [exact Hx | lia].
Qed.

Lemma round64_within (x : Q) :
  pow2 (-1022) <= x ->
  x * (1 - unit_roundoff) <= round64 x <= x * (1 + unit_roundoff).
Proof.
  intros Hx.
  assert (H0 : 0 < x) by (eapply Qlt_le_trans; [apply (pow2_pos (-1022)) | exact Hx]).
  assert (Ha : Qabs x == x) by (apply Qabs_pos; lra).
  pose proof (@round64_error x) as H. rewrite Ha in H. specialize (H Hx).
  apply Qabs_Qle_condition in H.
  assert (Eu : pow2 (-53) == unit_roundoff) by reflexivity.
  rewrite Eu in H. lra.
Qed.

Lemma normal_of_ge (x lo : Q) : lo <= x -> pow2 (-1022) <= lo -> pow2 (-1022) <= x.
Proof. intros H1 H2. lra. Qed.

Lemma pow2_1022_small : pow2 (-1022) <= 1 # 1000000000000000000000000.
Proof.
  apply Qle_trans with (pow2 (-80)); [apply pow2_le; lia|]. vm_compute. discriminate.
Qed.

(** Rounding depends on the value of the rational only. *)
Lemma nearest_even_comp (x y : Q) : x == y -> nearest_even x = nearest_even y.
Proof.
  intros H. unfold nearest_even. rewrite (Qfloor_comp _ _ H).
  assert (E : Qcompare (x - inject_Z (Qfloor y)) (1 # 2)
              = Qcompare (y - inject_Z (Qfloor y)) (1 # 2)).
  { rewrite H. reflexivity. }
  rewrite E. reflexivity.
Qed.

Lemma round_positive_comp (x y : Q) :
  0 < x -> x == y -> round_positive x == round_positive y.
Proof.
  intros Hx H.
  assert (Hy : 0 < y) by (rewrite <- H; exact Hx).
  assert (El : ilog2 x = ilog2 y).
  { destruct (ilog2_spec Hy) as [L1 L2]. apply ilog2_unique; rewrite H; assumption. }
  unfold round_positive, ulp_exponent. rewrite El.
  set (e := Z.max (ilog2 y - 52) (-1074)).
  assert (En : nearest_even (x / pow2 e) = nearest_even (y / pow2 e)).
  { apply nearest_even_comp. rewrite H. reflexivity. }
  rewrite En. reflexivity.
Qed.

Lemma round64_comp (x y : Q) : x == y -> round64 x == round64 y.
Proof.
  intros H. unfold round64.
  assert (E : Qcompare x 0 = Qcompare y 0) by (rewrite H; reflexivity).
  rewrite <- E. destruct (Qcompare x 0) eqn:C.
  - reflexivity.
  - apply (proj2 (Qlt_alt _ _)) in C.
    rewrite (@round_positive_comp (- x) (- y)); [reflexivity | lra | rewrite H; reflexivity].
  - apply (proj2 (Qgt_alt _ _)) in C.
    apply round_positive_comp; [lra | exact H].
Qed.

Lemma round64_zero (x : Q) : x == 0 -> round64 x == 0.
Proof. intros H. rewrite (round64_comp H). reflexivity. Qed.

(** Two roundings, of a quotient of at most one and of its hundredfold,
    move the result by less than a fortieth of [10^-12]. *)
Lemma percent_of_ratio_error (c t : Q) :
  1 <= c -> c <= t -> t < 9007199254740992 ->
  0 <= round64 (round64 (c / t) * 100)
  /\ Qabs (round64 (round64 (c / t) * 100) - c / t * 100) <= 1 # 40000000000000.
Proof.
  intros Hc Hct Ht.
  assert (Ht0 : 0 < t) by lra.
  assert (Hr1 : c / t <= 1) by (apply Qle_shift_div_r; lra).
  assert (Hr0 : 1 # 9007199254740992 <= c / t).
  { apply Qle_shift_div_l; [exact Ht0|]. lra. }
  set (r := c / t) in *.
  assert (N1 : pow2 (-1022) <= r).
  { pose proof pow2_1022_small. lra. }
  pose proof (round64_within N1) as [A1 A2]. unfold unit_roundoff in A1, A2.
  set (r1 := round64 r) in *.
  assert (N2 : pow2 (-1022) <= r1 * 100).
  { pose proof pow2_1022_small. lra. }
  pose proof (round64_within N2) as [B1 B2]. unfold unit_roundoff in B1, B2.
  set (m := round64 (r1 * 100)) in *.
  split; [lra|]. apply Qabs_Qle_condition. split; lra.
Qed.

(** The double nearest to one tenth, and the value of [23 / 40 * 100] in
    double arithmetic, which falls short of 57.5. *)
Lemma round64_examples :
  round64 (1 # 10) == 3602879701896397 # 36028797018963968
  /\ round64 (round64 (23 # 40) * 100) < 575 # 10.
Proof. vm_compute. split; reflexivity. Qed.

End Binary64Facts.

(** ** Decimal texts *)

Module PrintingFacts.

Import Metrics.

Local Open Scope string_scope.

Lemma length_append (a b : string) :
  String.length (a ++ b) = (String.length a + String.length b)%nat.
Proof. induction a as [|x a IH]; simpl; [reflexivity | rewrite IH; reflexivity]. Qed.

Lemma substring_head (a t : string) : substring 0 (String.length a) (a ++ t) = a.
Proof.
  induction a as [|c a IH]; simpl.
  - destruct t; reflexivity.
  - rewrite IH. reflexivity.
Qed.

Lemma printed_app (a b : Decimal.uint) :
  NilEmpty.string_of_uint (Decimal.app a b)
  = NilEmpty.string_of_uint a ++ NilEmpty.string_of_uint b.
Proof.
  rewrite <- (DecimalFacts.of_list_to_list (Decimal.app a b)), DecimalFacts.app_spec.
  rewrite <- (DecimalFacts.of_list_to_list a) at 2.
  rewrite <- (DecimalFacts.of_list_to_list b) at 2.
  induction (DecimalFacts.to_list a) as [|x l IH]; simpl.
  - reflexivity.
  - destruct x; simpl; rewrite IH; reflexivity.
Qed.

(** Appending a digit to the decimal numeral of a positive number. *)
Lemma to_uint_tenfold_plus (q r : N) :
  (0 < q)%N -> (r < 10)%N ->
  N.to_uint (10 * q + r) = Decimal.app (N.to_uint q) (N.to_uint r).
Proof.
  intros Hq Hr.
  set (d := Decimal.app (N.to_uint q) (N.to_uint r)).
  assert (Hof : N.of_uint d = (10 * q + r)%N).
  { unfold N.of_uint. rewrite DecimalPos.Unsigned.of_uint_alt.
    assert (Hrev : Decimal.rev d
                   = Decimal.revapp (N.to_uint r) (Decimal.rev (N.to_uint q))).
    { apply DecimalFacts.to_list_inj.
      unfold d. rewrite DecimalFacts.rev_spec, DecimalFacts.app_spec, rev_app_distr.
      rewrite DecimalFacts.revapp_spec, DecimalFacts.rev_spec, rev_append_rev.
      reflexivity. }
    rewrite Hrev.
    assert (Hq' : DecimalPos.Unsigned.of_lu (Decimal.rev (N.to_uint q)) = q).
    { rewrite <- DecimalPos.Unsigned.of_uint_alt. apply DecimalN.Unsigned.of_to. }
    assert (Hcases : (r = 0 \/ r = 1 \/ r = 2 \/ r = 3 \/ r = 4 \/ r = 5 \/ r = 6
                      \/ r = 7 \/ r = 8 \/ r = 9)%N) by lia.
    repeat (destruct Hcases as [-> | Hcases]); try subst r;
      cbn [N.to_uint Pos.to_uint Decimal.revapp Pos.to_little_uint
           Decimal.rev Pos.succ Decimal.Little.succ Decimal.Little.double
           Decimal.Little.succ_double DecimalPos.Unsigned.of_lu];
      rewrite ?Hq'; lia. }
  rewrite <- Hof, DecimalN.Unsigned.to_of.
  (* the numeral is already normal *)
  assert (Hnq : Decimal.unorm (N.to_uint q) = N.to_uint q).
  { rewrite <- (DecimalN.Unsigned.of_to q) at 2. symmetry. apply DecimalN.Unsigned.to_of. }
  assert (Hnz : N.to_uint q <> Decimal.zero).
  { destruct q as [|p]; [lia|]. apply DecimalPos.Unsigned.to_uint_nonzero. }
  unfold d.
  assert (Hhead : Decimal.nzhead (N.to_uint q) = N.to_uint q).
  { unfold Decimal.unorm in Hnq.
    destruct (Decimal.nzhead (N.to_uint q)) eqn:E; try exact Hnq.
    exfalso. apply Hnz. symmetry. exact Hnq. }
  assert (Hne : N.to_uint q <> Decimal.Nil).
  { destruct q as [|p]; [lia|]. apply DecimalPos.Unsigned.to_uint_nonnil. }
  destruct (N.to_uint q) as [|u|u|u|u|u|u|u|u|u|u] eqn:Eq; try congruence;
    try (exfalso; apply (DecimalFacts.nzhead_nonzero (Decimal.D0 u) u); exact Hhead);
    match goal with
    | |- Decimal.unorm (Decimal.app (?D u) ?b) = _ =>
        assert (Happ : Decimal.app (D u) b = D (Decimal.app u b))
          by (apply DecimalFacts.to_list_inj; cbn [DecimalFacts.to_list];
              rewrite !DecimalFacts.app_spec; reflexivity);
        rewrite Happ; reflexivity
    end.
Qed.

Lemma NilZero_NilEmpty (d : Decimal.uint) :
  d <> Decimal.Nil -> NilZero.string_of_uint d = NilEmpty.string_of_uint d.
Proof. destruct d; congruence || reflexivity. Qed.

Lemma N_to_uint_nonnil (n : N) : N.to_uint n <> Decimal.Nil.
Proof.
  destruct n as [|p]; [discriminate | apply DecimalPos.Unsigned.to_uint_nonnil].
Qed.

Lemma substring_suffix (a b : string) :
  substring (String.length a) (String.length b) (a ++ b) = b.
Proof.
  induction a as [|c a IH]; simpl; [|exact IH].
  induction b as [|c b IH]; simpl; [reflexivity|]. rewrite IH. reflexivity.
Qed.

Lemma string_of_digit (r : N) :
  (r < 10)%N -> String.length (string_of_N r) = 1%nat.
Proof.
  intros Hr.
  assert (Hcases : (r = 0 \/ r = 1 \/ r = 2 \/ r = 3 \/ r = 4 \/ r = 5 \/ r = 6
                    \/ r = 7 \/ r = 8 \/ r = 9)%N) by lia.
  repeat (destruct Hcases as [-> | Hcases]); try subst r; reflexivity.
Qed.

Lemma string_of_N_nonempty (n : N) : (1 <= String.length (string_of_N n))%nat.
Proof.
  unfold string_of_N.
  destruct (N.to_uint n); simpl; lia.
Qed.

(** Printing all the digits and putting the point before the last one
    gives the integer part, a point and the last digit. *)
Lemma point_before_last_one_decimal (n : N) :
  point_before_last (string_of_N n) = Spec.one_decimal n.
Proof.
  unfold Spec.one_decimal.
  pose proof (N.div_mod n 10 ltac:(lia)) as Hn.
  pose proof (N.mod_lt n 10 ltac:(lia)) as Hr.
  set (q := (n / 10)%N) in *. set (r := (n mod 10)%N) in *.
  pose proof (string_of_digit Hr) as Lr.
  destruct (N.eq_dec q 0) as [Hq | Hq].
  - rewrite Hq in *. rewrite N.mul_0_r, N.add_0_l in Hn. rewrite Hn.
    unfold point_before_last. rewrite Lr. cbn [Nat.leb].
    destruct (string_of_N r) as [|c [|c' s]]; try discriminate Lr. reflexivity.
  - assert (E : string_of_N n = string_of_N q ++ string_of_N r).
    { unfold string_of_N. rewrite Hn.
      rewrite to_uint_tenfold_plus by lia.
      rewrite NilZero_NilEmpty.
      - rewrite printed_app, <- !NilZero_NilEmpty by apply N_to_uint_nonnil. reflexivity.
      - rewrite <- to_uint_tenfold_plus by lia. apply N_to_uint_nonnil. }
    rewrite E. unfold point_before_last.
    pose proof (string_of_N_nonempty q) as Lq.
    assert (Hlen : String.length (string_of_N q ++ string_of_N r)
                   = (String.length (string_of_N q) + 1)%nat).
    { rewrite length_append, Lr. reflexivity. }
    cbv zeta. rewrite Hlen.
    destruct (String.length (string_of_N q) + 1 <=? 1)%nat eqn:El;
      [apply Nat.leb_le in El; lia|].
    rewrite !Hlen.
    replace (String.length (string_of_N q) + 1 - 1)%nat
      with (String.length (string_of_N q)) by lia.
    rewrite substring_head.
    rewrite <- Lr at 1. rewrite substring_suffix. reflexivity.
Qed.

Lemma toFixed1_one_decimal (x : Q) :
  0 <= x -> toFixed1 (Fin x) = Spec.one_decimal (Z.to_N (nearest_tenths x)).
Proof.
  intros Hx. unfold toFixed1.
  assert (E : JS.Qlt_bool x 0 = false) by (apply JSFacts.Qlt_bool_false_iff; exact Hx).
  rewrite E. apply point_before_last_one_decimal.
Qed.

End PrintingFacts.


(** ** Health scorer *)

Module HealthFacts.

Import Health JSFacts.

Section Facts.
Variable Date_parse : string -> option Z.
Variable Date_now : Z.





Lemma closed_count_filter (l : list (option GitHubIssue)) :
  List.length (filter is_closed l) = Spec.closed_count l.
Proof.
  unfold Spec.closed_count.
  induction l as [|[i|] l IH]; simpl; auto.
  unfold is_str. destruct (state i); simpl; auto.
  destruct (String.eqb s "closed"); simpl; auto.
Qed.

Lemma closedIssues_value (data : RepoAnalytics) :
  closedIssues data = Fin (Spec.closedIssueCount data) /\
  0 <= Spec.closedIssueCount data.
Proof.
  unfold closedIssues, Spec.closedIssueCount.
  destruct (issues data) as [l|].
  - rewrite closed_count_filter. split; [reflexivity|].
    change 0 with (inject_Z 0). rewrite <- Zle_Qle. lia.
  - split; [reflexivity | lra].
Qed.


















(** A timestamp that is not a date makes the stability score [NaN]: the
    date constructor does not throw, so the defaults are not restored. *)
Lemma stabilityScore_invalid_date (data : RepoAnalytics) :
  Date_parse (created_at (repo data)) = None
  \/ Date_parse (updated_at (repo data)) = None ->
  stabilityScore Date_parse Date_now data = NaN
  /\ overallScore Date_parse Date_now data = NaN.
Proof.
  intros H.
  assert (Hs : stabilityScore Date_parse Date_now data = NaN).
  { unfold stabilityScore, ageScore, freshnessScore, ageInDays, daysSinceUpdate, getTime.
    destruct H as [H|H]; rewrite H.
    - reflexivity.
    - destruct (Math_min _ _); reflexivity. }
  split; [exact Hs|].
  unfold overallScore. rewrite Hs.
  change (NaN * Fin (15 # 100))%js with NaN.
  match goal with
  | |- Math_round (?x + NaN)%js = NaN => destruct x; reflexivity
  end.
Qed.

Lemma recommendations_spec (data : RepoAnalytics) :
  recommendations_of Date_parse Date_now data
  = map Spec.advisory
      (filter (Spec.below_threshold Date_parse Date_now data) Spec.all_subscores).
Proof.
  unfold recommendations_of, Spec.all_subscores, Spec.below_threshold. simpl.
  destruct (lt (activityScore data) (of_Z 50)),
           (lt (maintenanceScore data) (of_Z 60)),
           (lt (communityScore data) (of_Z 50)),
           (lt (documentationScore data) (of_Z 70)),
           (lt (stabilityScore Date_parse Date_now data) (of_Z 60));
    reflexivity.
Qed.

End Facts.


Lemma advisory_injective (s t : Spec.SubScore) :
  Spec.advisory s = Spec.advisory t -> s = t.
Proof. destruct s, t; simpl; intros H; try reflexivity; discriminate H. Qed.

Lemma NoDup_all_subscores : NoDup Spec.all_subscores.
Proof.
  unfold Spec.all_subscores.
  repeat constructor; simpl; intuition discriminate.
Qed.

(** Scenario A of the specification: sub-scores 100, 80, 100, 100 and 99,
    overall score 95, grade A+, no recommendation. *)
Example scenario_A_report :
  let h := calculateHealthScore Host.Date_parse Sample.now Sample.scenario_A in
  score h = of_Z 95
  /\ grade h = "A+"%string
  /\ metrics h = mkMetrics (of_Z 100) (of_Z 80) (of_Z 100) (of_Z 100) (of_Z 99)
  /\ recommendations h = [].
Proof. repeat split; vm_compute; reflexivity. Qed.

(** Only the last four weekly buckets count towards the activity score:
    of five buckets with totals 40, 10, 0, 0 and 0, the first is ignored. *)
Example activity_of_last_four_weeks :
  activityScore
    (Sample.snapshot (repo Sample.scenario_A) 0 []
       [Sample.week_of 1 40; Sample.week_of 2 10; Sample.week_of 3 0;
        Sample.week_of 4 0; Sample.week_of 5 0] [])
  =n= Fin 20.
Proof. vm_compute. reflexivity. Qed.




(** C5: on a snapshot whose creation timestamp is not a date, the age
    score and the stability score are [NaN] rather than 50, and so are the
    returned stability sub-score and the overall score. *)
Theorem stability_of_unparsable_created_at :
  Host.Date_parse (created_at (repo Sample.unparsable_created_at)) = None
  /\ ageScore Host.Date_parse Sample.now Sample.unparsable_created_at = NaN
  /\ stabilityScore Host.Date_parse Sample.now Sample.unparsable_created_at = NaN
  /\ stability (metrics (calculateHealthScore Host.Date_parse Sample.now
                           Sample.unparsable_created_at)) = NaN
  /\ score (calculateHealthScore Host.Date_parse Sample.now
              Sample.unparsable_created_at) = NaN.
Proof. repeat split; vm_compute; reflexivity. Qed.

End HealthFacts.

(** ** Health scorer in double arithmetic *)

Module Scorer64Facts.

Import Health JSFacts Binary64 Binary64Facts.

Lemma closedIssueCount_whole (data : RepoAnalytics) :
  exists n : nat, Spec.closedIssueCount data = inject_Z (Z.of_nat n).
Proof.
  unfold Spec.closedIssueCount. destruct (issues data) as [l|].
  - exists (Spec.closed_count l). reflexivity.
  - exists 0%nat. reflexivity.
Qed.

Lemma totalIssues64_value (data : RepoAnalytics) (o : Z) :
  (0 <= o)%Z ->
  open_issues_count (repo data) == inject_Z o ->
  inject_Z o + Spec.closedIssueCount data < 9007199254740992 ->
  exists t, Scorer64.totalIssues data = Fin t
            /\ t == inject_Z o + Spec.closedIssueCount data.
Proof.
  intros Ho Eo Hb. unfold Scorer64.totalIssues.
  destruct (HealthFacts.closedIssues_value data) as [-> _].
  destruct (closedIssueCount_whole data) as [n En]. rewrite En in *.
  assert (Hn : (o + Z.of_nat n < 2 ^ 53)%Z).
  { rewrite Zlt_Qlt, inject_Z_plus. exact Hb. }
  unfold or_else, truthy.
  destruct (Qeq_bool (open_issues_count (repo data)) 0) eqn:E; cbn [negb].
  - apply Qeq_bool_iff in E. eexists. split; [reflexivity|].
    rewrite (@round64_int _ (Z.of_nat n)).
    + rewrite <- Eo, E. unfold inject_Z. ring.
    + unfold inject_Z. ring.
    + lia.
  - eexists. split; [reflexivity|].
    rewrite (@round64_int _ (o + Z.of_nat n)%Z).
    + rewrite Eo. reflexivity.
    + rewrite Eo, inject_Z_plus. reflexivity.
    + lia.
Qed.

(** The two branches of the maintenance score. *)
Lemma maintenanceScore_cases (data : RepoAnalytics) (t : Q) :
  Scorer64.totalIssues data = Fin t ->
  (t <= 0 -> Scorer64.maintenanceScore data = Fin (round64 ((1 # 2) * inject_Z 100)))
  /\ (0 < t ->
      Scorer64.maintenanceScore data
      = Fin (round64 (round64 (Spec.closedIssueCount data / t) * inject_Z 100))).
Proof.
  intros Ht. unfold Scorer64.maintenanceScore, Scorer64.issueRatio. rewrite Ht.
  destruct (HealthFacts.closedIssues_value data) as [-> _].
  unfold gt, lt, of_Z. split; intros H.
  - assert (E : Qlt_bool (inject_Z 0) t = false).
    { apply Qlt_bool_false_iff. unfold inject_Z. lra. }
    rewrite E. reflexivity.
  - assert (E : Qlt_bool (inject_Z 0) t = true).
    { apply Qlt_bool_iff. unfold inject_Z. lra. }
    rewrite E. unfold Binary64.div.
    assert (E0 : Qeq_bool t 0 = false).
    { destruct (Qeq_bool t 0) eqn:E0; [|reflexivity]. apply Qeq_bool_iff in E0. lra. }
    rewrite E0. reflexivity.
Qed.

(** C6, as amended: when the reported open-issue count is a whole
    number [o], not negative, and [c] fetched records are in state
    'closed' (with [o + c] below [2^53]), the maintenance score is 50 if
    [o + c] is zero and otherwise the double nearest to the hundredfold
    of the double nearest to [c / (o + c)]; it differs from the
    specification's [c / (o + c) * 100] by at most [10^-13]; the returned
    sub-score is that value rounded to an integer. *)
Theorem maintenance_score_formula (data : RepoAnalytics) (o : Z) :
  (0 <= o)%Z ->
  open_issues_count (repo data) == inject_Z o ->
  inject_Z o + Spec.closedIssueCount data < 9007199254740992 ->
  let c := Spec.closedIssueCount data in
  let total := inject_Z o + c in
  exists m,
    Scorer64.maintenanceScore data = Fin m
    /\ (total == 0 -> m == 50)
    /\ (~ total == 0 -> m == round64 (round64 (c / total) * 100))
    /\ Qabs (m - Spec.maintenance_formula data) <= 1 # 10000000000000
    /\ forall Date_parse Date_now,
         maintenance (metrics (Scorer64.calculateHealthScore Date_parse Date_now data))
         = Math_round (Fin m).
Proof.
  intros Ho Eo Hb c total.
  destruct (totalIssues64_value data Ho Eo Hb) as [t [Et Ht]].
  fold c in Ht. fold total in Ht.
  destruct (maintenanceScore_cases data Et) as [Hzero Hpos]. fold c in Hpos.
  destruct (closedIssueCount_whole data) as [n En]. fold c in En.
  assert (Hc0 : 0 <= c).
  { rewrite En. change 0 with (inject_Z 0). rewrite <- Zle_Qle. lia. }
  assert (Ho0 : 0 <= inject_Z o).
  { change 0 with (inject_Z 0). rewrite <- Zle_Qle. exact Ho. }
  assert (Efifty : round64 ((1 # 2) * inject_Z 100) == 50).
  { rewrite (@round64_int _ 50); [reflexivity | reflexivity | reflexivity]. }
  unfold Spec.maintenance_formula. fold c.
  destruct (Qeq_bool (open_issues_count (repo data) + c) 0) eqn:Ez.
  - apply Qeq_bool_iff in Ez. rewrite Eo in Ez. fold total in Ez.
    eexists. split; [apply Hzero; lra|]. split; [intros _; exact Efifty|].
    split; [intros Hne; contradiction|]. split.
    + rewrite Efifty. vm_compute. discriminate.
    + intros dp dn. unfold Scorer64.calculateHealthScore. cbn [metrics maintenance].
      rewrite Hzero by lra. reflexivity.
  - assert (Hne : ~ total == 0).
    { intros H. unfold total in H. rewrite <- Eo in H.
      apply Qeq_bool_iff in H. congruence. }
    assert (Htot : 0 < total) by (unfold total in *; lra).
    assert (Em : round64 (round64 (c / t) * inject_Z 100)
                 == round64 (round64 (c / total) * 100)).
    { apply round64_comp. change (inject_Z 100) with 100.
      rewrite (@round64_comp (c / t) (c / total)); [reflexivity|].
      rewrite Ht. reflexivity. }
    eexists. split; [apply Hpos; lra|]. split; [intros H; contradiction|].
    split; [intros _; exact Em|]. split.
    2:{ intros dp dn. unfold Scorer64.calculateHealthScore. cbn [metrics maintenance].
        rewrite Hpos by lra. reflexivity. }
    rewrite Em.
    setoid_replace (c / (open_issues_count (repo data) + c) * 100)
      with (c / total * 100) by (rewrite Eo; reflexivity).
    destruct (Z.eq_dec (Z.of_nat n) 0) as [Hn|Hn].
    + assert (Ec : c == 0) by (rewrite En, Hn; reflexivity).
      assert (E1 : round64 (c / total) == 0).
      { apply round64_zero. rewrite Ec. unfold Qdiv. ring. }
      assert (E2 : round64 (round64 (c / total) * 100) == 0).
      { apply round64_zero. rewrite E1. ring. }
      rewrite E2, Ec. vm_compute. discriminate.
    + apply Qle_trans with (1 # 40000000000000); [|vm_compute; discriminate].
      apply percent_of_ratio_error.
      * rewrite En. change 1 with (inject_Z 1). rewrite <- Zle_Qle. lia.
      * unfold total. lra.
      * exact Hb.
Qed.

(** Scenario A: ten reported open issues and forty closed records give
    a maintenance score of 80. *)
Lemma maintenance_score_formula_witness :
  exists m,
    Scorer64.maintenanceScore Sample.scenario_A = Fin m
    /\ m == 80
    /\ maintenance (metrics (Scorer64.calculateHealthScore Host.Date_parse Sample.now
                               Sample.scenario_A)) = of_Z 80.
Proof.
  destruct (@maintenance_score_formula Sample.scenario_A 10) as [m [Hm [_ [Hv [_ Hr]]]]].
  - lia.
  - reflexivity.
  - vm_compute. reflexivity.
  - exists m. split; [exact Hm|]. split.
    + rewrite Hv; [vm_compute; reflexivity | vm_compute; discriminate].
    + rewrite Hr. rewrite <- Hm. vm_compute. reflexivity.
Defined.

(** C6, as stated, fails.  With a reported open count of -5 and three
    closed records the sum is -2, the score is the default 50 and the
    formula gives -150.  With 17 reported open and 23 closed the formula
    gives 57.5, the doubles give a value below it, and the returned
    sub-score is 57 where the formula rounds to 58. *)
Lemma maintenance_score_off_formula :
  (open_issues_count (repo Sample.negative_open_count) == -5
   /\ Spec.closedIssueCount Sample.negative_open_count == 3
   /\ Spec.maintenance_formula Sample.negative_open_count == -150
   /\ Scorer64.maintenanceScore Sample.negative_open_count =n= Fin 50
   /\ ~ Scorer64.maintenanceScore Sample.negative_open_count
        =n= Fin (Spec.maintenance_formula Sample.negative_open_count))
  /\ (open_issues_count (repo Sample.closed_23_open_17) == 17
      /\ Spec.closedIssueCount Sample.closed_23_open_17 == 23
      /\ Spec.maintenance_formula Sample.closed_23_open_17 == 575 # 10
      /\ ~ Scorer64.maintenanceScore Sample.closed_23_open_17
           =n= Fin (Spec.maintenance_formula Sample.closed_23_open_17)
      /\ maintenance (metrics (Scorer64.calculateHealthScore Host.Date_parse Sample.now
                                 Sample.closed_23_open_17)) = of_Z 57
      /\ Math_round (Fin (Spec.maintenance_formula Sample.closed_23_open_17)) = of_Z 58).
Proof.
  split.
  - repeat split; try (vm_compute; reflexivity).
    intros H. vm_compute in H. discriminate H.
  - repeat split; try (vm_compute; reflexivity).
    intros H. vm_compute in H. discriminate H.
Qed.


Lemma recommendations_spec64 (Date_parse : string -> option Z) (Date_now : Z)
    (data : RepoAnalytics) :
  Scorer64.recommendations_of Date_parse Date_now data
  = map Spec.advisory
      (filter (Spec.below_threshold64 Date_parse Date_now data) Spec.all_subscores).
Proof.
  unfold Scorer64.recommendations_of, Spec.all_subscores, Spec.below_threshold64.
  simpl.
  destruct (lt (Scorer64.activityScore data) (of_Z 50)),
           (lt (Scorer64.maintenanceScore data) (of_Z 60)),
           (lt (Scorer64.communityScore data) (of_Z 50)),
           (lt (Scorer64.documentationScore data) (of_Z 70)),
           (lt (Scorer64.stabilityScore Date_parse Date_now data) (of_Z 60));
    reflexivity.
Qed.

(** C7: the recommendations are the advisory strings of exactly those
    sub-scores, as computed in doubles and before rounding, that fall
    below their thresholds (activity 50, maintenance 60, community 50,
    documentation 70, stability 60), each tested on its own, once each
    and in the fixed sub-score order; the list is empty exactly when no
    sub-score is below its threshold. *)
Theorem recommendations_by_threshold
    (Date_parse : string -> option Z) (Date_now : Z) (data : RepoAnalytics) :
  let recs :=
    recommendations (Scorer64.calculateHealthScore Date_parse Date_now data) in
  let below := Spec.below_threshold64 Date_parse Date_now data in
  recs = map Spec.advisory (filter below Spec.all_subscores)
  /\ NoDup recs
  /\ (forall s, In (Spec.advisory s) recs <-> below s = true)
  /\ (recs = [] <-> forall s, below s = false).
Proof.
  intros recs below.
  assert (E : recs = map Spec.advisory (filter below Spec.all_subscores))
    by apply recommendations_spec64.
  split; [exact E|]. rewrite E. split; [|split].
  - apply Injective_map_NoDup.
    + intros s t. apply HealthFacts.advisory_injective.
    + apply NoDup_filter. apply HealthFacts.NoDup_all_subscores.
  - intros s. rewrite in_map_iff. split.
    + intros [t [Ht Hin]]. apply HealthFacts.advisory_injective in Ht. subst t.
      apply filter_In in Hin. tauto.
    + intros Hb. exists s. split; [reflexivity|].
      apply filter_In. split; [|exact Hb].
      destruct s; simpl; tauto.
  - split.
    + intros Hnil s. destruct (below s) eqn:Hb; [|reflexivity].
      assert (Hin : In (Spec.advisory s)
                      (map Spec.advisory (filter below Spec.all_subscores))).
      { apply in_map. apply filter_In. split; [destruct s; simpl; tauto | exact Hb]. }
      rewrite Hnil in Hin. contradiction.
    + intros Hall. unfold Spec.all_subscores. simpl.
      rewrite !Hall. reflexivity.
Qed.

(** A stability score that is 60 in real arithmetic and falls short of
    60 in doubles: the advisory is given, and the returned sub-score is
    60. *)
Example stability_short_of_threshold :
  let data := Sample.stability_at_threshold in
  Health.stabilityScore Host.Date_parse Sample.now data =n= Fin 60
  /\ Spec.below_threshold64 Host.Date_parse Sample.now data Spec.Stability = true
  /\ stability (metrics (Scorer64.calculateHealthScore Host.Date_parse Sample.now data))
     = of_Z 60
  /\ recommendations (Scorer64.calculateHealthScore Host.Date_parse Sample.now data)
     = [Spec.advisory Spec.Stability].
Proof. repeat split; vm_compute; reflexivity. Qed.

End Scorer64Facts.

(** ** Derived metrics *)

Module MetricsFacts.

Import Metrics JSFacts.

Local Open Scope string_scope.

Lemma mapi_from_length {A B : Type} (f : A -> nat -> B) (l : list A) (i : nat) :
  List.length (mapi_from i f l) = List.length l.
Proof. revert i. induction l as [|x l IH]; intros i; simpl; auto. Qed.

Lemma mapi_from_skipn {A B : Type} (f : A -> nat -> B) (n : nat) :
  forall (l : list A) (i : nat),
    skipn n (mapi_from i f l) = mapi_from (i + n) f (skipn n l).
Proof.
  induction n as [|n IH]; intros l i.
  - rewrite Nat.add_0_r. reflexivity.
  - destruct l as [|x l]; simpl; [reflexivity|].
    rewrite IH. f_equal. lia.
Qed.

Lemma slice_last_mapi {A B : Type} (f : A -> nat -> B) (n : nat) (l : list A) :
  slice_last n (mapi f l)
  = mapi_from (List.length l - n) f (slice_last n l).
Proof.
  unfold slice_last, mapi. rewrite mapi_from_length, mapi_from_skipn.
  reflexivity.
Qed.

Section Window.
Variable render : number -> string.

Lemma labels_of_mapi_from (l : list (option CommitActivityWeek)) :
  forall i,
    map week_label (mapi_from i (commit_entry render) l)
    = map Spec.week_label_of (seq (i + 1) (List.length l)).
Proof.
  induction l as [|w l IH]; intros i; simpl; [reflexivity|].
  f_equal. rewrite IH. reflexivity.
Qed.

Lemma commits_of_mapi_from (l : list (option CommitActivityWeek)) :
  Forall (fun w => well_formed_week w = true) l ->
  forall i,
    Forall2 (fun e w => Spec.clamped_total w (commits e))
      (mapi_from i (commit_entry render) l) l.
Proof.
  induction 1 as [|w l Hw Hl IH]; intros i; simpl; constructor; [|apply IH].
  destruct w as [wk|]; simpl in Hw; [|discriminate].
  apply andb_true_iff in Hw. destruct Hw as [_ Ht].
  destruct (total wk) as [| | |t| |] eqn:E; try discriminate.
  exists wk, t. split; [reflexivity|]. split; [exact E|].
  unfold commit_entry, total_field. cbn [commits]. rewrite E.
  apply (Math_max_Qmax (inject_Z 0) t).
Qed.

Lemma commit_window_unfold (weeks : list (option CommitActivityWeek)) :
  let wf := filter well_formed_week weeks in
  commit_window render weeks
  = mapi_from (List.length wf - 12) (commit_entry render) (slice_last 12 wf).
Proof. apply slice_last_mapi. Qed.

End Window.

Lemma count_le_length {A : Type} (f : A -> bool) (l : list A) :
  (List.length (filter f l) <= List.length l)%nat.
Proof.
  induction l as [|x l IH]; simpl; [lia|].
  destruct (f x); simpl; lia.
Qed.

Lemma count_state_filter (s : string) (l : list (option GitHubIssue)) :
  List.length (filter (state_is s) (filter valid_issue l)) = Spec.count_state s l.
Proof.
  induction l as [|[i|] l IH]; simpl; auto.
  destruct (state i) as [| | | |t|] eqn:E; simpl; auto.
  rewrite E. simpl. destruct (String.eqb t s); simpl; auto.
Qed.

Lemma count_state_inline (s : string) (l : list (option GitHubIssue)) :
  List.length (filter (state_is s) l) = Spec.count_state s l.
Proof.
  induction l as [|[i|] l IH]; simpl; auto.
  destruct (state i) as [| | | |t|] eqn:E; simpl; auto.
  destruct (String.eqb t s); simpl; auto.
Qed.

Lemma open_closed_le_length (l : list (option GitHubIssue)) :
  (Spec.count_state "open" l + Spec.count_state "closed" l <= List.length l)%nat.
Proof.
  induction l as [|[i|] l IH]; simpl; try lia.
  destruct (state i) as [| | | |t|]; try lia.
  destruct (String.eqb t "open") eqn:E1, (String.eqb t "closed") eqn:E2; try lia.
  apply String.eqb_eq in E1. apply String.eqb_eq in E2. congruence.
Qed.

(** The standalone function: the open and closed counts are the numbers
    of records in exactly those states, the total is their sum and is at
    most the number of records. *)
Lemma getIssueStats_counts (c : Component) (a : RepoAnalytics)
    (l : list (option GitHubIssue)) :
  analytics c = Some a -> issues a = Some l ->
  let s := getIssueStats c in
  open s = Spec.count_state "open" l
  /\ closed s = Spec.count_state "closed" l
  /\ (open s + closed s = stats_total s)%nat
  /\ (stats_total s <= List.length l)%nat.
Proof.
  intros Ha Hl. unfold getIssueStats. rewrite Ha, Hl. simpl.
  rewrite !count_state_filter.
  repeat split; try reflexivity. apply open_closed_le_length.
Qed.

Lemma open_closed_le_has_state (l : list (option GitHubIssue)) :
  (Spec.count_state "open" l + Spec.count_state "closed" l
   <= List.length (filter SingleView.has_state l))%nat.
Proof.
  induction l as [|[i|] l IH]; simpl; try lia.
  destruct (state i) as [| |b|q|t|] eqn:E; simpl; try lia.
  - destruct b; simpl; lia.
  - destruct (negb (Qeq_bool q 0)); simpl; lia.
  - destruct (String.eqb t "open") eqn:E1, (String.eqb t "closed") eqn:E2.
    + apply String.eqb_eq in E1. apply String.eqb_eq in E2. congruence.
    + apply String.eqb_eq in E1. subst t. simpl. lia.
    + apply String.eqb_eq in E2. subst t. simpl. lia.
    + destruct (negb (String.eqb t "")); simpl; lia.
Qed.

(** The inline computation: the total counts every record whose state is
    truthy. *)
Lemma issueStats_inline_counts (a : RepoAnalytics) (l : list (option GitHubIssue)) :
  issues a = Some l ->
  let s := SingleView.issueStats (Some a) in
  open s = Spec.count_state "open" l
  /\ closed s = Spec.count_state "closed" l
  /\ stats_total s = List.length (filter SingleView.has_state l)
  /\ (open s + closed s <= stats_total s <= List.length l)%nat.
Proof.
  intros Hl. unfold SingleView.issueStats. rewrite Hl. simpl.
  rewrite !count_state_inline.
  repeat split; try reflexivity;
    [apply open_closed_le_has_state | apply count_le_length].
Qed.

(** C3: on a list holding one record in state 'merged', the standalone
    function counts nothing, while the inline computation of the
    single-view branch reports a total of 1 with 0 open and 0 closed. *)
Theorem issue_stats_of_merged_record :
  getIssueStats (Sample.component Sample.one_merged_issue) = mkIssueStats 0 0 0
  /\ SingleView.issueStats (Some Sample.one_merged_issue) = mkIssueStats 0 0 1
  /\ (let s := SingleView.issueStats (Some Sample.one_merged_issue) in
      open s + closed s <> stats_total s)%nat.
Proof. repeat split; vm_compute; discriminate. Qed.

Lemma clamped_commits_nonneg (out : list CommitActivityData)
    (kept : list (option CommitActivityWeek)) :
  Forall2 (fun e w => Spec.clamped_total w (commits e)) out kept ->
  Forall (fun e => exists q, commits e = Fin q /\ 0 <= q) out.
Proof.
  induction 1 as [|e w out' kept' Hew _ IH]; constructor; auto.
  destruct Hew as [wk [t [_ [_ He]]]].
  destruct (commits e) as [|q]; simpl in He; [contradiction|].
  exists q. split; [reflexivity|]. rewrite He. apply Q.le_max_l.
Qed.

Lemma well_formed_week_numeric (w : option CommitActivityWeek) :
  well_formed_week w = true <-> Spec.numeric_week w.
Proof.
  unfold Spec.numeric_week. split.
  - destruct w as [wk|]; simpl; [|discriminate]. intros H.
    apply andb_true_iff in H. destruct H as [H1 H2].
    destruct (week wk) as [| | |q| |] eqn:Ew; try discriminate H1.
    destruct (total wk) as [| | |t| |] eqn:Et; try discriminate H2.
    exists wk, q, t. auto.
  - intros [wk [q [t [-> [Ew Et]]]]]. simpl. rewrite Ew, Et. reflexivity.
Qed.

Lemma filter_filtered (weeks : list (option CommitActivityWeek)) :
  Spec.filtered Spec.numeric_week weeks (filter well_formed_week weeks).
Proof.
  induction weeks as [|w l IH]; simpl; [constructor|].
  destruct (well_formed_week w) eqn:E.
  - apply Spec.filtered_keep; [apply well_formed_week_numeric; exact E | exact IH].
  - apply Spec.filtered_drop; [|exact IH].
    intros H. apply well_formed_week_numeric in H. congruence.
Qed.

Lemma slice_last_last_of {A : Type} (n : nat) (l : list A) :
  Spec.last_of n l (slice_last n l).
Proof.
  exists (firstn (List.length l - n) l). split.
  - unfold slice_last. symmetry. apply firstn_skipn.
  - apply slice_last_length.
Qed.

Lemma filtered_Forall {A : Type} (P : A -> Prop) (l kept : list A) :
  Spec.filtered P l kept -> Forall P kept.
Proof. induction 1; auto. Qed.

Lemma filtered_unique {A : Type} (P : A -> Prop) (l k1 k2 : list A) :
  Spec.filtered P l k1 -> Spec.filtered P l k2 -> k1 = k2.
Proof.
  intros H. revert k2. induction H as [|x l k Hx _ IH|x l k Hx _ IH]; intros k2 H2;
    inversion H2; subst; try contradiction; auto.
  f_equal. apply IH. assumption.
Qed.

Lemma last_of_unique {A : Type} (n : nat) (l t1 t2 : list A) :
  Spec.last_of n l t1 -> Spec.last_of n l t2 -> t1 = t2.
Proof.
  intros [d1 [E1 L1]] [d2 [E2 L2]].
  assert (Hd : List.length d1 = List.length d2).
  { apply (f_equal (@List.length A)) in E1, E2. rewrite length_app in E1, E2. lia. }
  rewrite E1 in E2.
  revert d2 Hd E2. clear. induction d1 as [|x d1 IH]; intros [|y d2] Hd E; simpl in *;
    try discriminate Hd.
  - exact E.
  - injection E as _ E. injection Hd as Hd. eapply IH; eassumption.
Qed.

(** C4, as amended: the entries of the window correspond, in order, to
    the last twelve of the buckets whose week and total are both numbers
    (all of them when there are fewer); each carries the bucket's total
    with a negative total replaced by zero; the label of each is "Week k"
    where k is its position among all such buckets, so the labels are
    "Week 1".."Week N" only when at most twelve buckets qualify.  The
    named function and the inline computation agree. *)
Theorem commit_window_properties (render : number -> string)
    (weeks : list (option CommitActivityWeek)) :
  let out := commit_window render weeks in
  exists wf kept : list (option CommitActivityWeek),
    Spec.filtered Spec.numeric_week weeks wf
    /\ Spec.last_of 12 wf kept
    /\ (List.length out <= 12)%nat
    /\ Forall2 (fun e w => Spec.clamped_total w (commits e)) out kept
    /\ Forall (fun e => exists q, commits e = Fin q /\ 0 <= q) out
    /\ map week_label out
       = map Spec.week_label_of
           (seq (List.length wf - List.length out + 1) (List.length out))
    /\ ((List.length wf <= 12)%nat ->
        map week_label out = map Spec.week_label_of (seq 1 (List.length wf)))
    /\ (forall c a,
          analytics c = Some a -> commitActivity a = Some weeks ->
          prepareCommitActivityData render c = out
          /\ SingleView.commitData render (Some a) = out).
Proof.
  intros out.
  set (wf := filter well_formed_week weeks).
  set (kept := slice_last 12 wf).
  exists wf, kept.
  assert (Hout : out = mapi_from (List.length wf - 12) (commit_entry render) kept)
    by apply commit_window_unfold.
  assert (Hlen : List.length out = List.length kept)
    by (rewrite Hout; apply mapi_from_length).
  assert (Hkept : List.length kept = Nat.min 12 (List.length wf))
    by apply slice_last_length.
  assert (Hwf : Forall (fun w => well_formed_week w = true) kept).
  { apply slice_last_incl. apply Forall_forall. intros w Hw.
    apply filter_In in Hw. tauto. }
  assert (Hcl : Forall2 (fun e w => Spec.clamped_total w (commits e)) out kept).
  { rewrite Hout. apply commits_of_mapi_from. exact Hwf. }
  assert (Hlab : map week_label out
                 = map Spec.week_label_of
                     (seq (List.length wf - List.length out + 1) (List.length out))).
  { rewrite Hlen, Hkept. rewrite Hout, labels_of_mapi_from, Hkept.
    f_equal. f_equal. lia. }
  split; [apply filter_filtered|]. split; [apply slice_last_last_of|].
  split; [lia|]. split; [exact Hcl|]. split; [|split; [exact Hlab|split]].
  - apply (clamped_commits_nonneg Hcl).
  - intros Hle. rewrite Hlab, Hlen, Hkept.
    replace (Nat.min 12 (List.length wf)) with (List.length wf) by lia.
    f_equal. f_equal. lia.
  - intros c a Ha Hw. unfold prepareCommitActivityData, SingleView.commitData.
    rewrite Ha, Hw. split; reflexivity.
Qed.

(** C4, as stated, fails: with thirteen well-formed buckets the twelve
    kept entries are labelled "Week 2".."Week 13", not "Week 1".."Week 12". *)
Lemma commit_window_labels_not_from_1 :
  let out :=
    prepareCommitActivityData Host.Date_toLocaleDateString
      (Sample.component Sample.thirteen_weeks) in
  List.length out = 12%nat
  /\ map week_label out = map Spec.week_label_of (seq 2 12)
  /\ map week_label out <> map Spec.week_label_of (seq 1 (List.length out)).
Proof.
  repeat split; vm_compute; try reflexivity. discriminate.
Qed.

End MetricsFacts.

(** ** Language distribution *)

Module LanguageFacts.

Import Metrics.

Local Open Scope string_scope.

Lemma nearest_tenths_nonneg (x : Q) : 0 <= x -> (0 <= nearest_tenths x)%Z.
Proof.
  intros H. unfold nearest_tenths. change 0%Z with (Qfloor 0).
  apply Qfloor_resp_le. lra.
Qed.

Lemma nearest_tenths_bounds (x : Q) :
  x * 10 - (1 # 2) <= inject_Z (nearest_tenths x) <= x * 10 + (1 # 2).
Proof.
  unfold nearest_tenths.
  pose proof (Qfloor_le (x * 10 + (1 # 2))) as H1.
  pose proof (Qlt_floor (x * 10 + (1 # 2))) as H2.
  rewrite inject_Z_plus in H2. change (inject_Z 1) with 1 in H2.
  split; lra.
Qed.

Lemma sum_nearest_tenths_bounds (xs : list Q) :
  let n := inject_Z (Z.of_nat (List.length xs)) in
  Spec.sumQ xs * 10 - n * (1 # 2) <= inject_Z (Spec.sumZ (map nearest_tenths xs))
  <= Spec.sumQ xs * 10 + n * (1 # 2).
Proof.
  induction xs as [|x xs IH].
  - simpl. unfold inject_Z. split; lra.
  - cbn [List.length map Spec.sumQ Spec.sumZ fold_right] in *.
    rewrite Nat2Z.inj_succ. unfold Z.succ.
    rewrite !inject_Z_plus. change (inject_Z 1) with 1.
    pose proof (nearest_tenths_bounds x) as Hx.
    cbv zeta in IH.
    change (fold_right Qplus 0 xs) with (Spec.sumQ xs).
    change (fold_right Z.add 0%Z (map nearest_tenths xs))
      with (Spec.sumZ (map nearest_tenths xs)).
    split; lra.
Qed.

Lemma sum_shares (t : Q) (bs : list Q) :
  ~ t == 0 ->
  Spec.sumQ (map (fun b => b / t * 100) bs) == Spec.sumQ bs / t * 100.
Proof.
  intros Ht. induction bs as [|b bs IH]; simpl.
  - field. exact Ht.
  - rewrite IH. field. exact Ht.
Qed.

Lemma insert_perm {A : Type} (cmp : A -> A -> number) (x : A) (l : list A) :
  Permutation (insert cmp x l) (x :: l).
Proof.
  induction l as [|y l IH]; cbn [insert]; [apply Permutation_refl|].
  destruct (gt (cmp x y) (of_Z 0)).
  - eapply perm_trans; [apply perm_skip; exact IH | apply perm_swap].
  - apply Permutation_refl.
Qed.

Lemma sort_perm {A : Type} (cmp : A -> A -> number) (l : list A) :
  Permutation (sort cmp l) l.
Proof.
  induction l as [|x l IH]; simpl; [apply perm_nil|].
  eapply perm_trans; [apply insert_perm | apply perm_skip; exact IH].
Qed.

Lemma sumZ_perm (l l' : list Z) : Permutation l l' -> Spec.sumZ l = Spec.sumZ l'.
Proof.
  unfold Spec.sumZ. induction 1; simpl; lia.
Qed.

Lemma nearest_tenths_comp (x y : Q) : x == y -> nearest_tenths x = nearest_tenths y.
Proof. intros H. unfold nearest_tenths. apply Qfloor_comp. rewrite H. reflexivity. Qed.

Lemma sumQ_nonneg (xs : list Q) : Forall (fun x => 0 <= x) xs -> 0 <= Spec.sumQ xs.
Proof.
  induction 1 as [|x xs Hx _ IH]; simpl; [lra|].
  change (fold_right Qplus 0 xs) with (Spec.sumQ xs). lra.
Qed.



(** With non-negative byte counts the filter keeps exactly the non-zero
    languages. *)
Lemma positive_filter_nonzero (langs : list (string * Q)) :
  Forall (fun kv => 0 <= snd kv) langs ->
  filter (fun kv => gt (Fin (snd kv)) (of_Z 0)) langs = filter Spec.nonzero langs.
Proof.
  intros H. apply filter_ext_in. intros kv Hin.
  rewrite Forall_forall in H. specialize (H kv Hin).
  unfold Spec.nonzero, gt, lt, of_Z, Qlt_bool.
  destruct (Qeq_bool (snd kv) 0) eqn:E; simpl.
  - apply Qeq_bool_iff in E. apply negb_false_iff. apply Qle_bool_iff.
    rewrite E. unfold inject_Z. lra.
  - apply negb_true_iff. destruct (Qle_bool (snd kv) (inject_Z 0)) eqn:E2; [|reflexivity].
    apply Qle_bool_iff in E2. unfold inject_Z in E2.
    assert (snd kv == 0) by lra.
    apply Qeq_bool_iff in H0. congruence.
Qed.

Lemma sum_bytes_nonzero (langs : list (string * Q)) :
  Spec.sum_bytes (filter Spec.nonzero langs) == Spec.sum_bytes langs.
Proof.
  unfold Spec.sum_bytes.
  induction langs as [|kv langs IH]; simpl; [reflexivity|].
  unfold Spec.nonzero at 1. destruct (Qeq_bool (snd kv) 0) eqn:E; simpl.
  - apply Qeq_bool_iff in E. rewrite E, IH.
    change (fold_right Qplus 0 (map snd langs)) with (Spec.sumQ (map snd langs)). lra.
  - change (fold_right Qplus 0 (map snd langs)) with (Spec.sumQ (map snd langs)).
    change (fold_right Qplus 0 (map snd (filter Spec.nonzero langs)))
      with (Spec.sumQ (map snd (filter Spec.nonzero langs))).
    rewrite IH. reflexivity.
Qed.

Lemma entry_key_language_entry (total : number) (l : list (string * Q)) :
  map Spec.entry_key (map (language_entry total) l) = l.
Proof.
  induction l as [|[lang bytes] l IH]; simpl; [reflexivity|].
  rewrite IH. reflexivity.
Qed.

(** For any language map the result has at most six entries, and each is
    the entry of a language of the map with a positive byte count. *)
Lemma prepareLanguageData_entries (c : Component) (a : RepoAnalytics)
    (langs : list (string * Q)) :
  analytics c = Some a -> languages a = Some langs ->
  let out := prepareLanguageData c in
  (List.length out <= 6)%nat
  /\ Forall (fun e => In (Spec.entry_key e) langs /\ 0 < lang_value e) out.
Proof.
  intros Ha Hl out. unfold out, prepareLanguageData. rewrite Ha, Hl.
  destruct langs as [|kv langs']; [split; [simpl; lia | constructor]|].
  destruct (strict_eq (total_bytes (kv :: langs')) (of_Z 0));
    [split; [simpl; lia | constructor]|].
  set (langs := kv :: langs').
  split; [unfold slice_first; apply firstn_le_length|].
  apply Forall_forall. intros e He.
  unfold slice_first in He.
  assert (Hin : In e (sort by_value_desc
                        (map (language_entry (total_bytes langs))
                           (filter (fun kv => gt (Fin (snd kv)) (of_Z 0)) langs)))).
  { rewrite <- (firstn_skipn 6). apply in_or_app. left. exact He. }
  apply (Permutation_in _ (sort_perm _ _)) in Hin.
  apply in_map_iff in Hin. destruct Hin as [[lang bytes] [<- Hkv]].
  apply filter_In in Hkv. destruct Hkv as [Hkv Hpos].
  split; [exact Hkv|].
  unfold gt, lt, of_Z in Hpos. cbn [snd] in Hpos.
  apply JSFacts.Qlt_bool_iff in Hpos. unfold inject_Z in Hpos. exact Hpos.
Qed.

End LanguageFacts.

(** ** Language distribution in double arithmetic *)

Module Languages64Facts.

Import Metrics JSFacts Binary64 Binary64Facts.

Local Open Scope string_scope.

(** The sum of whole byte counts below [2^53] is computed exactly. *)
Lemma total_bytes64_from (langs : list (string * Q)) (a : Q) :
  Spec.byte_count a ->
  Forall (fun kv => Spec.byte_count (snd kv)) langs ->
  a + Spec.sum_bytes langs < 9007199254740992 ->
  exists t,
    fold_left (fun sum kv => (sum + Fin (snd kv))%f64) langs (Fin a) = Fin t
    /\ t == a + Spec.sum_bytes langs.
Proof.
  intros Ha Hl. revert a Ha. induction Hl as [|kv langs Hkv Hl IH]; intros a Ha Hb.
  - exists a. split; [reflexivity|]. unfold Spec.sum_bytes. simpl. lra.
  - cbn [fold_left]. unfold Spec.sum_bytes in Hb. cbn [map Spec.sumQ fold_right] in Hb.
    change (fold_right Qplus 0 (map snd langs)) with (Spec.sum_bytes langs) in Hb.
    destruct Ha as [za [Ea Hza]]. destruct Hkv as [zb [Eb Hzb]].
    assert (Hrest : 0 <= Spec.sum_bytes langs).
    { apply LanguageFacts.sumQ_nonneg. apply Forall_map.
      eapply Forall_impl; [|exact Hl]. intros x [z [Ez Hz]]. rewrite Ez.
      change 0 with (inject_Z 0). rewrite <- Zle_Qle. exact Hz. }
    assert (Esum : round64 (a + snd kv) == a + snd kv).
    { apply (@round64_int _ (za + zb)%Z).
      - rewrite Ea, Eb, inject_Z_plus. reflexivity.
      - assert (H : inject_Z (za + zb) < inject_Z (2 ^ 53)).
        { rewrite inject_Z_plus, <- Ea, <- Eb.
          change (inject_Z (2 ^ 53)) with 9007199254740992. lra. }
        rewrite <- Zlt_Qlt in H. lia. }
    destruct (IH (round64 (a + snd kv))) as [t [Ht Hs]].
    + exists (za + zb)%Z. split; [|lia].
      rewrite Esum, Ea, Eb, inject_Z_plus. reflexivity.
    + rewrite Esum. lra.
    + exists t. split; [exact Ht|]. rewrite Hs, Esum.
      unfold Spec.sum_bytes. cbn [map Spec.sumQ fold_right].
      change (fold_right Qplus 0 (map snd langs)) with (Spec.sumQ (map snd langs)). lra.
Qed.

Lemma total_bytes64_value (langs : list (string * Q)) :
  Forall (fun kv => Spec.byte_count (snd kv)) langs ->
  Spec.sum_bytes langs < 9007199254740992 ->
  exists t, Languages64.total_bytes langs = Fin t /\ t == Spec.sum_bytes langs.
Proof.
  intros Hl Hb.
  destruct (@total_bytes64_from langs (inject_Z 0)) as [t [Ht Hs]].
  - exists 0%Z. split; [reflexivity | lia].
  - exact Hl.
  - unfold inject_Z. lra.
  - exists t. split; [exact Ht|]. rewrite Hs. unfold inject_Z. lra.
Qed.


(** A share of a total of at most [10^12] bytes is either half way
    between two tenths or further than the rounding error from half way:
    the tenth printed for the computed percentage is a nearest tenth of
    the share itself. *)
Lemma nearest_tenths_of_share (b T p : Q) (zb zT : Z) :
  b == inject_Z zb -> T == inject_Z zT ->
  1 <= b -> b <= T -> T <= 1000000000000 ->
  0 <= p -> Qabs (p - b / T * 100) <= 1 # 40000000000000 ->
  Spec.nearest_tenth (Z.to_N (nearest_tenths p)) (b / T * 100).
Proof.
  intros Eb ET Hb HbT HT Hp Herr.
  unfold Spec.nearest_tenth.
  rewrite Z2N.id by (apply LanguageFacts.nearest_tenths_nonneg; exact Hp).
  pose proof (LanguageFacts.nearest_tenths_bounds p) as [K1 K2].
  set (k := nearest_tenths p) in *.
  apply Qabs_Qle_condition in Herr. destruct Herr as [E1 E2].
  assert (HT0 : 0 < T) by lra.
  assert (HTne : ~ T == 0) by lra.
  set (s := b / T * 100) in *.
  assert (HsT : s * T == 100 * b) by (unfold s; field; exact HTne).
  apply Qabs_Qle_condition. split.
  - destruct (Qlt_le_dec (inject_Z k / 10 - s) (- (1 # 20))) as [Hlt|Hge]; [|exact Hge].
    exfalso.
    set (y := s - inject_Z k / 10 - (1 # 20)).
    assert (Hy0 : 0 < y) by (unfold y; lra).
    assert (Hy1 : y <= 1 # 40000000000000).
    { unfold y, Qdiv. change (/ 10) with (1 # 10). lra. }
    assert (Ez : inject_Z (2000 * zb - 2 * k * zT - zT) == 20 * T * y).
    { unfold Z.sub. rewrite !inject_Z_plus, !inject_Z_opp, !inject_Z_mult, <- Eb, <- ET.
      unfold y. change (inject_Z 2000) with 2000. change (inject_Z 2) with 2.
      setoid_replace (20 * T * (s - inject_Z k / 10 - (1 # 20)))
        with (20 * (s * T) - 2 * inject_Z k * T - T) by field.
      rewrite HsT. ring. }
    assert (H0 : 0 < inject_Z (2000 * zb - 2 * k * zT - zT)).
    { rewrite Ez. apply Qmult_lt_0_compat; lra. }
    assert (H1 : inject_Z (2000 * zb - 2 * k * zT - zT) < 1).
    { rewrite Ez. nra. }
    change 0 with (inject_Z 0) in H0. change 1 with (inject_Z 1) in H1.
    rewrite <- Zlt_Qlt in H0, H1. lia.
  - destruct (Qlt_le_dec (1 # 20) (inject_Z k / 10 - s)) as [Hlt|Hge]; [|exact Hge].
    exfalso.
    set (y := inject_Z k / 10 - (1 # 20) - s).
    assert (Hy0 : 0 < y) by (unfold y; lra).
    assert (Hy1 : y <= 1 # 40000000000000).
    { unfold y, Qdiv. change (/ 10) with (1 # 10). lra. }
    assert (Ez : inject_Z (2 * k * zT - zT - 2000 * zb) == 20 * T * y).
    { unfold Z.sub. rewrite !inject_Z_plus, !inject_Z_opp, !inject_Z_mult, <- Eb, <- ET.
      unfold y. change (inject_Z 2000) with 2000. change (inject_Z 2) with 2.
      setoid_replace (20 * T * (inject_Z k / 10 - (1 # 20) - s))
        with (2 * inject_Z k * T - T - 20 * (s * T)) by field.
      rewrite HsT. ring. }
    assert (H0 : 0 < inject_Z (2 * k * zT - zT - 2000 * zb)).
    { rewrite Ez. apply Qmult_lt_0_compat; lra. }
    assert (H1 : inject_Z (2 * k * zT - zT - 2000 * zb) < 1).
    { rewrite Ez. nra. }
    change 0 with (inject_Z 0) in H0. change 1 with (inject_Z 1) in H1.
    rewrite <- Zlt_Qlt in H0, H1. lia.
Qed.


Lemma entry_percentage (t : Q) (kv : string * Q) (zb zT : Z) :
  snd kv == inject_Z zb -> t == inject_Z zT ->
  1 <= snd kv -> snd kv <= t -> t <= 1000000000000 ->
  let e := Languages64.language_entry (Fin t) kv in
  percentage e = Spec.one_decimal (Languages64.printed_tenths t e)
  /\ Spec.nearest_tenth (Languages64.printed_tenths t e) (Spec.share t (lang_value e)).
Proof.
  intros Eb ET Hb HbT HT. destruct kv as [lang bytes]. cbn [snd] in *.
  assert (E0 : Qeq_bool t 0 = false).
  { destruct (Qeq_bool t 0) eqn:E0; [|reflexivity]. apply Qeq_bool_iff in E0. lra. }
  destruct (@percent_of_ratio_error bytes t) as [P0 P1]; [lra | lra | lra |].
  cbv zeta. unfold Languages64.language_entry, Languages64.printed_tenths.
  cbn [percentage lang_value]. unfold Binary64.div. rewrite E0.
  change (Fin (round64 (bytes / t)) * of_Z 100)%f64
    with (Fin (round64 (round64 (bytes / t) * 100))).
  split.
  - apply PrintingFacts.toFixed1_one_decimal. exact P0.
  - unfold Spec.share. apply (@nearest_tenths_of_share bytes t _ zb zT); assumption.
Qed.

Lemma nearest_tenth_comp (n : N) (x y : Q) :
  x == y -> Spec.nearest_tenth n x -> Spec.nearest_tenth n y.
Proof. unfold Spec.nearest_tenth. intros H. rewrite H. auto. Qed.

Lemma sum_of_nearest_tenths (A : Type) (f : A -> N) (g : A -> Q) (l : list A) :
  Forall (fun e => Spec.nearest_tenth (f e) (g e)) l ->
  Qabs (inject_Z (Spec.sum_tenths (map f l)) / 10 - Spec.sumQ (map g l))
  <= inject_Z (Z.of_nat (List.length l)) * (1 # 20).
Proof.
  induction 1 as [|e l He _ IH].
  - vm_compute. discriminate.
  - unfold Spec.sum_tenths in *. cbn [map Spec.sumZ Spec.sumQ fold_right List.length].
    change (fold_right Z.add 0%Z (map Z.of_N (map f l)))
      with (Spec.sumZ (map Z.of_N (map f l))).
    change (fold_right Qplus 0 (map g l)) with (Spec.sumQ (map g l)).
    rewrite Nat2Z.inj_succ. unfold Z.succ. rewrite !inject_Z_plus.
    change (inject_Z 1) with 1.
    unfold Spec.nearest_tenth in He.
    apply Qabs_Qle_condition in He. apply Qabs_Qle_condition in IH.
    apply Qabs_Qle_condition.
    revert He IH. unfold Qdiv. change (/ 10) with (1 # 10).
    generalize (inject_Z (Z.of_N (f e))), (inject_Z (Spec.sumZ (map Z.of_N (map f l)))),
      (inject_Z (Z.of_nat (List.length l))), (g e), (Spec.sumQ (map g l)).
    intros. split; lra.
Qed.

Lemma sumQ_perm (l l' : list Q) : Permutation l l' -> Spec.sumQ l == Spec.sumQ l'.
Proof.
  unfold Spec.sumQ. induction 1 as [| x l l' _ IH | x y l | l l' l'' _ IH1 _ IH2]; simpl.
  - reflexivity.
  - rewrite IH. reflexivity.
  - ring.
  - rewrite IH1. exact IH2.
Qed.

Lemma member_le_sum (langs : list (string * Q)) (kv : string * Q) :
  Forall (fun kv => 0 <= snd kv) langs -> In kv langs -> snd kv <= Spec.sum_bytes langs.
Proof.
  intros H. induction H as [|x l Hx Hl IH]; intros Hin; [contradiction|].
  unfold Spec.sum_bytes in *. cbn [map Spec.sumQ fold_right].
  change (fold_right Qplus 0 (map snd l)) with (Spec.sumQ (map snd l)).
  pose proof (@LanguageFacts.sumQ_nonneg (map snd l)) as Hs.
  assert (0 <= Spec.sumQ (map snd l)) by (apply Hs, Forall_map; exact Hl).
  destruct Hin as [<- | Hin]; [lra|]. specialize (IH Hin). lra.
Qed.

Lemma byte_count_nonneg (q : Q) : Spec.byte_count q -> 0 <= q.
Proof.
  intros [z [E Hz]]. rewrite E. change 0 with (inject_Z 0). rewrite <- Zle_Qle. exact Hz.
Qed.

Lemma byte_counts_whole_sum (langs : list (string * Q)) :
  Forall (fun kv => Spec.byte_count (snd kv)) langs ->
  Spec.byte_count (Spec.sum_bytes langs).
Proof.
  induction 1 as [|kv l [z [E Hz]] _ [s [Es Hs]]].
  - exists 0%Z. split; [reflexivity | lia].
  - exists (z + s)%Z. split; [|lia].
    unfold Spec.sum_bytes in *. cbn [map Spec.sumQ fold_right].
    change (fold_right Qplus 0 (map snd l)) with (Spec.sumQ (map snd l)).
    rewrite E, Es, inject_Z_plus. reflexivity.
Qed.

Lemma entry_key_language_entry64 (total : number) (l : list (string * Q)) :
  map Spec.entry_key (map (Languages64.language_entry total) l) = l.
Proof.
  induction l as [|[lang bytes] l IH]; simpl; [reflexivity|].
  rewrite IH. reflexivity.
Qed.

(** C2, as amended: for a map of whole, non-negative byte counts with a
    non-zero total of at most [10^12] and at most six non-zero languages,
    the result has one entry per non-zero language; each percentage is a
    text with exactly one decimal that denotes a multiple of one tenth
    nearest to the language's share of the total (either of the two when
    the share lies half way); the percentages sum to 100.0 within 0.05
    per returned entry, hence within 0.3; every returned name is the name
    of a non-zero language of the map. *)
Theorem language_distribution_properties (c : Component) (a : RepoAnalytics)
    (langs : list (string * Q)) :
  analytics c = Some a -> languages a = Some langs ->
  Forall (fun kv => Spec.byte_count (snd kv)) langs ->
  Spec.sum_bytes langs <= 1000000000000 ->
  ~ Spec.sum_bytes langs == 0 ->
  (List.length (filter Spec.nonzero langs) <= 6)%nat ->
  let out := Languages64.prepareLanguageData c in
  let total := Spec.sum_bytes langs in
  Permutation (map Spec.entry_key out) (filter Spec.nonzero langs)
  /\ (exists ts : list N,
        map percentage out = map Spec.one_decimal ts
        /\ Forall2 (fun t e => Spec.nearest_tenth t (Spec.share total (lang_value e)))
             ts out
        /\ (2 * Z.abs (Spec.sum_tenths ts - 1000) <= Z.of_nat (List.length out))%Z
        /\ (Z.abs (Spec.sum_tenths ts - 1000) <= 3)%Z)
  /\ Forall (fun e => In (lang_name e) (map fst (filter Spec.nonzero langs))) out.
Proof.
  intros Ha Hl Hbc Hmax Hne Hsix out total.
  assert (Hnn : Forall (fun kv => 0 <= snd kv) langs).
  { eapply Forall_impl; [|exact Hbc]. intros kv. apply byte_count_nonneg. }
  destruct (total_bytes64_value Hbc) as [t [Ht Hts]]; [lra|].
  fold total in Hts, Hmax, Hne.
  assert (Htot0 : 0 <= total) by (apply byte_count_nonneg, byte_counts_whole_sum, Hbc).
  assert (Htpos : 0 < t) by lra.
  destruct (byte_counts_whole_sum Hbc) as [zT [EzT _]]. fold total in EzT.
  set (nz := filter Spec.nonzero langs) in *.
  assert (Hout : out = sort Languages64.by_value_desc
                         (map (Languages64.language_entry (Fin t)) nz)).
  { unfold out, Languages64.prepareLanguageData. rewrite Ha, Hl.
    destruct langs as [|kv langs'].
    - exfalso. apply Hne. reflexivity.
    - rewrite Ht.
      assert (E : strict_eq (Fin t) (of_Z 0) = false).
      { unfold strict_eq, of_Z. destruct (Qeq_bool t (inject_Z 0)) eqn:E; [|reflexivity].
        apply Qeq_bool_iff in E. unfold inject_Z in E. lra. }
      rewrite E. rewrite LanguageFacts.positive_filter_nonzero by exact Hnn. fold nz.
      unfold slice_first. apply firstn_all2.
      rewrite (Permutation_length (LanguageFacts.sort_perm _ _)), length_map.
      exact Hsix. }
  set (L := map (Languages64.language_entry (Fin t)) nz) in *.
  assert (Hperm : Permutation out L) by (rewrite Hout; apply LanguageFacts.sort_perm).
  assert (Hkeys : Permutation (map Spec.entry_key out) nz).
  { pose proof (Permutation_map Spec.entry_key Hperm) as Hk.
    unfold L in Hk. rewrite entry_key_language_entry64 in Hk. exact Hk. }
  assert (HL : Forall
                 (fun e =>
                    percentage e = Spec.one_decimal (Languages64.printed_tenths t e)
                    /\ Spec.nearest_tenth (Languages64.printed_tenths t e)
                         (Spec.share total (lang_value e))) L).
  { apply Forall_forall. intros e He. unfold L in He. apply in_map_iff in He.
    destruct He as [kv [<- Hkv]]. unfold nz in Hkv. apply filter_In in Hkv.
    destruct Hkv as [Hin Hnzero].
    rewrite Forall_forall in Hbc. destruct (Hbc kv Hin) as [zb [Ezb Hzb]].
    assert (Hone : 1 <= snd kv).
    { unfold Spec.nonzero in Hnzero. apply negb_true_iff in Hnzero.
      assert (Hz : zb <> 0%Z).
      { intros ->. assert (Hq : snd kv == 0) by (rewrite Ezb; reflexivity).
        apply Qeq_bool_iff in Hq. congruence. }
      rewrite Ezb. change 1 with (inject_Z 1). rewrite <- Zle_Qle. lia. }
    assert (Hle : snd kv <= t).
    { rewrite Hts. apply member_le_sum; assumption. }
    destruct (@entry_percentage t kv zb zT) as [P1 P2];
      [exact Ezb | rewrite Hts; exact EzT | exact Hone | exact Hle | lra |].
    split; [exact P1|].
    eapply nearest_tenth_comp; [|exact P2].
    destruct kv as [lang bytes]. cbn [Languages64.language_entry lang_value].
    unfold Spec.share. rewrite Hts. reflexivity. }
  assert (Hout_all : Forall
                 (fun e =>
                    percentage e = Spec.one_decimal (Languages64.printed_tenths t e)
                    /\ Spec.nearest_tenth (Languages64.printed_tenths t e)
                         (Spec.share total (lang_value e))) out).
  { apply Forall_forall. intros e He. rewrite Forall_forall in HL. apply HL.
    apply (Permutation_in _ Hperm). exact He. }
  assert (Hlen : (List.length out <= 6)%nat).
  { rewrite (Permutation_length Hperm). unfold L. rewrite length_map. exact Hsix. }
  assert (Hsum : (2 * Z.abs (Spec.sum_tenths (map (Languages64.printed_tenths t) out) - 1000)
                  <= Z.of_nat (List.length out))%Z).
  { pose proof (@sum_of_nearest_tenths _ (Languages64.printed_tenths t)
                  (fun e => Spec.share total (lang_value e)) out) as Hs.
    assert (Hshares : Spec.sumQ (map (fun e => Spec.share total (lang_value e)) out)
                      == 100).
    { rewrite (sumQ_perm (Permutation_map _ Hperm)). unfold L. rewrite map_map.
      rewrite (map_ext _ (fun kv : string * Q => snd kv / total * 100))
        by (intros [lang bytes]; reflexivity).
      rewrite <- (map_map snd (fun b => b / total * 100)).
      rewrite LanguageFacts.sum_shares by exact Hne.
      change (Spec.sumQ (map snd nz)) with (Spec.sum_bytes nz).
      unfold nz. rewrite LanguageFacts.sum_bytes_nonzero. fold total.
      field. exact Hne. }
    rewrite Hshares in Hs.
    assert (Hs' : Qabs (inject_Z (Spec.sum_tenths (map (Languages64.printed_tenths t) out)) / 10 - 100)
                  <= inject_Z (Z.of_nat (List.length out)) * (1 # 20)).
    { apply Hs. eapply Forall_impl; [|exact Hout_all]. intros e [_ H]. exact H. }
    apply Qabs_Qle_condition in Hs'. destruct Hs' as [S1 S2].
    set (S := Spec.sum_tenths (map (Languages64.printed_tenths t) out)) in *.
    set (n := Z.of_nat (List.length out)) in *.
    assert (H1 : inject_Z (2 * S) <= inject_Z (2000 + n)).
    { rewrite inject_Z_mult, inject_Z_plus. revert S1 S2. unfold Qdiv.
      change (/ 10) with (1 # 10). change (inject_Z 2) with 2.
      change (inject_Z 2000) with 2000.
      generalize (inject_Z S), (inject_Z n). intros. lra. }
    assert (H2 : inject_Z (2000 + - n) <= inject_Z (2 * S)).
    { rewrite inject_Z_mult, inject_Z_plus, inject_Z_opp. revert S1 S2. unfold Qdiv.
      change (/ 10) with (1 # 10). change (inject_Z 2) with 2.
      change (inject_Z 2000) with 2000.
      generalize (inject_Z S), (inject_Z n). intros. lra. }
    rewrite <- Zle_Qle in H1, H2. lia. }
  split; [exact Hkeys|]. split.
  - exists (map (Languages64.printed_tenths t) out). split; [|split; [|split; [exact Hsum | lia]]].
    + rewrite map_map. apply map_ext_in. intros e He.
      rewrite Forall_forall in Hout_all. apply (Hout_all e He).
    + clear - Hout_all. induction Hout_all as [|e l [_ He] _ IH]; constructor; assumption.
  - apply Forall_forall. intros e He.
    apply (in_map Spec.entry_key) in He.
    apply (Permutation_in _ Hkeys) in He.
    apply (in_map fst) in He. exact He.
Qed.


Lemma string_of_N_inj (n m : N) : string_of_N n = string_of_N m -> n = m.
Proof.
  intros H. unfold string_of_N in H.
  apply (f_equal NilZero.uint_of_string) in H.
  rewrite !NilZero.usu in H by apply PrintingFacts.N_to_uint_nonnil.
  apply DecimalN.Unsigned.to_uint_inj. congruence.
Qed.

Lemma digits_without_point (n : N) : Spec.not_in "." (string_of_N n).
Proof.
  unfold string_of_N.
  rewrite PrintingFacts.NilZero_NilEmpty by apply PrintingFacts.N_to_uint_nonnil.
  induction (N.to_uint n); simpl; auto.
Qed.

Lemma split_at_point (a a' b b' : string) :
  Spec.not_in "." a -> Spec.not_in "." a' ->
  a ++ "." ++ b = a' ++ "." ++ b' -> a = a' /\ b = b'.
Proof.
  revert a'. induction a as [|x a IH]; intros [|x' a'] Ha Ha' H; simpl in *.
  - injection H as H. split; [reflexivity | exact H].
  - injection H as Hx _. destruct Ha' as [Hx' _]. subst x'. discriminate Hx'.
  - injection H as Hx _. destruct Ha as [Hx' _]. subst x. discriminate Hx'.
  - injection H as Hx H. destruct Ha as [_ Ha]. destruct Ha' as [_ Ha'].
    destruct (IH a' Ha Ha' H) as [-> ->]. subst x'. split; reflexivity.
Qed.

(** A text with one decimal denotes one number of tenths. *)
Lemma one_decimal_inj (t t' : N) : Spec.one_decimal t = Spec.one_decimal t' -> t = t'.
Proof.
  unfold Spec.one_decimal. intros H.
  apply split_at_point in H; try apply digits_without_point.
  destruct H as [H1 H2]. apply string_of_N_inj in H1, H2.
  rewrite (N.div_mod t 10), (N.div_mod t' 10) by lia. rewrite H1, H2. reflexivity.
Qed.

Lemma one_decimal_map_inj (ts ts' : list N) :
  map Spec.one_decimal ts = map Spec.one_decimal ts' -> ts = ts'.
Proof.
  revert ts'. induction ts as [|t ts IH]; intros [|t' ts'] H; simpl in H;
    try discriminate H; [reflexivity|].
  injection H as H1 H2. apply one_decimal_inj in H1. rewrite H1, (IH _ H2). reflexivity.
Qed.

(** Scenario A: 9000 bytes of TypeScript and 1000 of CSS are rendered as
    90.0 and 10.0. *)
Lemma language_distribution_properties_witness :
  let c := Sample.component Sample.scenario_A in
  map percentage (Languages64.prepareLanguageData c) = ["90.0"; "10.0"]
  /\ Permutation (map Spec.entry_key (Languages64.prepareLanguageData c))
       [("TypeScript", 9000); ("CSS", 1000)].
Proof.
  intros c.
  destruct (@language_distribution_properties c Sample.scenario_A
              [("TypeScript", 9000); ("CSS", 1000)]) as [H1 _].
  - reflexivity.
  - reflexivity.
  - repeat constructor; [exists 9000%Z | exists 1000%Z]; split; (reflexivity || lia).
  - vm_compute. discriminate.
  - vm_compute. discriminate.
  - vm_compute. lia.
  - split; [vm_compute; reflexivity | exact H1].
Defined.

(** C2, as stated, fails.  Six languages of one byte each are rendered
    as "16.7" six times, which sums to 100.2.  Of 23 bytes in 80 the share
    is 28.75, which rounds to 28.8; the doubles give a value below 28.75
    and the text is "28.7".  With a total above [10^12] the text need not
    be a nearest tenth at all: a share just above 56.15 is rendered as
    "56.1". *)
Lemma language_percentages_off_claim :
  (let langs := [("C", 1); ("Go", 1); ("Java", 1); ("Python", 1); ("Ruby", 1);
                 ("Rust", 1)] in
   let out :=
     Languages64.prepareLanguageData (Sample.component Sample.six_equal_languages) in
   languages Sample.six_equal_languages = Some langs
   /\ (List.length (filter Spec.nonzero langs) <= 6)%nat
   /\ ~ Spec.sum_bytes langs == 0
   /\ map percentage out = ["16.7"; "16.7"; "16.7"; "16.7"; "16.7"; "16.7"]
   /\ ~ exists ts : list N,
          map percentage out = map Spec.one_decimal ts
          /\ (Z.abs (Spec.sum_tenths ts - 1000) <= 1)%Z)
  /\ (let langs := [("Alpha", 23); ("Beta", 57)] in
      let out := Languages64.prepareLanguageData (Sample.component Sample.alpha_beta) in
      languages Sample.alpha_beta = Some langs
      /\ Spec.share (Spec.sum_bytes langs) 23 == 2875 # 100
      /\ toFixed1 (Fin (Spec.share (Spec.sum_bytes langs) 23)) = "28.8"
      /\ map (fun e => (lang_name e, percentage e)) out
         = [("Beta", "71.3"); ("Alpha", "28.7")])
  /\ (let langs := [("Alpha", 5420984623022); ("Beta", 4233484874791)] in
      let out := Languages64.prepareLanguageData (Sample.component Sample.large_total) in
      languages Sample.large_total = Some langs
      /\ 1000000000000 < Spec.sum_bytes langs
      /\ map (fun e => (lang_name e, percentage e)) out
         = [("Alpha", Spec.one_decimal 561); ("Beta", Spec.one_decimal 438)]
      /\ Spec.nearest_tenth 562 (Spec.share (Spec.sum_bytes langs) 5420984623022)
      /\ ~ Spec.nearest_tenth 561 (Spec.share (Spec.sum_bytes langs) 5420984623022)).
Proof.
  split; [|split].
  - intros langs out.
    split; [reflexivity|]. split; [vm_compute; lia|].
    split; [intros H; vm_compute in H; discriminate H|].
    split; [vm_compute; reflexivity|].
    intros [ts [Hts Hsum]].
    assert (E : map percentage out = map Spec.one_decimal [167; 167; 167; 167; 167; 167]%N)
      by (vm_compute; reflexivity).
    rewrite E in Hts. apply one_decimal_map_inj in Hts. subst ts.
    vm_compute in Hsum. apply Hsum. reflexivity.
  - intros langs out. repeat split; vm_compute; reflexivity.
  - intros langs out.
    split; [reflexivity|]. split; [vm_compute; reflexivity|].
    split; [vm_compute; reflexivity|].
    split; [vm_compute; discriminate|].
    intros H. vm_compute in H. apply H. reflexivity.
Qed.

End Languages64Facts.

(** ** Calls over a store *)

Module StoreFacts.

Import Metrics Store.

Local Open Scope nat_scope.

Lemma lookup_old {A : Type} `{Stored A} (s t : store) (a : loc) (l : list A) :
  lookup s a = Some l -> lookup (s ++ t) a = Some l.
Proof.
  unfold lookup. destruct (nth_error s a) as [o|] eqn:E; [|discriminate].
  intros Ho. rewrite nth_error_app1 by (apply nth_error_Some; congruence).
  rewrite E. exact Ho.
Qed.

Lemma lookup_last {A : Type} `{Stored A} (s : store) (l : list A) :
  lookup (s ++ [box l]) (List.length s) = Some l.
Proof.
  unfold lookup. rewrite nth_error_app2 by lia. rewrite Nat.sub_diag. simpl.
  apply unbox_box.
Qed.

Lemma update_last (s : store) (o o' : object) :
  update (List.length s) o' (s ++ [o]) = s ++ [o'].
Proof. induction s as [|x s IH]; simpl; [reflexivity | rewrite IH; reflexivity]. Qed.

Lemma holds_old {A : Type} `{Stored A} (s t : store) (a : loc) (l : list A) :
  lookup s a = Some l -> holds s t a l.
Proof. apply lookup_old. Qed.

Lemma holds_last {A : Type} `{Stored A} (s t : store) (l : list A) :
  holds s (t ++ [box l]) (List.length s + List.length t) l.
Proof.
  unfold holds. rewrite app_assoc, <- length_app. apply lookup_last.
Qed.

Lemma holds_more {A : Type} `{Stored A} (s t u : store) (a : loc) (l : list A) :
  holds s t a l -> holds s (t ++ u) a l.
Proof. unfold holds. intros E. rewrite app_assoc. apply lookup_old. exact E. Qed.

Lemma exec_ret {A : Type} (x : A) (s t : store) : exec (ret x) s t x t.
Proof. reflexivity. Qed.

Lemma exec_bind {A B : Type} (m : M A) (f : A -> M B) (s t t1 t2 : store)
    (x : A) (y : B) :
  exec m s t x t1 -> exec (f x) s t1 y t2 -> exec (bind m f) s t y t2.
Proof. unfold exec, bind. intros -> E. exact E. Qed.

Lemma exec_alloc {A : Type} `{Stored A} (s t : store) (l : list A) :
  exec (alloc l) s t (List.length s + List.length t) (t ++ [box l]).
Proof. unfold exec, alloc. rewrite length_app, app_assoc. reflexivity. Qed.

Lemma exec_read {A : Type} `{Stored A} (s t : store) (a : loc) (l : list A) :
  holds s t a l -> exec (read a) s t l t.
Proof. unfold holds, exec, read. intros ->. reflexivity. Qed.

Lemma exec_write_last {A : Type} `{Stored A} (s t : store) (l l' : list A) :
  exec (write (List.length s + List.length t) l') s (t ++ [box l]) tt (t ++ [box l']).
Proof.
  unfold exec, write. rewrite !app_assoc, <- length_app.
  assert (E : (List.length (s ++ t) <? List.length ((s ++ t) ++ [box l])) = true).
  { apply Nat.ltb_lt. rewrite (length_app (s ++ t)). simpl. lia. }
  rewrite E, update_last. reflexivity.
Qed.

(** The array methods: a method that returns a new array appends it to
    the store; [sort] and [push], called on the array allocated last,
    replace it. *)
Lemma exec_filter {A : Type} `{Stored A} (f : A -> bool) (s t : store) (a : loc)
    (l : list A) :
  holds s t a l ->
  exec (Array_filter f a) s t (List.length s + List.length t)
    (t ++ [box (List.filter f l)]).
Proof.
  intros Hl. eapply exec_bind; [apply exec_read; exact Hl | apply exec_alloc].
Qed.

Lemma exec_map {A B : Type} `{Stored A} `{Stored B} (f : A -> B) (s t : store)
    (a : loc) (l : list A) :
  holds s t a l ->
  exec (Array_map f a) s t (List.length s + List.length t) (t ++ [box (List.map f l)]).
Proof.
  intros Hl. eapply exec_bind; [apply exec_read; exact Hl | apply exec_alloc].
Qed.

Lemma exec_mapi {A B : Type} `{Stored A} `{Stored B} (f : A -> nat -> B) (s t : store)
    (a : loc) (l : list A) :
  holds s t a l ->
  exec (Array_mapi f a) s t (List.length s + List.length t) (t ++ [box (mapi f l)]).
Proof.
  intros Hl. eapply exec_bind; [apply exec_read; exact Hl | apply exec_alloc].
Qed.

Lemma exec_slice_first {A : Type} `{Stored A} (n : nat) (s t : store) (a : loc)
    (l : list A) :
  holds s t a l ->
  exec (Array_slice_first (A := A) n a) s t (List.length s + List.length t)
    (t ++ [box (slice_first n l)]).
Proof.
  intros Hl. eapply exec_bind; [apply exec_read; exact Hl | apply exec_alloc].
Qed.

Lemma exec_slice_last {A : Type} `{Stored A} (n : nat) (s t : store) (a : loc)
    (l : list A) :
  holds s t a l ->
  exec (Array_slice_last (A := A) n a) s t (List.length s + List.length t)
    (t ++ [box (slice_last n l)]).
Proof.
  intros Hl. eapply exec_bind; [apply exec_read; exact Hl | apply exec_alloc].
Qed.

Lemma exec_length {A : Type} `{Stored A} (s t : store) (a : loc) (l : list A) :
  holds s t a l -> exec (Array_length (A := A) a) s t (List.length l) t.
Proof.
  intros Hl. eapply exec_bind; [apply exec_read; exact Hl | apply exec_ret].
Qed.

Lemma exec_reduce {A B : Type} `{Stored A} (f : B -> A -> B) (init : B) (s t : store)
    (a : loc) (l : list A) :
  holds s t a l -> exec (Array_reduce f init a) s t (fold_left f l init) t.
Proof.
  intros Hl. eapply exec_bind; [apply exec_read; exact Hl | apply exec_ret].
Qed.

Lemma exec_entries {A : Type} `{Stored (string * A)} (s t : store) (o : loc)
    (l : list (string * A)) :
  holds s t o l ->
  exec (Object_entries_of (A := A) o) s t (List.length s + List.length t)
    (t ++ [box (Object_entries l)]).
Proof.
  intros Hl. eapply exec_bind; [apply exec_read; exact Hl | apply exec_alloc].
Qed.

Lemma exec_keys {A : Type} `{Stored (string * A)} (s t : store) (o : loc)
    (l : list (string * A)) :
  holds s t o l ->
  exec (Object_keys (A := A) o) s t (List.length s + List.length t)
    (t ++ [box (List.map fst (Object_entries l))]).
Proof.
  intros Hl. eapply exec_bind; [apply exec_read; exact Hl | apply exec_alloc].
Qed.

Lemma exec_values (s t : store) (o : loc) (l : list (string * Q)) :
  holds s t o l ->
  exec (Object_values o) s t (List.length s + List.length t)
    (t ++ [box (List.map snd (Object_entries l))]).
Proof.
  intros Hl. eapply exec_bind; [apply exec_read; exact Hl | apply exec_alloc].
Qed.

Lemma exec_sort {A : Type} `{Stored A} (cmp : A -> A -> number) (s t : store)
    (l : list A) :
  exec (Array_sort cmp (List.length s + List.length t)) s (t ++ [box l])
    (List.length s + List.length t) (t ++ [box (sort cmp l)]).
Proof.
  eapply exec_bind; [apply exec_read; apply holds_last|].
  eapply exec_bind; [apply exec_write_last | apply exec_ret].
Qed.

Lemma exec_push {A : Type} `{Stored A} (s t : store) (l : list A) (x : A) :
  exec (Array_push (List.length s + List.length t) x) s (t ++ [box l]) tt
    (t ++ [box (l ++ [x])]).
Proof.
  eapply exec_bind; [apply exec_read; apply holds_last | apply exec_write_last].
Qed.

Lemma exec_start {A : Type} (m : M A) (s t : store) (x : A) :
  exec m s [] x t -> m s = Some (x, s ++ t).
Proof. unfold exec. rewrite app_nil_r. auto. Qed.


Lemma view_field_inv {A : Type} `{Stored A} (s : store) (r : option loc)
    (v : option (list A)) :
  view_field s r = Some v ->
  (r = None /\ v = None)
  \/ (exists a l, r = Some a /\ v = Some l /\ lookup s a = Some l).
Proof.
  unfold view_field. destruct r as [a|].
  - destruct (lookup s a) as [l|] eqn:E; simpl; [|discriminate].
    intros [= <-]. right. exists a, l. auto.
  - intros [= <-]. left. auto.
Qed.

Ltac step :=
  first
    [ apply exec_ret
    | apply exec_alloc
    | apply exec_sort
    | apply exec_push
    | apply exec_filter
    | apply exec_map
    | apply exec_mapi
    | apply exec_slice_first
    | apply exec_slice_last
    | apply exec_length
    | apply exec_reduce
    | apply exec_entries
    | apply exec_keys
    | apply exec_values ].

Ltac found :=
  first
    [ apply holds_last
    | apply holds_old; eassumption
    | apply holds_more; found ].

Ltac steps := repeat (eapply exec_bind; [step; found|]).

Lemma prepareCommitActivityData_exec (h : Host) (c : ComponentRef)
    (a : RepoAnalyticsRef) (s t : store)
    (ws : option (list (option CommitActivityWeek))) :
  analytics_at c = Some a ->
  view_field s (commitActivity_at a) = Some ws ->
  exists r t',
    exec (prepareCommitActivityData h c) s t r t'
    /\ holds s t' r
         match ws with
         | Some weeks =>
             slice_last 12
               (mapi (commit_entry (Date_toLocaleDateString h))
                  (List.filter well_formed_week weeks))
         | None => []
         end.
Proof.
  intros Ha Hw. unfold prepareCommitActivityData. rewrite Ha.
  destruct (view_field_inv _ _ Hw) as [[-> ->] | [w [weeks [-> [-> Hl]]]]].
  - do 2 eexists. split; [step | found].
  - do 2 eexists. split; [steps; step; found | found].
Qed.

Lemma getIssueStats_exec (c : ComponentRef) (a : RepoAnalyticsRef) (s t : store)
    (data : RepoAnalytics) :
  analytics_at c = Some a ->
  view_field s (issues_at a) = Some (issues data) ->
  exists t', exec (getIssueStats c) s t (Metrics.getIssueStats (component_of data)) t'.
Proof.
  intros Ha Hi. unfold getIssueStats, Metrics.getIssueStats. rewrite Ha.
  cbn [component_of analytics].
  destruct (view_field_inv _ _ Hi) as [[-> E] | [i [l [-> [E Hl]]]]]; rewrite E.
  - eexists. step.
  - eexists. steps. step.
Qed.


Lemma fold_left_map {A B C : Type} (f : C -> B -> C) (g : A -> B) (l : list A) (c : C) :
  fold_left f (List.map g l) c = fold_left (fun acc x => f acc (g x)) l c.
Proof. revert c. induction l as [|x l IH]; intros c; simpl; [reflexivity | apply IH]. Qed.

Lemma prepareLanguageData_exec (c : ComponentRef) (a : RepoAnalyticsRef) (s t : store)
    (data : RepoAnalytics) :
  analytics_at c = Some a ->
  view_field s (languages_at a) = Some (languages data) ->
  exists r t',
    exec (prepareLanguageData c) s t r t'
    /\ holds s t' r (Languages64.prepareLanguageData (component_of (listed data))).
Proof.
  intros Ha Hl. unfold prepareLanguageData, Languages64.prepareLanguageData.
  rewrite Ha. cbn [component_of analytics listed languages].
  destruct (view_field_inv _ _ Hl) as [[-> E] | [o [l [-> [E Ho]]]]]; rewrite E;
    cbn [option_map].
  - do 2 eexists. split; [step | found].
  - destruct (Object_entries l) as [|kv langs] eqn:El.
    + do 2 eexists. split; [|found].
      eapply exec_bind; [step; found|]. rewrite El.
      eapply exec_bind; [step; found|]. cbn [List.map List.length Nat.eqb]. step.
    + assert (Et : fold_left (fun sum bytes => (sum + Fin bytes)%f64)
                     (List.map snd (kv :: langs)) (of_Z 0)
                   = Languages64.total_bytes (kv :: langs)).
      { unfold Languages64.total_bytes.
        apply (fold_left_map (fun sum bytes => (sum + Fin bytes)%f64) snd). }
      destruct (strict_eq (Languages64.total_bytes (kv :: langs)) (of_Z 0)) eqn:Ez.
      * do 2 eexists. split; [|found].
        eapply exec_bind; [step; found|]. rewrite El.
        eapply exec_bind; [step; found|]. cbn [List.map List.length Nat.eqb].
        eapply exec_bind; [step; found|]. rewrite El.
        eapply exec_bind; [step; found|]. rewrite Et, Ez. step.
      * do 2 eexists. split; [|found].
        eapply exec_bind; [step; found|]. rewrite El.
        eapply exec_bind; [step; found|]. cbn [List.map List.length Nat.eqb].
        eapply exec_bind; [step; found|]. rewrite El.
        eapply exec_bind; [step; found|]. rewrite Et, Ez.
        eapply exec_bind; [step; found|]. rewrite El.
        steps. step. found.
Qed.

Lemma count_labels_exec (s t : store) (ls : list (option Label)) :
  forall o : list (string * nat),
    exec
      (for_each
         (fun label =>
            match label_key label with
            | Some name => count_label (List.length s + List.length t) name
            | None => ret tt
            end) ls)
      s (t ++ [box o]) tt
      (t ++ [box (fold_left
                    (fun o l => match label_key l with Some n => bump n o | None => o end)
                    ls o)]).
Proof.
  induction ls as [|lb ls IH]; intros o; cbn [for_each fold_left].
  - apply exec_ret.
  - eapply exec_bind; [|apply IH].
    destruct (label_key lb) as [name|].
    + unfold count_label.
      eapply exec_bind; [apply exec_read; apply holds_last | apply exec_write_last].
    + apply exec_ret.
Qed.

Lemma count_issues_exec (s t : store) (l : list (option GitHubIssue)) :
  forall o : list (string * nat),
    exec
      (for_each
         (fun issue : option GitHubIssue =>
            match issue with
            | Some x =>
                match labels x with
                | Some ls =>
                    for_each
                      (fun label =>
                         match label_key label with
                         | Some name => count_label (List.length s + List.length t) name
                         | None => ret tt
                         end) ls
                | None => ret tt
                end
            | None => ret tt
            end) l)
      s (t ++ [box o]) tt
      (t ++ [box (fold_left count_labels_of_issue l o)]).
Proof.
  induction l as [|i l IH]; intros o; cbn [for_each fold_left].
  - apply exec_ret.
  - eapply exec_bind; [|apply IH].
    destruct i as [x|]; cbn [count_labels_of_issue]; [|apply exec_ret].
    destruct (labels x) as [ls|]; [apply count_labels_exec | apply exec_ret].
Qed.

Lemma getTopLabels_exec (c : ComponentRef) (a : RepoAnalyticsRef) (s t : store)
    (iss : option (list (option GitHubIssue))) :
  analytics_at c = Some a ->
  view_field s (issues_at a) = Some iss ->
  exists r t',
    exec (getTopLabels c) s t r t'
    /\ holds s t' r
         match iss with
         | Some l =>
             slice_first 5
               (sort Store.by_count_desc
                  (List.map (fun kv => {| count_name := fst kv; count := snd kv |})
                     (Object_entries (fold_left count_labels_of_issue l []))))
         | None => []
         end.
Proof.
  intros Ha Hi. unfold getTopLabels. rewrite Ha.
  destruct (view_field_inv _ _ Hi) as [[-> ->] | [i [l [-> [-> Hl]]]]].
  - do 2 eexists. split; [step | found].
  - do 2 eexists. split; [|found].
    eapply exec_bind; [step|].
    eapply exec_bind.
    { unfold Array_forEach. eapply exec_bind; [apply exec_read; found|].
      apply count_issues_exec. }
    steps. step. found.
Qed.


Lemma view_inv (s : store) (a : RepoAnalyticsRef) (data : RepoAnalytics) :
  view s a = Some data ->
  repo data = repo_value a
  /\ view_field s (contributors_at a) = Some (contributors data)
  /\ view_field s (issues_at a) = Some (issues data)
  /\ view_field s (commitActivity_at a) = Some (commitActivity data)
  /\ view_field s (languages_at a) = Some (languages data).
Proof.
  unfold view.
  destruct (view_field s (contributors_at a)) as [cs|]; [|discriminate].
  destruct (view_field s (issues_at a)) as [iss|]; [|discriminate].
  destruct (view_field s (commitActivity_at a)) as [ws|]; [|discriminate].
  destruct (view_field s (languages_at a)) as [ls|]; [|discriminate].
  intros [= <-]. repeat split; reflexivity.
Qed.

Lemma recentCommits_exec (a : RepoAnalyticsRef) (s t : store) (data : RepoAnalytics) :
  view_field s (commitActivity_at a) = Some (commitActivity data) ->
  exists t',
    exec
      match commitActivity_at a with
      | Some weeks =>
          n <- Array_length (A := option CommitActivityWeek) weeks ;;
          if (0 <? n)%nat then
            last4 <- Array_slice_last (A := option CommitActivityWeek) 4 weeks ;;
            numeric <- Array_filter Health.has_numeric_total last4 ;;
            Array_reduce
              (fun sum w =>
                 match w with
                 | Some wk => (sum + num_of (total wk))%f64
                 | None => sum
                 end)
              (of_Z 0) numeric
          else ret (of_Z 0)
      | None => ret (of_Z 0)
      end
      s t (Scorer64.recentCommits_of data) t'.
Proof.
  intros Hw. unfold Scorer64.recentCommits_of.
  destruct (view_field_inv _ _ Hw) as [[-> E] | [w [weeks [-> [E Hl]]]]]; rewrite E.
  - eexists. step.
  - destruct weeks as [|x weeks].
    + eexists. eapply exec_bind; [step; found|]. cbn [List.length Nat.ltb Nat.leb]. step.
    + eexists. eapply exec_bind; [step; found|]. cbn [List.length Nat.ltb Nat.leb].
      steps. step. found.
Qed.

Lemma closedIssues_exec (a : RepoAnalyticsRef) (s t : store) (data : RepoAnalytics) :
  view_field s (issues_at a) = Some (issues data) ->
  exists t',
    exec
      match issues_at a with
      | Some l =>
          closed <- Array_filter Health.is_closed l ;;
          n <- Array_length (A := option GitHubIssue) closed ;;
          ret (of_nat n)
      | None => ret (of_Z 0)
      end
      s t (Health.closedIssues data) t'.
Proof.
  intros Hi. unfold Health.closedIssues.
  destruct (view_field_inv _ _ Hi) as [[-> E] | [i [l [-> [E Hl]]]]]; rewrite E.
  - eexists. step.
  - eexists. steps. step.
Qed.

Lemma contributorCount_exec (a : RepoAnalyticsRef) (s t : store) (data : RepoAnalytics) :
  view_field s (contributors_at a) = Some (contributors data) ->
  exec
    match contributors_at a with
    | Some l => n <- Array_length (A := GitHubContributor) l ;; ret (of_nat n)
    | None => ret (of_Z 0)
    end
    s t (Health.contributorCount data) t.
Proof.
  intros Hc. unfold Health.contributorCount.
  destruct (view_field_inv _ _ Hc) as [[-> E] | [i [l [-> [E Hl]]]]]; rewrite E.
  - step.
  - steps. step.
Qed.

Lemma recommendations_exec (b1 b2 b3 b4 b5 : bool) (s t : store)
    (K : loc -> HealthMetricsRef) :
  exec
    (recommendations <- alloc (@nil string) ;;
     (if b1 then Array_push recommendations Health.rec_activity else ret tt) ;;;
     (if b2 then Array_push recommendations Health.rec_maintenance else ret tt) ;;;
     (if b3 then Array_push recommendations Health.rec_community else ret tt) ;;;
     (if b4 then Array_push recommendations Health.rec_documentation else ret tt) ;;;
     (if b5 then Array_push recommendations Health.rec_stability else ret tt) ;;;
     ret (K recommendations))
    s t (K (List.length s + List.length t))
    (t ++ [box
             (let recs := [] in
              let recs := if b1 then Health.push recs Health.rec_activity else recs in
              let recs := if b2 then Health.push recs Health.rec_maintenance else recs in
              let recs := if b3 then Health.push recs Health.rec_community else recs in
              let recs :=
                if b4 then Health.push recs Health.rec_documentation else recs in
              let recs := if b5 then Health.push recs Health.rec_stability else recs in
              recs)]).
Proof.
  eapply exec_bind; [apply exec_alloc|].
  destruct b1, b2, b3, b4, b5; cbv zeta; unfold Health.push;
    repeat (eapply exec_bind; [first [apply exec_push | apply exec_ret]|]);
    apply exec_ret.
Qed.

Lemma calculateHealthScore_exec (h : Host) (a : RepoAnalyticsRef) (s t : store)
    (data : RepoAnalytics) :
  view s a = Some data ->
  exists x t',
    exec (calculateHealthScore h a) s t x t'
    /\ content (s ++ t') (RHealth x)
       = Some (Report (Scorer64.calculateHealthScore (Date_parse h) (Date_now h) data)).
Proof.
  intros Hv. destruct (view_inv _ _ Hv) as [Hr [Hc [Hi [Hw _]]]].
  destruct (@recentCommits_exec a s t data Hw) as [t1 H1].
  destruct (@closedIssues_exec a s t1 data Hi) as [t2 H2].
  pose proof (@contributorCount_exec a s t2 data Hc) as H3.
  do 2 eexists. split.
  - unfold calculateHealthScore.
    eapply exec_bind; [exact H1|]. cbv zeta.
    eapply exec_bind; [exact H2|].
    eapply exec_bind; [exact H3|].
    apply recommendations_exec.
  - cbn [content recommendations_at]. 
    pose proof (@holds_last string _ s t2) as Hl. unfold holds in Hl. rewrite Hl.
    cbn [option_map]. rewrite <- Hr. reflexivity.
Qed.


Lemma view_field_more {A : Type} `{Stored A} (s t : store) (r : option loc)
    (v : option (list A)) :
  view_field s r = Some v -> view_field (s ++ t) r = Some v.
Proof.
  intros Hv. destruct (view_field_inv _ _ Hv) as [[-> ->] | [a [l [-> [-> Hl]]]]].
  - reflexivity.
  - unfold view_field. rewrite (@lookup_old _ _ s t a l Hl). reflexivity.
Qed.

(** Objects added to the store leave the snapshot as it was. *)
Lemma view_more (s t : store) (a : RepoAnalyticsRef) (data : RepoAnalytics) :
  view s a = Some data -> view (s ++ t) a = Some data.
Proof.
  unfold view.
  destruct (view_field s (contributors_at a)) as [cs|] eqn:Hc; [|discriminate].
  destruct (view_field s (issues_at a)) as [iss|] eqn:Hi; [|discriminate].
  destruct (view_field s (commitActivity_at a)) as [ws|] eqn:Hw; [|discriminate].
  destruct (view_field s (languages_at a)) as [ls|] eqn:Hl; [|discriminate].
  rewrite (@view_field_more _ _ s t _ _ Hc), (@view_field_more _ _ s t _ _ Hi),
    (@view_field_more _ _ s t _ _ Hw), (@view_field_more _ _ s t _ _ Hl).
  auto.
Qed.

(** Every call returns; it adds objects to the store and changes none
    that was there; the contents of what it returns are a function of the
    host and of the contents of the snapshot. *)
Lemma perform_exec (h : Host) (c : ComponentRef) (a : RepoAnalyticsRef) (k : call)
    (s t : store) (data : RepoAnalytics) :
  analytics_at c = Some a -> view s a = Some data ->
  exists r t',
    exec (perform h c a k) s t r t'
    /\ content (s ++ t') r = Some (answer_of h k data).
Proof.
  intros Ha Hv. destruct (view_inv _ _ Hv) as [Hr [Hc [Hi [Hw Hl]]]].
  destruct k; unfold perform, answer_of.
  - destruct (@prepareLanguageData_exec c a s t data Ha Hl) as [r [t' [He Hh]]].
    exists (RLanguages r), t'. split.
    + eapply exec_bind; [exact He | apply exec_ret].
    + unfold content. unfold holds in Hh. rewrite Hh. reflexivity.
  - destruct (@prepareCommitActivityData_exec h c a s t _ Ha Hw) as [r [t' [He Hh]]].
    exists (RCommits r), t'. split.
    + eapply exec_bind; [exact He | apply exec_ret].
    + unfold content. unfold holds in Hh. rewrite Hh. reflexivity.
  - destruct (@getIssueStats_exec c a s t data Ha Hi) as [t' He].
    exists (RStats (Metrics.getIssueStats (component_of data))), t'. split.
    + eapply exec_bind; [exact He | apply exec_ret].
    + reflexivity.
  - destruct (@getTopLabels_exec c a s t _ Ha Hi) as [r [t' [He Hh]]].
    exists (RLabels r), t'. split.
    + eapply exec_bind; [exact He | apply exec_ret].
    + unfold content. unfold holds in Hh. rewrite Hh. reflexivity.
  - destruct (@calculateHealthScore_exec h a s t data Hv) as [x [t' [He Hh]]].
    exists (RHealth x), t'. split.
    + eapply exec_bind; [exact He | apply exec_ret].
    + exact Hh.
Qed.

Lemma perform_all_exec (c : ComponentRef) (a : RepoAnalyticsRef)
    (calls : list (Host * call)) (s : store) (data : RepoAnalytics) :
  analytics_at c = Some a -> view s a = Some data ->
  forall t, exists t', exec (perform_all c a calls) s t tt t'.
Proof.
  intros Ha Hv. induction calls as [|[h k] calls IH]; intros t; cbn [perform_all].
  - exists t. apply exec_ret.
  - destruct (@perform_exec h c a k s t data Ha Hv) as [r [t1 [He _]]].
    destruct (IH t1) as [t' He'].
    exists t'. eapply exec_bind; [exact He | exact He'].
Qed.

Lemma content_more (s t : store) (r : returned) (out : answer) :
  content s r = Some out -> content (s ++ t) r = Some out.
Proof.
  destruct r as [a|a|x|a|x]; cbn [content]; try (intros E; exact E).
  - destruct (lookup s a) as [l|] eqn:E; [|discriminate].
    rewrite (@lookup_old _ _ s t a l E). auto.
  - destruct (lookup s a) as [l|] eqn:E; [|discriminate].
    rewrite (@lookup_old _ _ s t a l E). auto.
  - destruct (lookup s a) as [l|] eqn:E; [|discriminate].
    rewrite (@lookup_old _ _ s t a l E). auto.
  - destruct (lookup s (recommendations_at x)) as [l|] eqn:E; [|discriminate].
    rewrite (@lookup_old _ _ s t _ l E). auto.
Qed.

Lemma mapi_from_ext {A B : Type} (f g : A -> nat -> B) (l : list A) :
  (forall x i, f x i = g x i) -> forall i, mapi_from i f l = mapi_from i g l.
Proof.
  intros E. induction l as [|x l IH]; intros i; simpl; [reflexivity|].
  rewrite E, IH. reflexivity.
Qed.

(** The answer depends on the host through what the call reads of it. *)
Lemma answer_of_same (k : call) (data : RepoAnalytics) (h1 h2 : Host) :
  same_host_inputs k data h1 h2 -> answer_of h1 k data = answer_of h2 k data.
Proof.
  destruct k; cbn [same_host_inputs answer_of]; intros H; try reflexivity.
  - unfold Metrics.prepareCommitActivityData. cbn [component_of analytics].
    destruct (commitActivity data) as [weeks|]; [|reflexivity].
    unfold commit_window, mapi.
    rewrite (@mapi_from_ext _ _ (commit_entry (Date_toLocaleDateString h1))
               (commit_entry (Date_toLocaleDateString h2))).
    + reflexivity.
    + intros w i. unfold commit_entry. rewrite H. reflexivity.
  - destruct H as [E1 [E2 E3]].
    unfold Scorer64.calculateHealthScore, Scorer64.overallScore,
      Scorer64.recommendations_of, Scorer64.stabilityScore, Scorer64.ageScore,
      Scorer64.freshnessScore, Scorer64.ageInDays, Scorer64.daysSinceUpdate,
      Health.getTime.
    rewrite E1, E2, E3. reflexivity.
Qed.

End StoreFacts.

(** ** Reruns *)

Module RerunFacts.

Import Store StoreFacts Metrics Health.

(** C8, as amended: in any store that holds the snapshot, a call of one
    of the five functions returns; a later call of the same function,
    after any other calls of the five under any hosts, returns an object
    with the same contents, provided the two hosts agree on what the call
    reads of them: the clock reading and the two parsed timestamps for
    the health scorer, the rendering of dates for the commit window,
    nothing for the other three.  Every call only adds objects to the
    store: the snapshot and the object returned first are as they were. *)
Theorem rerun_same_snapshot (c : ComponentRef) (a : RepoAnalyticsRef)
    (data : RepoAnalytics) (s : store) (before : list (Host * call))
    (h1 h2 : Host) (k : call) :
  analytics_at c = Some a -> view s a = Some data ->
  same_host_inputs k data h1 h2 ->
  exists (t1 t2 t3 : store) (r r' : returned) (out : answer),
    perform h1 c a k s = Some (r, s ++ t1)
    /\ perform_all c a before (s ++ t1) = Some (tt, (s ++ t1) ++ t2)
    /\ perform h2 c a k ((s ++ t1) ++ t2) = Some (r', ((s ++ t1) ++ t2) ++ t3)
    /\ content (s ++ t1) r = Some out
    /\ content (((s ++ t1) ++ t2) ++ t3) r = Some out
    /\ content (((s ++ t1) ++ t2) ++ t3) r' = Some out
    /\ view (((s ++ t1) ++ t2) ++ t3) a = Some data.
Proof.
  intros Ha Hv Hh.
  destruct (@perform_exec h1 c a k s [] data Ha Hv) as [r [t1 [E1 C1]]].
  pose proof (@view_more s t1 a data Hv) as Hv1.
  destruct (@perform_all_exec c a before (s ++ t1) data Ha Hv1 []) as [t2 E2].
  pose proof (@view_more (s ++ t1) t2 a data Hv1) as Hv2.
  destruct (@perform_exec h2 c a k ((s ++ t1) ++ t2) [] data Ha Hv2)
    as [r' [t3 [E3 C3]]].
  exists t1, t2, t3, r, r', (answer_of h1 k data).
  split; [apply exec_start; exact E1|].
  split; [apply exec_start; exact E2|].
  split; [apply exec_start; exact E3|].
  split; [exact C1|].
  split; [apply content_more, content_more; exact C1|].
  split; [rewrite (@answer_of_same k data h1 h2 Hh); exact C3|].
  apply view_more. exact Hv2.
Qed.

(** Scenario A: the report computed before and after two other calls,
    the second time by a host in another time zone at the same clock
    reading. *)
Lemma rerun_same_snapshot_witness :
  exists (t1 t2 t3 : store) (r r' : returned),
    perform Sample.host Sample.component_ref Sample.scenario_A_ref
      CalculateHealthScore Sample.scenario_A_store
    = Some (r, Sample.scenario_A_store ++ t1)
    /\ perform Sample.host_west Sample.component_ref Sample.scenario_A_ref
         CalculateHealthScore ((Sample.scenario_A_store ++ t1) ++ t2)
       = Some (r', ((Sample.scenario_A_store ++ t1) ++ t2) ++ t3)
    /\ content (((Sample.scenario_A_store ++ t1) ++ t2) ++ t3) r
       = content (((Sample.scenario_A_store ++ t1) ++ t2) ++ t3) r'.
Proof.
  destruct (@rerun_same_snapshot Sample.component_ref Sample.scenario_A_ref
              Sample.scenario_A Sample.scenario_A_store
              [(Sample.host_west, GetTopLabels); (Sample.host_later, PrepareLanguageData)]
              Sample.host Sample.host_west CalculateHealthScore)
    as [t1 [t2 [t3 [r [r' [out [H1 [_ [H3 [_ [H5 [H6 _]]]]]]]]]]]].
  - reflexivity.
  - reflexivity.
  - repeat split; reflexivity.
  - exists t1, t2, t3, r, r'. split; [exact H1|]. split; [exact H3|].
    rewrite H5, H6. reflexivity.
Defined.

(** The runs on Scenario A: the language rows are those of the functional
    model; the dates of the commit window differ between two time zones;
    the overall score differs between two clock readings. *)
Example runs_on_scenario_A :
  let run h k :=
    outcome (perform h Sample.component_ref Sample.scenario_A_ref k)
      Sample.scenario_A_store in
  run Sample.host PrepareLanguageData
  = Some (LanguageRows
            (Languages64.prepareLanguageData (Sample.component Sample.scenario_A)))
  /\ dates_of (run Sample.host PrepareCommitActivityData)
     = ["1/8/1970"; "1/15/1970"; "1/22/1970"; "1/29/1970"]%string
  /\ dates_of (run Sample.host_west PrepareCommitActivityData)
     = ["1/7/1970"; "1/14/1970"; "1/21/1970"; "1/28/1970"]%string
  /\ overall_of (run Sample.host CalculateHealthScore) = of_Z 95
  /\ overall_of (run Sample.host_later CalculateHealthScore) = of_Z 91.
Proof. repeat split; vm_compute; reflexivity. Qed.

(** C8, as stated, fails for the health scorer: the same snapshot scored
    at two clock readings thirty days apart gets stability 99 and then 74,
    and overall score 95 and then 91. *)
Lemma health_score_depends_on_clock :
  let h1 := calculateHealthScore Host.Date_parse Sample.now Sample.scenario_A in
  let h2 :=
    calculateHealthScore Host.Date_parse Sample.thirty_days_later Sample.scenario_A in
  stability (metrics h1) = of_Z 99
  /\ stability (metrics h2) = of_Z 74
  /\ score h1 = of_Z 95
  /\ score h2 = of_Z 91
  /\ h1 <> h2.
Proof.
  repeat split; try (vm_compute; reflexivity).
  intros H. apply (f_equal score) in H. vm_compute in H. discriminate H.
Qed.

End RerunFacts.

(** ** Aggregation failures *)

Module BackendFacts.

Import Backend.

Local Open Scope string_scope.

Section Propagation.

Variable axios_repo : string -> settled GitHubRepo.
Variable axios_contributors : string -> settled (list GitHubContributor).
Variable axios_commits : string -> settled (list GitHubCommit).
Variable axios_issues : string -> settled (list (option GitHubIssue)).
Variable axios_activity : string -> settled (option (list (option CommitActivityWeek))).
Variable axios_languages : string -> settled (option (list (string * Q))).
Variable issues_order : list nat.
Variable analytics_order : list nat.
Variable development : bool.
Variable timestamp_now : string.

Local Abbreviation full_analytics :=
  (getFullAnalytics axios_repo axios_contributors axios_commits axios_issues
     axios_activity axios_languages issues_order analytics_order).

(** A rejected promise among those awaited makes [Promise.all] reject. *)
Lemma first_rejection_some (order : list nat) (reasons : list (option thrown)) :
  Exists (fun r => r <> None) reasons ->
  exists e, first_rejection order reasons = Some e /\ In (Some e) reasons.
Proof.
  intros H. unfold first_rejection.
  set (by_arrival := fold_right _ None order).
  assert (Harr : forall e, by_arrival = Some e -> In (Some e) reasons).
  { unfold by_arrival. clear. induction order as [|i order IH]; simpl; [discriminate|].
    intros e. destruct (nth i reasons None) as [e'|] eqn:E.
    - intros [= <-]. rewrite <- E.
      destruct (Nat.lt_ge_cases i (List.length reasons)) as [Hlt|Hge].
      + apply nth_In. exact Hlt.
      + rewrite nth_overflow in E by exact Hge. discriminate.
    - apply IH. }
  destruct by_arrival as [e|].
  - exists e. split; [reflexivity | apply Harr; reflexivity].
  - clear Harr. induction H as [r l Hr | r l _ IH]; simpl.
    + destruct r as [e|]; [|congruence]. exists e. split; [reflexivity | left; reflexivity].
    + destruct r as [e|].
      * exists e. split; [reflexivity | left; reflexivity].
      * destruct IH as [e [He Hin]]. exists e. split; [exact He | right; exact Hin].
Qed.

(** All or nothing: the aggregation yields a snapshot exactly when each
    of the six calls yields its part, and the snapshot is made of those
    six parts; otherwise it throws a plain [Error]. *)
Lemma getFullAnalytics_all_or_nothing (o n : string) (c0 : Cache) :
  let '(r1, c1) := getRepoInfo axios_repo o n c0 in
  let '(r2, c2) := getContributors axios_contributors o n c1 in
  let '(r3, c3) := getCommits axios_commits o n c2 in
  let '(r4, c4) := getIssues axios_issues issues_order o n c3 in
  let '(r5, c5) := getCommitActivity axios_activity o n c4 in
  let '(r6, c6) := getLanguages axios_languages o n c5 in
  match fst (full_analytics o n c0) with
  | inr a =>
      r1 = inr (repo a)
      /\ (exists cs, r2 = inr cs /\ contributors a = Some cs)
      /\ r3 = inr (recentCommits a)
      /\ (exists i, r4 = inr i /\ issues a = Some i)
      /\ r5 = inr (commitActivity a)
      /\ r6 = inr (languages a)
  | inl e =>
      (exists m, e = Error m)
      /\ Exists (fun r => r <> None)
           [reason r1; reason r2; reason r3; reason r4; reason r5; reason r6]
  end.
Proof.
  unfold getFullAnalytics.
  destruct (getRepoInfo axios_repo o n c0) as [r1 c1].
  destruct (getContributors axios_contributors o n c1) as [r2 c2].
  destruct (getCommits axios_commits o n c2) as [r3 c3].
  destruct (getIssues axios_issues issues_order o n c3) as [r4 c4].
  destruct (getCommitActivity axios_activity o n c4) as [r5 c5].
  destruct (getLanguages axios_languages o n c5) as [r6 c6].
  destruct r1 as [e1|v1], r2 as [e2|v2], r3 as [e3|v3], r4 as [e4|v4],
           r5 as [e5|v5], r6 as [e6|v6];
    try (simpl; repeat split; eauto; fail);
    match goal with
    | |- context [first_rejection ?o ?l] =>
        let H := fresh in
        assert (H : Exists (fun r : option thrown => r <> None) l)
          by (simpl; repeat (first [ apply Exists_cons_hd; discriminate
                                   | apply Exists_cons_tl ]));
        destruct (first_rejection_some o H) as [e [-> _]];
        simpl; split; [eexists; reflexivity | exact H]
    end.
Qed.

(** Whatever made the aggregation fail, the error handler answers with
    status 500 and the generic message. *)
Lemma aggregation_failure_is_generic (o n : string) (c0 : Cache) (e : thrown) :
  fst (full_analytics o n c0) = inl e ->
  exists m,
    e = Error m
    /\ errorHandler development e
       = Failure 500 "Internal server error" []
           (if development then Some m else None).
Proof.
  intros H.
  pose proof (getFullAnalytics_all_or_nothing o n c0) as Hall.
  destruct (getRepoInfo axios_repo o n c0) as [r1 c1].
  destruct (getContributors axios_contributors o n c1) as [r2 c2].
  destruct (getCommits axios_commits o n c2) as [r3 c3].
  destruct (getIssues axios_issues issues_order o n c3) as [r4 c4].
  destruct (getCommitActivity axios_activity o n c4) as [r5 c5].
  destruct (getLanguages axios_languages o n c5) as [r6 c6].
  rewrite H in Hall. destruct Hall as [[m ->] _].
  exists m. split; reflexivity.
Qed.

End Propagation.

(** C9: a repository that does not exist (upstream status 404), an
    exhausted rate limit (403) and a refused connection all surface as the
    same response, status 500 "Internal server error"; no snapshot is
    returned.  The handler's 404 and 403 branches are not reached because
    the service rethrows plain errors that carry no response. *)
Theorem not_found_surfaces_as_internal_error :
  Sample.analyze (Some Sample.not_found)
  = Failure 500 "Internal server error" [] None
  /\ Sample.analyze (Some Sample.rate_limited)
     = Failure 500 "Internal server error" [] None
  /\ Sample.analyze (Some Sample.connection_refused)
     = Failure 500 "Internal server error" [] None
  /\ errorHandler false Sample.not_found
     = Failure 404 "Repository not found" [] None
  /\ errorHandler false Sample.rate_limited
     = Failure 403 "GitHub API rate limit exceeded" [] None
  /\ (exists a t, Sample.analyze None = Success a t).
Proof.
  repeat split; try (vm_compute; reflexivity).
  eexists. eexists. vm_compute. reflexivity.
Qed.

End BackendFacts.

(** ** URL validation *)

Module ValidationFacts.

Import Validation Spec.

Local Open Scope string_scope.

Lemma plus_class_sound (g : bool) (e : ascii) (k : Continuation) (z : MatchState)
    (caps : nat -> option string) :
  forall (s : string) (i : nat),
    plus_class g e s i caps k = Some z ->
    exists a t,
      a <> EmptyString /\ not_in e a /\ s = a ++ t
      /\ k (mkState (i + String.length a) t caps) = Some z.
Proof.
  induction s as [|c s IH]; intros i H; simpl in H; [discriminate|].
  destruct (Ascii.eqb c e) eqn:Ec; [discriminate|].
  assert (Hone : k (mkState (S i) s caps) = Some z ->
                 exists a t,
                   a <> EmptyString /\ not_in e a /\ String c s = a ++ t
                   /\ k (mkState (i + String.length a) t caps) = Some z).
  { intros Hk. exists (String c EmptyString), s. simpl.
    rewrite Nat.add_1_r. repeat split; auto. discriminate. }
  assert (Hmore : plus_class g e s (S i) caps k = Some z ->
                  exists a t,
                    a <> EmptyString /\ not_in e a /\ String c s = a ++ t
                    /\ k (mkState (i + String.length a) t caps) = Some z).
  { intros Hp. destruct (IH (S i) Hp) as [a [t [Ha [Hn [Hs Hk]]]]].
    exists (String c a), t. simpl. rewrite Nat.add_succ_r.
    repeat split; auto; [discriminate | congruence]. }
  destruct g.
  - destruct (plus_class true e s (S i) caps k) as [z'|] eqn:Ep; auto.
  - destruct (k (mkState (S i) s caps)) as [z'|] eqn:Ek; auto.
Qed.

Lemma plus_class_complete (g : bool) (e : ascii) (k : Continuation)
    (caps : nat -> option string) (t : string) :
  forall (a : string) (i : nat),
    a <> EmptyString -> not_in e a ->
    k (mkState (i + String.length a) t caps) <> None ->
    plus_class g e (a ++ t) i caps k <> None.
Proof.
  induction a as [|c a IH]; intros i Ha Hn Hk; [congruence|].
  destruct Hn as [Hc Hn]. simpl. rewrite Hc.
  destruct a as [|c' a'].
  - simpl in *. rewrite Nat.add_1_r in Hk.
    destruct g.
    + destruct (plus_class true e t (S i) caps k); [discriminate | exact Hk].
    + destruct (k (mkState (S i) t caps)); [discriminate | congruence].
  - assert (Hrec : plus_class g e (String c' a' ++ t) (S i) caps k <> None).
    { apply IH; [discriminate | exact Hn |].
      simpl in *. rewrite Nat.add_succ_r in Hk. exact Hk. }
    destruct g.
    + destruct (plus_class true e (String c' a' ++ t) (S i) caps k);
        [discriminate | congruence].
    + destruct (k (mkState (S i) (String c' a' ++ t) caps)); [discriminate | exact Hrec].
Qed.

Lemma state_eta (x : MatchState) : x = mkState (endIndex x) (rest x) (captures x).
Proof. destruct x; reflexivity. Qed.

(** Soundness of the matcher: a successful match goes through a run of
    the pattern, followed by the continuation. *)
Lemma matcher_sound (r : regex) :
  forall (x : MatchState) (k : Continuation) (z : MatchState),
    matcher r x k = Some z -> exists y, run r x y /\ k y = Some z.
Proof.
  induction r as [|c|g e|r1 IH1 r2 IH2|r1 IH1 r2 IH2|r1 IH1|n r1 IH1| |];
    intros x k z H; simpl in H.
  - exists x. split; [constructor | exact H].
  - destruct (rest x) as [|a t] eqn:Er; [discriminate|].
    destruct (Ascii.eqb a c) eqn:Ea; [|discriminate].
    apply Ascii.eqb_eq in Ea. subst a.
    eexists. split; [|exact H].
    rewrite (state_eta x), Er. constructor.
  - apply plus_class_sound in H. destruct H as [a [t [Ha [Hn [Hs Hk]]]]].
    eexists. split; [|exact Hk].
    rewrite (state_eta x), Hs. constructor; assumption.
  - apply IH1 in H. destruct H as [y [Hy H]].
    apply IH2 in H. destruct H as [y' [Hy' H]].
    exists y'. split; [econstructor; eassumption | exact H].
  - destruct (matcher r1 x k) as [z'|] eqn:E1.
    + injection H as <-. apply IH1 in E1. destruct E1 as [y [Hy Hk]].
      exists y. split; [apply run_alt_l; exact Hy | exact Hk].
    + apply IH2 in H. destruct H as [y [Hy Hk]].
      exists y. split; [apply run_alt_r; exact Hy | exact Hk].
  - match type of H with
    | match ?m with _ => _ end = _ => destruct m as [z'|] eqn:E1
    end.
    + injection H as <-. apply IH1 in E1. destruct E1 as [y [Hy Hk]].
      destruct (Nat.eqb (endIndex y) (endIndex x)) eqn:Ee; [discriminate|].
      apply Nat.eqb_neq in Ee.
      exists y. split; [apply run_opt_take; assumption | exact Hk].
    + exists x. split; [apply run_opt_skip | exact H].
  - apply IH1 in H. destruct H as [y [Hy Hk]].
    eexists. split; [apply run_group; exact Hy | exact Hk].
  - destruct (Nat.eqb (endIndex x) 0) eqn:E; [|discriminate].
    apply Nat.eqb_eq in E. exists x. split; [constructor; exact E | exact H].
  - destruct (rest x) eqn:E; [|discriminate].
    exists x. split; [constructor; exact E | exact H].
Qed.

(** Completeness: if some run of the pattern leads to a state that the
    continuation accepts, the matcher succeeds. *)
Lemma matcher_complete (r : regex) (x y : MatchState) :
  run r x y ->
  forall k : Continuation, k y <> None -> matcher r x k <> None.
Proof.
  induction 1 as [x|c i t caps|g e i a t caps Ha Hn|r1 r2 x y z _ IH1 _ IH2
                  |r1 r2 x y _ IH|r1 r2 x y _ IH|r x|r x y _ IH Hne
                  |n r x y _ IH|x Hx|x Hx];
    intros k Hk; simpl.
  - exact Hk.
  - rewrite Ascii.eqb_refl. exact Hk.
  - apply plus_class_complete; assumption.
  - apply IH1. apply IH2. exact Hk.
  - specialize (IH k Hk). destruct (matcher r1 x k); [discriminate | congruence].
  - destruct (matcher r1 x k); [discriminate | apply IH; exact Hk].
  - match goal with
    | |- match ?m with _ => _ end <> None => destruct m; [discriminate | exact Hk]
    end.
  - match goal with
    | |- match ?m with _ => _ end <> None => destruct m eqn:E; [discriminate|]
    end.
    exfalso. revert E. apply IH.
    apply Nat.eqb_neq in Hne. rewrite Hne. exact Hk.
  - apply IH. exact Hk.
  - rewrite Hx. exact Hk.
  - rewrite Hx. exact Hk.
Qed.

Lemma run_seq_inv (r1 r2 : regex) (x z : MatchState) :
  run (Seq r1 r2) x z -> exists y, run r1 x y /\ run r2 y z.
Proof. intros H. inversion H; subst. eauto. Qed.

Lemma run_bol_inv (x y : MatchState) : run Bol x y -> y = x /\ endIndex x = 0%nat.
Proof. intros H. inversion H; subst. auto. Qed.

Lemma run_eol_inv (x y : MatchState) : run Eol x y -> y = x /\ rest x = EmptyString.
Proof. intros H. inversion H; subst. auto. Qed.

Lemma run_eps_inv (x y : MatchState) : run Eps x y -> y = x.
Proof. intros H. inversion H; subst. auto. Qed.

Lemma run_chr_inv (c : ascii) (x y : MatchState) :
  run (Chr c) x y -> consumes (String c EmptyString) x y.
Proof.
  intros H. inversion H; subst. unfold consumes. simpl.
  rewrite Nat.add_1_r. auto.
Qed.

Lemma run_plus_inv (g : bool) (e : ascii) (x y : MatchState) :
  run (Plus g e) x y ->
  exists a, a <> EmptyString /\ not_in e a /\ consumes a x y.
Proof.
  intros H. inversion H; subst. exists a. unfold consumes. simpl. auto.
Qed.

Lemma run_group_inv (n : nat) (r : regex) (x y' : MatchState) :
  run (Group n r) x y' ->
  exists y,
    run r x y
    /\ y' = set_capture n (substring 0 (endIndex y - endIndex x) (rest x)) y.
Proof. intros H. inversion H; subst. eauto. Qed.

Lemma run_opt_inv (r : regex) (x y : MatchState) :
  run (Opt r) x y -> y = x \/ run r x y.
Proof. intros H. inversion H; subst; auto. Qed.

Lemma run_alt_inv (r1 r2 : regex) (x y : MatchState) :
  run (Alt r1 r2) x y -> run r1 x y \/ run r2 x y.
Proof. intros H. inversion H; subst; auto. Qed.

Lemma append_assoc (a b c : string) : (a ++ b) ++ c = a ++ (b ++ c).
Proof. induction a as [|x a IH]; simpl; [reflexivity | rewrite IH; reflexivity]. Qed.

Lemma append_length (a b : string) :
  String.length (a ++ b) = (String.length a + String.length b)%nat.
Proof. induction a as [|x a IH]; simpl; [reflexivity | rewrite IH; reflexivity]. Qed.

Lemma consumes_trans (a b : string) (x y z : MatchState) :
  consumes a x y -> consumes b y z -> consumes (a ++ b) x z.
Proof.
  intros [H1 [H2 H3]] [H4 [H5 H6]]. unfold consumes.
  rewrite H1, H4, H5, H2, H6, H3, append_assoc, append_length.
  repeat split; auto. lia.
Qed.

Lemma run_Lit_inv (s : string) :
  forall x y, run (Lit s) x y -> consumes s x y.
Proof.
  induction s as [|c s IH]; intros x y H; simpl in H.
  - apply run_eps_inv in H. subst y. unfold consumes. simpl.
    rewrite Nat.add_0_r. auto.
  - apply run_seq_inv in H. destruct H as [m [H1 H2]].
    apply run_chr_inv in H1. apply IH in H2.
    apply (consumes_trans H1 H2).
Qed.

Lemma run_Lit_intro (s t : string) (caps : nat -> option string) :
  forall i,
    run (Lit s) (mkState i (s ++ t) caps) (mkState (i + String.length s) t caps).
Proof.
  induction s as [|c s IH]; intros i; simpl.
  - rewrite Nat.add_0_r. constructor.
  - eapply run_seq; [constructor|].
    rewrite Nat.add_succ_r. apply (IH (S i)).
Qed.

Lemma substring_prefix (a t : string) : substring 0 (String.length a) (a ++ t) = a.
Proof.
  induction a as [|c a IH]; simpl.
  - destruct t; reflexivity.
  - rewrite IH. reflexivity.
Qed.

Lemma captured_text (a : string) (x y : MatchState) :
  consumes a x y -> substring 0 (endIndex y - endIndex x) (rest x) = a.
Proof.
  intros [H1 [H2 _]]. rewrite H1, H2.
  replace (endIndex x + String.length a - endIndex x)%nat with (String.length a) by lia.
  apply substring_prefix.
Qed.

(** A pattern that starts with [^] can only match at index 0. *)
Lemma exec_from_bol_later (r : regex) :
  forall (s : string) (i : nat), exec_from (Seq Bol r) (S i) s = None.
Proof.
  induction s as [|c s IH]; intros i; simpl; [reflexivity | apply IH].
Qed.

Lemma string_match_bol (r : regex) (s : string) :
  string_match s (Seq Bol r)
  = matcher (Seq Bol r) (mkState 0 s (fun _ => None)) Some.
Proof.
  unfold string_match. destruct s as [|c s]; simpl.
  - destruct (matcher r _ Some); reflexivity.
  - destruct (matcher r _ Some); [reflexivity | apply exec_from_bol_later].
Qed.

Lemma append_nil_r (a : string) : a ++ "" = a.
Proof. induction a as [|c a IH]; simpl; [reflexivity | rewrite IH; reflexivity]. Qed.

Lemma run_group_plus_inv (n : nat) (g : bool) (e : ascii) (x y' : MatchState) :
  run (Group n (Plus g e)) x y' ->
  exists a y,
    a <> EmptyString /\ not_in e a /\ consumes a x y /\ y' = set_capture n a y.
Proof.
  intros H. apply run_group_inv in H. destruct H as [y [Hp ->]].
  apply run_plus_inv in Hp. destruct Hp as [a [Ha [Hn Hc]]].
  exists a, y. rewrite (captured_text Hc). auto.
Qed.

Lemma run_suffix_inv (x y : MatchState) :
  run (Opt (Alt (Chr slash) (Lit ".git"))) x y ->
  exists sfx,
    consumes sfx x y /\ (sfx = "" \/ sfx = "/" \/ sfx = ".git").
Proof.
  intros H. apply run_opt_inv in H. destruct H as [-> | H].
  - exists "". split; [|auto]. unfold consumes. simpl.
    rewrite Nat.add_0_r. auto.
  - apply run_alt_inv in H. destruct H as [H | H].
    + apply run_chr_inv in H. exists "/". auto.
    + apply run_Lit_inv in H. exists ".git". auto.
Qed.

(** Every run of the pattern from the start of [url] splits [url] into
    the prefix, an owner, a slash, a repository name and a suffix, and
    captures the owner and the repository name. *)
Lemma run_repo_url (url : string) (m : MatchState) :
  run regex_repo_url (mkState 0 url (fun _ => None)) m ->
  exists o r sfx,
    repo_url_parts url o r sfx /\ captures m 1 = Some o /\ captures m 2 = Some r.
Proof.
  unfold regex_repo_url. intros H.
  apply run_seq_inv in H. destruct H as [x1 [Hbol H]].
  apply run_bol_inv in Hbol. destruct Hbol as [-> _].
  apply run_seq_inv in H. destruct H as [x2 [Hlit H]].
  apply run_Lit_inv in Hlit. destruct Hlit as [Hl1 [_ Hl3]].
  apply run_seq_inv in H. destruct H as [x3 [Hg1 H]].
  apply run_group_plus_inv in Hg1.
  destruct Hg1 as [o [y1 [Ho [Hno [[Ho1 [_ Ho3]] ->]]]]].
  apply run_seq_inv in H. destruct H as [x4 [Hsl H]].
  apply run_chr_inv in Hsl. destruct Hsl as [Hs1 [_ Hs3]].
  apply run_seq_inv in H. destruct H as [x5 [Hg2 H]].
  apply run_group_plus_inv in Hg2.
  destruct Hg2 as [r [y2 [Hr [Hnr [[Hr1 [_ Hr3]] ->]]]]].
  apply run_seq_inv in H. destruct H as [x6 [Hopt Heol]].
  apply run_eol_inv in Heol. destruct Heol as [-> Hend].
  apply run_suffix_inv in Hopt. destruct Hopt as [sfx [[Hx1 [_ Hx3]] Hsfx]].
  simpl in *.
  exists o, r, sfx. split; [|split].
  - unfold repo_url_parts. repeat split; auto.
    rewrite Hl1, Ho1, Hs1, Hr1, Hx1, Hend, append_nil_r. reflexivity.
  - rewrite Hx3. simpl. rewrite Hr3, Hs3. reflexivity.
  - rewrite Hx3. reflexivity.
Qed.

(** Conversely every such split is a run of the pattern. *)
Lemma repo_url_run (url o r sfx : string) :
  repo_url_parts url o r sfx ->
  exists m, run regex_repo_url (mkState 0 url (fun _ => None)) m.
Proof.
  intros [-> [Ho [Hr [Hno [Hnr Hsfx]]]]].
  unfold regex_repo_url.
  destruct Hsfx as [-> | [-> | ->]]; eexists;
    (eapply run_seq; [apply run_bol; reflexivity|]);
    (eapply run_seq; [apply run_Lit_intro|]);
    (eapply run_seq; [apply run_group; apply run_plus; assumption|]);
    unfold set_capture at 1; cbn [endIndex rest captures];
    (eapply run_seq; [apply run_chr|]);
    (eapply run_seq; [apply run_group; apply run_plus; assumption|]);
    unfold set_capture at 1; cbn [endIndex rest captures];
    eapply run_seq.
  - apply run_opt_skip.
  - apply run_eol. reflexivity.
  - apply run_opt_take.
    + apply run_alt_l. apply run_chr.
    + cbn [endIndex]. lia.
  - apply run_eol. reflexivity.
  - apply run_opt_take.
    + apply run_alt_r. apply (run_Lit_intro ".git" "").
    + cbn [endIndex String.length]. lia.
  - apply run_eol. reflexivity.
Qed.

(** C10: [validateRepoUrl] either throws "Invalid GitHub repository URL"
    or returns an owner and a repository name; it returns exactly for the
    strings [https://github.com/<owner>/<repo>] followed by nothing, by
    ["/"] or by [".git"], and the owner and the name it returns are
    non-empty, contain no ["/"], and are such a split of the input. *)
Theorem validateRepoUrl_spec (url : string) :
  (validateRepoUrl url = inl (Backend.Error "Invalid GitHub repository URL")
   \/ exists o r, validateRepoUrl url = inr {| owner := Some o; repo := Some r |})
  /\ ((exists ref, validateRepoUrl url = inr ref) <-> repo_url_form url)
  /\ (forall ref,
        validateRepoUrl url = inr ref ->
        exists o r sfx,
          owner ref = Some o /\ repo ref = Some r /\ repo_url_parts url o r sfx).
Proof.
  unfold validateRepoUrl.
  change regex_repo_url with (Seq Bol
    (Seq (Lit "https://github.com/")
       (Seq (Group 1 (Plus true slash))
          (Seq (Chr slash)
             (Seq (Group 2 (Plus false slash))
                (Seq (Opt (Alt (Chr slash) (Lit ".git"))) Eol)))))) at 1 2 3 4.
  rewrite string_match_bol.
  fold regex_repo_url.
  destruct (matcher regex_repo_url _ Some) as [m|] eqn:E.
  - apply matcher_sound in E. destruct E as [y [Hrun [= ->]]].
    apply run_repo_url in Hrun. destruct Hrun as [o [r [sfx [Hparts [H1 H2]]]]].
    rewrite H1, H2. split; [|split].
    + right. exists o, r. reflexivity.
    + split; [intros _; exists o, r, sfx; exact Hparts | intros _; eexists; reflexivity].
    + intros ref [= <-]. exists o, r, sfx. simpl. auto.
  - split; [left; reflexivity|]. split.
    + split; [intros [ref H]; discriminate H|].
      intros [o [r [sfx Hparts]]]. exfalso.
      destruct (repo_url_run Hparts) as [m Hm].
      revert E. apply (matcher_complete Hm). discriminate.
    + intros ref H. discriminate H.
Qed.

Lemma validateRepoUrl_examples :
  validateRepoUrl "https://github.com/soham-shrinagar/ProductViz"
  = inr {| owner := Some "soham-shrinagar"; repo := Some "ProductViz" |}
  /\ validateRepoUrl "https://github.com/soham-shrinagar/ProductViz.git"
     = inr {| owner := Some "soham-shrinagar"; repo := Some "ProductViz" |}
  /\ validateRepoUrl "https://github.com/soham-shrinagar/ProductViz/"
     = inr {| owner := Some "soham-shrinagar"; repo := Some "ProductViz" |}
  /\ validateRepoUrl "https://github.com/soham-shrinagar/.git"
     = inr {| owner := Some "soham-shrinagar"; repo := Some ".git" |}
  /\ validateRepoUrl "https://github.com/soham-shrinagar/ProductViz/issues"
     = inl (Backend.Error "Invalid GitHub repository URL")
  /\ validateRepoUrl "http://github.com/soham-shrinagar/ProductViz"
     = inl (Backend.Error "Invalid GitHub repository URL").
Proof. repeat split; vm_compute; reflexivity. Qed.

End ValidationFacts.

(** ** Health scorer: grades, weights and advisories *)

Module HealthMore.

Import Health JSFacts HealthFacts.

Local Open Scope string_scope.

(** X1: a creation or last-update timestamp that is not a date makes the
    overall score [NaN]: the report then carries grade F with the colour
    of F, a [NaN] stability sub-score, and no stability advisory. *)
Theorem invalid_date_report
    (Date_parse : string -> option Z) (Date_now : Z) (data : RepoAnalytics) :
  Date_parse (created_at (repo data)) = None
  \/ Date_parse (updated_at (repo data)) = None ->
  let h := calculateHealthScore Date_parse Date_now data in
  score h = NaN
  /\ grade h = "F"
  /\ color h = "#EF4444"
  /\ stability (metrics h) = NaN
  /\ ~ In rec_stability (recommendations h).
Proof.
  intros H h.
  destruct (stabilityScore_invalid_date Date_parse Date_now data H) as [Hs Ho].
  unfold h, calculateHealthScore. cbn [score grade color metrics stability recommendations].
  rewrite Ho, Hs. repeat split.
  rewrite recommendations_spec. intros Hin.
  apply in_map_iff in Hin. destruct Hin as [s [Hadv Hin]].
  apply filter_In in Hin. destruct Hin as [_ Hb].
  change rec_stability with (Spec.advisory Spec.Stability) in Hadv.
  apply advisory_injective in Hadv. subst s.
  unfold Spec.below_threshold, Spec.subscore in Hb. rewrite Hs in Hb.
  discriminate Hb.
Qed.

(** The sample snapshot whose creation timestamp is "unknown". *)
Lemma invalid_date_report_witness :
  Host.Date_parse (created_at (repo Sample.unparsable_created_at)) = None
  /\ grade (calculateHealthScore Host.Date_parse Sample.now
              Sample.unparsable_created_at) = "F".
Proof.
  split; [reflexivity|].
  apply (@invalid_date_report Host.Date_parse Sample.now Sample.unparsable_created_at).
  left. reflexivity.
Defined.

Lemma gradeAndColor_cases (x : number) :
  (ge x (of_Z 90) = true /\ gradeAndColor x = ("A+", "#10B981"))
  \/ (ge x (of_Z 90) = false /\ ge x (of_Z 80) = true
      /\ gradeAndColor x = ("A", "#34D399"))
  \/ (ge x (of_Z 80) = false /\ ge x (of_Z 70) = true
      /\ gradeAndColor x = ("B", "#FBBF24"))
  \/ (ge x (of_Z 70) = false /\ ge x (of_Z 60) = true
      /\ gradeAndColor x = ("C", "#F59E0B"))
  \/ (ge x (of_Z 60) = false /\ ge x (of_Z 50) = true
      /\ gradeAndColor x = ("D", "#F97316"))
  \/ (ge x (of_Z 50) = false /\ gradeAndColor x = ("F", "#EF4444")).
Proof.
  unfold gradeAndColor.
  destruct (ge x (of_Z 90)) eqn:E90; [tauto|].
  destruct (ge x (of_Z 80)) eqn:E80; [tauto|].
  destruct (ge x (of_Z 70)) eqn:E70; [tauto|].
  destruct (ge x (of_Z 60)) eqn:E60; [tauto|].
  destruct (ge x (of_Z 50)) eqn:E50; tauto.
Qed.

Lemma ge_true (q : Q) (z : Z) : ge (Fin q) (of_Z z) = true -> inject_Z z <= q.
Proof. unfold ge, of_Z. apply Qle_bool_iff. Qed.

Lemma ge_false (q : Q) (z : Z) : ge (Fin q) (of_Z z) = false -> q < inject_Z z.
Proof. unfold ge, of_Z. apply Qle_bool_false. Qed.

(** X2: the grade never gets worse when the score gets higher, and the
    grade and colour returned are always one of the six fixed pairs. *)
Theorem grade_monotone (a b : Q) :
  a <= b ->
  (Terms.grade_rank (fst (gradeAndColor (Fin a)))
   <= Terms.grade_rank (fst (gradeAndColor (Fin b))))%nat
  /\ In (gradeAndColor (Fin a)) Terms.grade_bands.
Proof.
  intros Hab. split.
  - destruct (gradeAndColor_cases (Fin a)) as [Ha|[Ha|[Ha|[Ha|[Ha|Ha]]]]];
      destruct (gradeAndColor_cases (Fin b)) as [Hb|[Hb|[Hb|[Hb|[Hb|Hb]]]]];
      repeat match goal with
             | H : _ /\ _ |- _ => destruct H
             end;
      repeat match goal with
             | H : gradeAndColor _ = _ |- _ => rewrite H; clear H
             | H : ge _ _ = true |- _ => apply ge_true in H; unfold inject_Z in H
             | H : ge _ _ = false |- _ => apply ge_false in H; unfold inject_Z in H
             end;
      cbn [fst]; try (vm_compute; lia); exfalso; lra.
  - destruct (gradeAndColor_cases (Fin a)) as [Ha|[Ha|[Ha|[Ha|[Ha|Ha]]]]];
      repeat match goal with
             | H : _ /\ _ |- _ => destruct H
             end;
      match goal with
      | H : gradeAndColor _ = _ |- _ => rewrite H
      end; simpl; tauto.
Qed.

Lemma grade_monotone_witness :
  90 <= 95
  /\ (Terms.grade_rank "A+" <= Terms.grade_rank (fst (gradeAndColor (Fin 95))))%nat.
Proof.
  split; [vm_compute; discriminate|].
  destruct (@grade_monotone 90 95) as [H _]; [vm_compute; discriminate|].
  exact H.
Defined.

Lemma in_recommendations
    (Date_parse : string -> option Z) (Date_now : Z) (data : RepoAnalytics)
    (s : Spec.SubScore) :
  In (Spec.advisory s)
     (recommendations (calculateHealthScore Date_parse Date_now data))
  <-> Spec.below_threshold Date_parse Date_now data s = true.
Proof.
  cbn [recommendations calculateHealthScore]. rewrite recommendations_spec.
  rewrite in_map_iff. split.
  - intros [t [Ht Hin]]. apply advisory_injective in Ht. subst t.
    apply filter_In in Hin. tauto.
  - intros Hb. exists s. split; [reflexivity|].
    apply filter_In. split; [destruct s; simpl; tauto | exact Hb].
Qed.

(** X3: the documentation sub-score is 30, 60, 70 or 100, never less than
    30, and the documentation advisory is given exactly when the
    description is missing or empty, whether or not there is a license. *)
Theorem documentation_advisory
    (Date_parse : string -> option Z) (Date_now : Z) (data : RepoAnalytics) :
  (documentationScore data =n= Fin 30 \/ documentationScore data =n= Fin 60
   \/ documentationScore data =n= Fin 70 \/ documentationScore data =n= Fin 100)
  /\ (documentationScore data =n= Fin 100
      <-> has_description (repo data) = true /\ has_license (repo data) = true)
  /\ (In rec_documentation
         (recommendations (calculateHealthScore Date_parse Date_now data))
      <-> has_description (repo data) = false).
Proof.
  split; [|split].
  - unfold documentationScore.
    destruct (has_description (repo data)), (has_license (repo data));
      vm_compute; tauto.
  - unfold documentationScore.
    destruct (has_description (repo data)), (has_license (repo data));
      vm_compute; intuition discriminate.
  - change rec_documentation with (Spec.advisory Spec.Documentation).
    rewrite in_recommendations.
    unfold Spec.below_threshold, Spec.subscore, documentationScore.
    destruct (has_description (repo data)), (has_license (repo data));
      vm_compute; intuition discriminate.
Qed.








End HealthMore.


(** ** Ordering and truncation *)

Module SortFacts.

Import Metrics JSFacts.

Section Keyed.

Variable A : Type.
Variable key : A -> Q.
Variable cmp : A -> A -> number.
Hypothesis cmp_key : forall x y, cmp x y = Fin (key y - key x).

Lemma cmp_gt (x y : A) : gt (cmp x y) (of_Z 0) = true <-> key x < key y.
Proof.
  rewrite cmp_key. unfold gt, lt, of_Z. rewrite Qlt_bool_iff.
  unfold inject_Z. split; intros H; lra.
Qed.

Lemma insert_descending (x : A) (l : list A) :
  Terms.descending key l -> Terms.descending key (insert cmp x l).
Proof.
  unfold Terms.descending. induction 1 as [|y l Hl IH Hy]; cbn [insert].
  - constructor; constructor.
  - destruct (gt (cmp x y) (of_Z 0)) eqn:E.
    + apply cmp_gt in E. constructor; [exact IH|].
      apply (Permutation.Permutation_Forall
               (Permutation.Permutation_sym (LanguageFacts.insert_perm cmp x l))).
      constructor; [apply Qlt_le_weak; exact E | exact Hy].
    + assert (Hxy : key y <= key x).
      { destruct (Qlt_le_dec (key x) (key y)) as [H|H]; [|exact H].
        apply cmp_gt in H. congruence. }
      constructor; [constructor; assumption|].
      constructor; [exact Hxy|].
      apply Forall_forall. intros z Hz. rewrite Forall_forall in Hy.
      specialize (Hy z Hz). lra.
Qed.

Lemma sort_descending (l : list A) : Terms.descending key (sort cmp l).
Proof.
  induction l as [|x l IH]; cbn [sort]; [constructor|].
  apply insert_descending. exact IH.
Qed.

(** In a list ordered largest first, what [slice(0, n)] drops is not
    larger than anything it keeps. *)
Lemma descending_firstn_skipn (n : nat) (l : list A) :
  Terms.descending key l ->
  forall a b, In a (firstn n l) -> In b (skipn n l) -> key b <= key a.
Proof.
  unfold Terms.descending. intros H. revert n.
  induction H as [|x l Hl IH Hx]; intros n a b Ha Hb.
  - rewrite firstn_nil in Ha. contradiction.
  - destruct n as [|n]; [contradiction|].
    cbn [firstn skipn] in Ha, Hb. destruct Ha as [<- | Ha].
    + rewrite Forall_forall in Hx. apply Hx.
      rewrite <- (firstn_skipn n l). apply in_or_app. right. exact Hb.
    + apply (IH n); assumption.
Qed.

Lemma descending_firstn (n : nat) (l : list A) :
  Terms.descending key l -> Terms.descending key (firstn n l).
Proof.
  unfold Terms.descending. intros H. revert n.
  induction H as [|x l Hl IH Hx]; intros n.
  - rewrite firstn_nil. constructor.
  - destruct n as [|n]; [constructor|]. cbn [firstn].
    constructor; [apply IH|].
    apply Forall_forall. intros z Hz. rewrite Forall_forall in Hx. apply Hx.
    rewrite <- (firstn_skipn n l). apply in_or_app. left. exact Hz.
Qed.

End Keyed.

End SortFacts.

(** ** Language distribution: order and emptiness *)

Module LanguageMore.

Import Metrics JSFacts LanguageFacts SortFacts.

Local Open Scope string_scope.

Lemma by_value_desc_key (x y : LanguageData) :
  by_value_desc x y = Fin (lang_value y - lang_value x).
Proof. reflexivity. Qed.

Lemma prepareLanguageData_unfold (c : Component) (a : RepoAnalytics)
    (langs : list (string * Q)) :
  analytics c = Some a -> languages a = Some langs ->
  prepareLanguageData c = []
  \/ (strict_eq (total_bytes langs) (of_Z 0) = false
      /\ prepareLanguageData c
         = firstn 6
             (sort by_value_desc
                (map (language_entry (total_bytes langs))
                   (filter (fun kv => gt (Fin (snd kv)) (of_Z 0)) langs)))).
Proof.
  intros Ha Hl. unfold prepareLanguageData. rewrite Ha, Hl.
  destruct langs as [|kv langs']; [left; reflexivity|].
  destruct (strict_eq (total_bytes (kv :: langs')) (of_Z 0)) eqn:E;
    [left; reflexivity | right; split; reflexivity].
Qed.

(** X6: the entries are listed by byte count, largest first, and the
    languages left out when more than six have a positive count are not
    larger than any language that is listed. *)
Theorem language_top_six (c : Component) (a : RepoAnalytics)
    (langs : list (string * Q)) :
  analytics c = Some a -> languages a = Some langs ->
  let out := prepareLanguageData c in
  Terms.descending lang_value out
  /\ (out <> [] ->
      forall kv, In kv langs -> 0 < snd kv ->
        In kv (map Spec.entry_key out)
        \/ forall e, In e out -> snd kv <= lang_value e).
Proof.
  intros Ha Hl out.
  destruct (prepareLanguageData_unfold c Ha Hl) as [E | [_ E]]; unfold out; rewrite E.
  - split; [constructor | congruence].
  - set (S := sort by_value_desc _).
    assert (HS : Terms.descending lang_value S)
      by (apply (sort_descending lang_value by_value_desc by_value_desc_key)).
    split; [apply descending_firstn; exact HS|].
    intros _ kv Hin Hpos.
    assert (HinS : In (language_entry (total_bytes langs) kv) S).
    { apply (Permutation_in _ (Permutation_sym (sort_perm _ _))).
      apply in_map. apply filter_In. split; [exact Hin|].
      unfold gt, lt, of_Z. apply Qlt_bool_iff. unfold inject_Z. exact Hpos. }
    rewrite <- (firstn_skipn 6 S) in HinS. apply in_app_or in HinS.
    destruct HinS as [H | H].
    + left. apply (in_map Spec.entry_key) in H.
      destruct kv as [lang bytes]. exact H.
    + right. intros e He.
      pose proof (descending_firstn_skipn 6 HS _ _ He H) as Hle.
      destruct kv as [lang bytes]. exact Hle.
Qed.

(** Scenario A: TypeScript before CSS. *)
Lemma language_top_six_witness :
  Terms.descending lang_value
    (prepareLanguageData (Sample.component Sample.scenario_A)).
Proof.
  destruct (@language_top_six (Sample.component Sample.scenario_A) Sample.scenario_A
              [("TypeScript", 9000); ("CSS", 1000)] eq_refl eq_refl) as [H _].
  exact H.
Defined.






End LanguageMore.

(** ** Top labels *)

Module LabelFacts.

Import Metrics JSFacts LanguageFacts SortFacts.

Local Open Scope string_scope.

Lemma lookup_bump (k name : string) (o : list (string * nat)) :
  Terms.tally k (bump name o)
  = (Terms.tally k o + (if String.eqb name k then 1 else 0))%nat.
Proof.
  unfold Terms.tally.
  induction o as [|[k' n] o IH]; cbn [bump lookup].
  - destruct (String.eqb name k); reflexivity.
  - destruct (String.eqb k' name) eqn:E1; cbn [lookup].
    + apply String.eqb_eq in E1. subst k'.
      destruct (String.eqb name k); [reflexivity | lia].
    + destruct (String.eqb k' k) eqn:E2; [|exact IH].
      apply String.eqb_eq in E2. subst k'. rewrite String.eqb_sym, E1. lia.
Qed.

Lemma keys_bump (name : string) (o : list (string * nat)) :
  map fst (bump name o)
  = if existsb (String.eqb name) (map fst o) then map fst o
    else (map fst o ++ [name])%list.
Proof.
  induction o as [|[k' n] o IH]; cbn [bump map fst existsb app]; [reflexivity|].
  rewrite (String.eqb_sym name k').
  destruct (String.eqb k' name) eqn:E; cbn [map fst orb]; [reflexivity|].
  rewrite IH. destruct (existsb (String.eqb name) (map fst o)); reflexivity.
Qed.

Lemma NoDup_bump (name : string) (o : list (string * nat)) :
  NoDup (map fst o) -> NoDup (map fst (bump name o)).
Proof.
  intros H. rewrite keys_bump.
  destruct (existsb (String.eqb name) (map fst o)) eqn:E; [exact H|].
  apply NoDup_app; [exact H | repeat constructor; simpl; tauto |].
  intros x Hx [Hn | []]. subst x.
  assert (existsb (String.eqb name) (map fst o) = true).
  { apply existsb_exists. exists name. split; [exact Hx | apply String.eqb_refl]. }
  congruence.
Qed.

(** The tally built from a list of names: distinct keys, and for each key
    the number of times it occurs in the list. *)
Lemma tally_of_names (names : list string) :
  forall o,
    NoDup (map fst o) ->
    let o' := fold_left (fun o s => bump s o) names o in
    NoDup (map fst o')
    /\ forall k, Terms.tally k o' = (Terms.tally k o + count_occ string_dec names k)%nat.
Proof.
  induction names as [|s names IH]; intros o Ho; cbn [fold_left count_occ].
  - split; [exact Ho | intros k; lia].
  - destruct (IH (bump s o) (@NoDup_bump s o Ho)) as [H1 H2].
    split; [exact H1|]. intros k. rewrite H2, lookup_bump.
    destruct (string_dec s k) as [->|Hne].
    + rewrite String.eqb_refl. lia.
    + apply String.eqb_neq in Hne. rewrite Hne. lia.
Qed.

Lemma bump_positive (name : string) (o : list (string * nat)) :
  (forall k n, In (k, n) o -> (1 <= n)%nat) ->
  forall k n, In (k, n) (bump name o) -> (1 <= n)%nat.
Proof.
  induction o as [|[k' n'] o IH]; intros Ho k n H; cbn [bump] in H.
  - destruct H as [[= _ <-] | []]. lia.
  - destruct (String.eqb k' name).
    + destruct H as [[= _ <-] | H]; [lia | apply (Ho k n); right; exact H].
    + destruct H as [[= <- <-] | H]; [apply (Ho k' n'); left; reflexivity|].
      refine (IH _ k n H). intros k3 n3 H3. apply (Ho k3 n3). right. exact H3.
Qed.

Lemma fold_bump_positive (names : list string) :
  forall o : list (string * nat),
    (forall k n, In (k, n) o -> (1 <= n)%nat) ->
    forall k n, In (k, n) (fold_left (fun o s => bump s o) names o) -> (1 <= n)%nat.
Proof.
  induction names as [|s names IH]; intros o Ho k n H; cbn [fold_left] in H.
  - apply (Ho k n H).
  - apply (IH (bump s o) (@bump_positive s o Ho) k n H).
Qed.

Lemma count_labels_of_issue_names (o : list (string * nat)) (i : option GitHubIssue) :
  count_labels_of_issue o i
  = fold_left (fun o s => bump s o) (Terms.names_of_issue i) o.
Proof.
  unfold count_labels_of_issue, Terms.names_of_issue.
  destruct i as [x|]; [|reflexivity].
  destruct (labels x) as [ls|]; [|reflexivity].
  revert o. induction ls as [|l ls IH]; intros o; cbn [fold_left flat_map];
    [reflexivity|].
  rewrite fold_left_app, IH.
  destruct (label_key l); reflexivity.
Qed.

Lemma labelCount_names (l : list (option GitHubIssue)) (o : list (string * nat)) :
  fold_left count_labels_of_issue l o
  = fold_left (fun o s => bump s o) (flat_map Terms.names_of_issue l) o.
Proof.
  revert o. induction l as [|i l IH]; intros o; cbn [fold_left flat_map];
    [reflexivity|].
  rewrite fold_left_app, IH, count_labels_of_issue_names. reflexivity.
Qed.

Lemma lookup_of_entry {A : Type} (k : string) (v : A) (o : list (string * A)) :
  NoDup (map fst o) -> In (k, v) o -> lookup k o = Some v.
Proof.
  induction o as [|[k' v'] o IH]; intros Hnd Hin; [contradiction|].
  cbn [lookup]. cbn [map fst] in Hnd. inversion Hnd as [|? ? Hk' Ho]; subst.
  destruct Hin as [[= -> ->] | Hin].
  - rewrite String.eqb_refl. reflexivity.
  - destruct (String.eqb k' k) eqn:E; [|apply IH; assumption].
    apply String.eqb_eq in E. subst k'. exfalso. apply Hk'.
    apply (in_map fst) in Hin. exact Hin.
Qed.

Lemma insert_index_perm {A : Type} (x : N * A) (l : list (N * A)) :
  Permutation (insert_index x l) (x :: l).
Proof.
  induction l as [|y l IH]; cbn [insert_index]; [apply Permutation_refl|].
  destruct (fst y <? fst x)%N.
  - eapply perm_trans; [apply perm_skip; exact IH | apply perm_swap].
  - apply Permutation_refl.
Qed.

(** [Object.entries] lists every own property once. *)
Lemma Object_entries_perm {A : Type} (o : list (string * A)) :
  Permutation (Object_entries o) o.
Proof.
  unfold Object_entries.
  induction o as [|kv o IH]; cbn [fold_right filter]; [apply perm_nil|].
  set (F := fold_right _ [] o) in *.
  set (G := filter _ o) in *.
  destruct (array_index (fst kv)) as [n|].
  - apply perm_trans with (kv :: (map snd F ++ G))%list;
      [|apply perm_skip; exact IH].
    apply (Permutation_app_tail G (l := map snd (insert_index (n, kv) F))
             (l' := kv :: map snd F)).
    apply (Permutation_map (@snd N (string * A)) (insert_index_perm (n, kv) F)).
  - apply perm_trans with (kv :: (map snd F ++ G))%list;
      [|apply perm_skip; exact IH].
    apply Permutation_sym. apply Permutation_middle.
Qed.

Lemma by_count_desc_key (x y : LabelCount) :
  by_count_desc x y
  = Fin (inject_Z (Z.of_nat (count y)) - inject_Z (Z.of_nat (count x))).
Proof. reflexivity. Qed.

Lemma NoDup_firstn {A : Type} (n : nat) (l : list A) : NoDup l -> NoDup (firstn n l).
Proof.
  intros H. rewrite <- (firstn_skipn n l) in H.
  apply NoDup_app_remove_r in H. exact H.
Qed.

Section TopLabels.

Variable c : Component.
Variable a : RepoAnalytics.
Variable l : list (option GitHubIssue).
Hypothesis Ha : analytics c = Some a.
Hypothesis Hl : issues a = Some l.

(** No label bears the name of a property that every object inherits. *)
Hypothesis Hplain : forallb Terms.plain_name (Terms.label_names l) = true.

Let names := Terms.label_names l.
Let labelCount := fold_left count_labels_of_issue l [].
Let entries :=
  sort by_count_desc
    (map (fun kv => {| count_name := fst kv; count := snd kv |})
       (Object_entries labelCount)).

Lemma getTopLabels_unfold : getTopLabels c = firstn 5 entries.
Proof. unfold getTopLabels. rewrite Ha, Hl. reflexivity. Qed.

Lemma labelCount_facts :
  NoDup (map fst labelCount)
  /\ forall k, Terms.tally k labelCount = count_occ string_dec names k.
Proof.
  unfold labelCount. rewrite labelCount_names.
  destruct (@tally_of_names (flat_map Terms.names_of_issue l) [])
    as [H1 H2]; [constructor|].
  split; [exact H1 | intros k; rewrite H2; reflexivity].
Qed.

Lemma entries_perm :
  Permutation entries
    (map (fun kv => {| count_name := fst kv; count := snd kv |}) labelCount).
Proof.
  unfold entries. eapply perm_trans; [apply sort_perm|].
  apply Permutation_map. apply Object_entries_perm.
Qed.

Lemma entries_names : Permutation (map count_name entries) (map fst labelCount).
Proof.
  eapply perm_trans; [apply Permutation_map; apply entries_perm|].
  rewrite map_map. cbn [count_name]. apply Permutation_refl.
Qed.

Lemma entry_count (e : LabelCount) :
  In e entries ->
  count e = count_occ string_dec names (count_name e)
  /\ In (count_name e) names.
Proof.
  intros He. apply (Permutation_in _ entries_perm) in He.
  apply in_map_iff in He. destruct He as [[k n] [<- Hin]]. cbn [count count_name fst snd].
  destruct labelCount_facts as [Hnd Ht].
  pose proof (@lookup_of_entry nat k n labelCount Hnd Hin) as Hk.
  specialize (Ht k). unfold Terms.tally in Ht. rewrite Hk in Ht.
  assert (Hpos : (1 <= n)%nat).
  { unfold labelCount in Hin. rewrite labelCount_names in Hin.
    apply (@fold_bump_positive (flat_map Terms.names_of_issue l) [] ltac:(intros ? ? [])
             k n Hin). }
  split; [exact Ht|].
  apply (count_occ_In string_dec). unfold names in *. lia.
Qed.

(** X8: when no label bears the name of a property that every object
    inherits, at most five labels are returned, with pairwise distinct
    names; the count of each is the number of labels of that name over
    all the issues, and is at least one. *)
Theorem top_labels_counts :
  let out := getTopLabels c in
  (List.length out <= 5)%nat
  /\ NoDup (map count_name out)
  /\ forall e, In e out ->
       count e = count_occ string_dec (Terms.label_names l) (count_name e)
       /\ (1 <= count e)%nat.
Proof using Ha Hl Hplain.
  intros out. unfold out. rewrite getTopLabels_unfold.
  split; [apply firstn_le_length|]. split.
  - rewrite <- firstn_map. apply NoDup_firstn.
    apply (Permutation_NoDup (Permutation_sym entries_names)).
    apply labelCount_facts.
  - intros e He.
    assert (Hin : In e entries).
    { rewrite <- (firstn_skipn 5 entries). apply in_or_app. left. exact He. }
    destruct (entry_count e Hin) as [H1 H2]. split; [exact H1|].
    rewrite H1. apply (count_occ_In string_dec) in H2. fold names. lia.
Qed.

(** X9: under the same condition the labels are listed by count, largest
    first, and a label that is left out does not occur more often than
    any label that is listed. *)
Theorem top_labels_order :
  let out := getTopLabels c in
  Terms.descending (fun e => inject_Z (Z.of_nat (count e))) out
  /\ forall name, In name (Terms.label_names l) ->
       In name (map count_name out)
       \/ forall e, In e out ->
            (count_occ string_dec (Terms.label_names l) name <= count e)%nat.
Proof using Ha Hl Hplain.
  intros out. unfold out. rewrite getTopLabels_unfold.
  assert (HS : Terms.descending (fun e => inject_Z (Z.of_nat (count e))) entries).
  { apply (sort_descending _ by_count_desc by_count_desc_key). }
  split; [apply descending_firstn; exact HS|].
  intros name Hname.
  assert (Hkey : In name (map count_name entries)).
  { apply (Permutation_in _ (Permutation_sym entries_names)).
    destruct labelCount_facts as [_ Ht]. specialize (Ht name).
    apply (count_occ_In string_dec) in Hname. fold names in Hname.
    unfold Terms.tally in Ht.
    destruct (lookup name labelCount) as [n|] eqn:E; [|lia].
    clear - E. induction labelCount as [|[k v] o IH]; [discriminate|].
    cbn [lookup] in E. cbn [map fst]. destruct (String.eqb k name) eqn:Ek.
    - apply String.eqb_eq in Ek. left. exact Ek.
    - right. apply IH. exact E. }
  apply in_map_iff in Hkey. destruct Hkey as [e0 [He0 Hin0]].
  rewrite <- (firstn_skipn 5 entries) in Hin0. apply in_app_or in Hin0.
  destruct Hin0 as [H | H].
  - left. rewrite <- He0. apply in_map. exact H.
  - right. intros e He.
    pose proof (descending_firstn_skipn 5 HS _ _ He H) as Hle.
    cbv beta in Hle. rewrite <- Zle_Qle in Hle.
    assert (Hin0 : In e0 entries).
    { rewrite <- (firstn_skipn 5 entries). apply in_or_app. right. exact H. }
    destruct (entry_count e0 Hin0) as [Hc0 _]. rewrite He0 in Hc0.
    fold names. lia.
Qed.

End TopLabels.

(** Three issues labelled bug and ui, bug, and docs: bug counts twice. *)
Lemma top_labels_counts_witness :
  getTopLabels (Sample.component Fixtures.labelled)
  = [mkLabelCount "bug" 2; mkLabelCount "ui" 1; mkLabelCount "docs" 1]
  /\ NoDup (map count_name (getTopLabels (Sample.component Fixtures.labelled))).
Proof.
  split; [vm_compute; reflexivity|].
  destruct (@top_labels_counts (Sample.component Fixtures.labelled) Fixtures.labelled
              Fixtures.labelled_issues eq_refl eq_refl eq_refl) as [_ [H _]].
  exact H.
Defined.

Lemma top_labels_order_witness :
  Terms.descending (fun e => inject_Z (Z.of_nat (count e)))
    (getTopLabels (Sample.component Fixtures.labelled)).
Proof.
  destruct (@top_labels_order (Sample.component Fixtures.labelled) Fixtures.labelled
              Fixtures.labelled_issues eq_refl eq_refl eq_refl) as [H _].
  exact H.
Defined.

End LabelFacts.

(** ** Display helpers *)

Module DisplayFacts.

Import Metrics Display JSFacts LanguageFacts.

Local Open Scope string_scope.

Section Rendering.

Variable Number_toString_fraction : Q -> string.

Local Abbreviation format := (formatNumber Number_toString_fraction).

(** X10: a missing, [NaN], zero or negative number is shown as "0". *)
Theorem formatNumber_nothing_to_show (num : option number) :
  (num = None \/ num = Some NaN \/ exists q, num = Some (Fin q) /\ q <= 0) ->
  format num = "0".
Proof.
  intros [-> | [-> | [q [-> Hq]]]]; [reflexivity | reflexivity |].
  unfold formatNumber. cbn [isNaN Math_max of_Z].
  set (v := if Qle_bool (inject_Z 0) q then q else inject_Z 0).
  assert (Hv : v == 0).
  { unfold v. destruct (Qle_bool (inject_Z 0) q) eqn:E; [|reflexivity].
    apply Qle_bool_iff in E. unfold inject_Z in E. lra. }
  assert (E1 : ge (Fin v) (of_Z 1000000) = false).
  { unfold ge, of_Z. destruct (Qle_bool (inject_Z 1000000) v) eqn:E; [|reflexivity].
    apply Qle_bool_iff in E. unfold inject_Z in E. lra. }
  assert (E2 : ge (Fin v) (of_Z 1000) = false).
  { unfold ge, of_Z. destruct (Qle_bool (inject_Z 1000) v) eqn:E; [|reflexivity].
    apply Qle_bool_iff in E. unfold inject_Z in E. lra. }
  rewrite E1, E2. unfold Number_toString, is_integer.
  assert (Hf : Qfloor v = 0%Z) by (rewrite Hv; reflexivity).
  rewrite Hf.
  assert (Hi : Qeq_bool (inject_Z 0) v = true).
  { apply Qeq_bool_iff. rewrite Hv. reflexivity. }
  rewrite Hi. reflexivity.
Qed.

(** X11: a whole number from 1000 up to, but not including, one million
    is shown in thousands with exactly one decimal and the suffix K; the
    decimal shown is within half a tenth of the number of thousands, so
    that the text can read "1000.0K", which it does above 999950. *)
Theorem formatNumber_thousands (z : Z) :
  (1000 <= z < 1000000)%Z ->
  exists t : N,
    format (Some (of_Z z)) = Spec.one_decimal t ++ "K"
    /\ (100 * Z.of_N t - 50 <= z <= 100 * Z.of_N t + 50)%Z
    /\ (10 <= t <= 10000)%N
    /\ ((999950 < z)%Z -> t = 10000%N).
Proof.
  intros [Hlo Hhi].
  assert (Qlo : 1000 <= inject_Z z)
    by (change 1000 with (inject_Z 1000); rewrite <- Zle_Qle; exact Hlo).
  assert (Qhi : inject_Z z <= 999999)
    by (change 999999 with (inject_Z 999999); rewrite <- Zle_Qle; lia).
  unfold formatNumber. cbn [isNaN Math_max of_Z].
  assert (E0 : Qle_bool (inject_Z 0) (inject_Z z) = true).
  { apply Qle_bool_iff. unfold inject_Z at 1. lra. }
  rewrite E0.
  assert (E1 : ge (Fin (inject_Z z)) (of_Z 1000000) = false).
  { unfold ge, of_Z. destruct (Qle_bool (inject_Z 1000000) (inject_Z z)) eqn:E;
      [|reflexivity].
    apply Qle_bool_iff in E. unfold inject_Z at 1 in E. lra. }
  assert (E2 : ge (Fin (inject_Z z)) (of_Z 1000) = true).
  { unfold ge, of_Z. apply Qle_bool_iff. unfold inject_Z at 1. lra. }
  rewrite E1, E2.
  change (Fin (inject_Z z) / of_Z 1000)%f64
    with (Fin (Binary64.round64 (inject_Z z / inject_Z 1000))).
  change (inject_Z 1000) with 1000.
  set (x := inject_Z z / 1000).
  assert (Hx1 : 1 <= x) by (unfold x; apply Qle_shift_div_l; [reflexivity | lra]).
  assert (Hx2 : x <= 999999 # 1000)
    by (unfold x; apply Qle_shift_div_r; [reflexivity | lra]).
  assert (Ex : x * 1000 == inject_Z z) by (unfold x; field).
  pose proof Binary64Facts.pow2_1022_small as Hsmall.
  destruct (@Binary64Facts.round64_within x) as [V1 V2]; [lra|].
  unfold Binary64.unit_roundoff in V1, V2.
  set (v := Binary64.round64 x) in *.
  assert (Hv0 : 0 <= v) by nra.
  rewrite (PrintingFacts.toFixed1_one_decimal Hv0).
  unfold nearest_tenths.
  pose proof (Qfloor_le (v * 10 + (1 # 2))) as F1.
  pose proof (Qlt_floor (v * 10 + (1 # 2))) as F2.
  set (n := Qfloor (v * 10 + (1 # 2))) in *.
  rewrite inject_Z_plus in F2. change (inject_Z 1) with 1 in F2.
  assert (B1 : x * (1 # 9007199254740992) <= 1 # 9007199254740) by lra.
  assert (Hn10 : (10 <= n)%Z).
  { assert (H : inject_Z 9 < inject_Z n) by (change (inject_Z 9) with 9; nra).
    rewrite <- Zlt_Qlt in H. lia. }
  assert (Hn1 : (n <= 10000)%Z).
  { assert (H : inject_Z n < inject_Z 10001) by (change (inject_Z 10001) with 10001; nra).
    rewrite <- Zlt_Qlt in H. lia. }
  assert (Hz1 : (100 * n - 50 <= z)%Z).
  { assert (H : inject_Z (100 * n - 51) < inject_Z z).
    { unfold Z.sub. rewrite inject_Z_plus, inject_Z_mult.
      change (inject_Z (- (51))) with (- (51)). change (inject_Z 100) with 100.
      rewrite <- Ex. nra. }
    rewrite <- Zlt_Qlt in H. lia. }
  assert (Hz2 : (z <= 100 * n + 50)%Z).
  { assert (H : inject_Z z < inject_Z (100 * n + 51)).
    { rewrite inject_Z_plus, inject_Z_mult.
      change (inject_Z 51) with 51. change (inject_Z 100) with 100.
      rewrite <- Ex. nra. }
    rewrite <- Zlt_Qlt in H. lia. }
  exists (Z.to_N n). rewrite Z2N.id by lia.
  split; [reflexivity|]. split; [lia|]. split; [lia|].
  intros Hedge.
  assert (Hn2 : (10000 <= n)%Z).
  { assert (Qe : 999951 <= inject_Z z)
      by (change 999951 with (inject_Z 999951); rewrite <- Zle_Qle; lia).
    assert (H : inject_Z 9999 < inject_Z n).
    { change (inject_Z 9999) with 9999. rewrite <- Ex in Qe. nra. }
    rewrite <- Zlt_Qlt in H. lia. }
  lia.
Qed.

End Rendering.

(** 1234 is shown as "1.2K" and 999999 as "1000.0K". *)
Lemma formatNumber_thousands_witness :
  formatNumber Fixtures.Number_toString_fraction (Some (of_Z 1234)) = "1.2K"
  /\ formatNumber Fixtures.Number_toString_fraction (Some (of_Z 999999)) = "1000.0K".
Proof.
  split; [vm_compute; reflexivity|].
  destruct (@formatNumber_thousands Fixtures.Number_toString_fraction 999999)
    as [t [H1 [_ [_ H4]]]]; [lia|].
  rewrite H1, H4; [reflexivity | lia].
Defined.

(** 1150 is shown as "1.1K": the quotient 1150 / 1000 is the double just
    below 1.15. *)
Lemma formatNumber_below_the_tie :
  formatNumber Fixtures.Number_toString_fraction (Some (of_Z 1150)) = "1.1K".
Proof. vm_compute. reflexivity. Qed.

Lemma formatNumber_nothing_to_show_witness :
  formatNumber Fixtures.Number_toString_fraction (Some (Fin (-5))) = "0".
Proof.
  apply formatNumber_nothing_to_show. right. right. exists (-5).
  split; [reflexivity | vm_compute; discriminate].
Defined.

Lemma first_line_prefix (s : string) :
  Spec.not_in "010" (first_line s)
  /\ (s = first_line s
      \/ exists rest, s = first_line s ++ String "010" rest).
Proof.
  induction s as [|c t [IH1 IH2]]; cbn [first_line].
  - split; [exact I | left; reflexivity].
  - destruct (Ascii.eqb c "010") eqn:E.
    + apply Ascii.eqb_eq in E. subst c.
      split; [exact I | right; exists t; reflexivity].
    + split; [split; assumption|].
      destruct IH2 as [IH2 | [rest IH2]].
      * left. cbn [append]. rewrite <- IH2. reflexivity.
      * right. exists rest. cbn [append]. rewrite <- IH2. reflexivity.
Qed.

(** X12: the summary of a commit with a non-empty message holds no line
    feed and is the message up to its first line feed; it is empty when
    the message starts with a line feed, and the placeholder is shown only
    for an empty message. *)
Theorem commit_summary_first_line (commit : GitHubCommit) :
  commit_message commit <> "" ->
  let s := commit_summary commit in
  Spec.not_in "010" s
  /\ (commit_message commit = s
      \/ exists rest, commit_message commit = s ++ String "010" rest)
  /\ (s = "" <-> exists rest, commit_message commit = String "010" rest).
Proof.
  intros Hne s. unfold s, commit_summary.
  assert (E : String.eqb (commit_message commit) "" = false)
    by (apply String.eqb_neq; exact Hne).
  rewrite E. cbn [negb].
  destruct (first_line_prefix (commit_message commit)) as [H1 H2].
  split; [exact H1|]. split; [exact H2|].
  destruct (commit_message commit) as [|c t]; [congruence|].
  cbn [first_line]. destruct (Ascii.eqb c "010") eqn:Ec.
  - apply Ascii.eqb_eq in Ec. subst c. split; [intros _; exists t; reflexivity | reflexivity].
  - split; [discriminate|]. intros [rest [= -> _]].
    rewrite Ascii.eqb_refl in Ec. discriminate.
Qed.

Lemma commit_summary_first_line_witness :
  commit_summary Fixtures.commit_with_body = "Fix label tally"
  /\ Spec.not_in "010" (commit_summary Fixtures.commit_with_body).
Proof.
  split; [vm_compute; reflexivity|].
  destruct (@commit_summary_first_line Fixtures.commit_with_body) as [H _];
    [discriminate | exact H].
Defined.

End DisplayFacts.

(** ** Backend: error handler, cache and routes *)

Module BackendMore.

Import Backend BackendFacts Terms.

Local Open Scope string_scope.

(** X13: the error handler always answers with a failure whose status is
    400, 403, 404 or 500; 404 and 403 are given exactly to errors that
    carry an upstream response of that status; and outside development
    mode the answer never carries the message of the error. *)
Theorem errorHandler_answers (development : bool) (error : thrown) :
  exists status text details message,
    errorHandler development error = Failure status text details message
    /\ In status [400; 403; 404; 500]%Z
    /\ (status = 404%Z <-> response_status_of error = Some 404%Z)
    /\ (status = 403%Z <-> response_status_of error = Some 403%Z)
    /\ (status = 400%Z <-> exists zod_issues, error = ZodError zod_issues)
    /\ (development = false -> message = None).
Proof.
  destruct error as [zi | m st | m].
  - do 4 eexists. split; [reflexivity|]. cbn [response_status_of].
    repeat split; try (simpl; tauto); try discriminate; eauto.
  - cbn [errorHandler response_status_of].
    destruct st as [[|p|p]|].
    + do 4 eexists. split; [reflexivity|].
      repeat split; try (simpl; tauto); try discriminate;
        try (intros [? ?]; discriminate); intros ->; reflexivity.
    + destruct (Pos.eq_dec p 404) as [->|H404];
        [|destruct (Pos.eq_dec p 403) as [->|H403]].
      * do 4 eexists. split; [reflexivity|].
        repeat split; try (simpl; tauto); try discriminate;
          try (intros [? ?]; discriminate).
      * do 4 eexists. split; [reflexivity|].
        repeat split; try (simpl; tauto); try discriminate;
          try (intros [? ?]; discriminate).
      * assert (E : match p with
                    | 404%positive => Failure 404 "Repository not found" [] None
                    | 403%positive => Failure 403 "GitHub API rate limit exceeded" [] None
                    | _ => Failure 500 "Internal server error" []
                             (if development then Some m else None)
                    end
                    = Failure 500 "Internal server error" []
                        (if development then Some m else None)).
        { clear - H404 H403.
          do 9 (destruct p as [p|p|]; try reflexivity); congruence. }
        cbn [error_message]. rewrite E.
        do 4 eexists. split; [reflexivity|].
        repeat split; try (simpl; tauto); try discriminate;
          try (intros [? ?]; discriminate); try congruence;
          intros ->; reflexivity.
    + do 4 eexists. split; [reflexivity|].
      repeat split; try (simpl; tauto); try discriminate;
        try (intros [? ?]; discriminate); intros ->; reflexivity.
    + do 4 eexists. split; [reflexivity|].
      repeat split; try (simpl; tauto); try discriminate;
        try (intros [? ?]; discriminate); intros ->; reflexivity.
  - do 4 eexists. split; [reflexivity|]. cbn [response_status_of].
    repeat split; try (simpl; tauto); try discriminate;
      try (intros [? ?]; discriminate); intros ->; reflexivity.
Qed.

(** X14: when the cache returns every part of a snapshot for a
    repository, the aggregation answers with that snapshot whatever the
    upstream would answer, and leaves the cache as it is. *)
Theorem aggregation_from_cache
    (axios_repo : string -> settled GitHubRepo)
    (axios_contributors : string -> settled (list GitHubContributor))
    (axios_commits : string -> settled (list GitHubCommit))
    (axios_issues : string -> settled (list (option GitHubIssue)))
    (axios_activity : string -> settled (option (list (option CommitActivityWeek))))
    (axios_languages : string -> settled (option (list (string * Q))))
    (issues_order analytics_order : list nat)
    (o n : string) (c : Cache) (a : RepoAnalytics) :
  holds_snapshot o n c a ->
  getFullAnalytics axios_repo axios_contributors axios_commits axios_issues
    axios_activity axios_languages issues_order analytics_order o n c
  = (inr a, c).
Proof.
  intros [H1 [[cs [Hcs H2]] [H3 [[i [Hi H4]] [[ws [Hws H5]] [ls [Hls H6]]]]]]].
  unfold cached_repo, cached_contributors, cached_commits, cached_issues,
    cached_activity, cached_languages in *.
  unfold getFullAnalytics, getRepoInfo, getContributors, getCommits, getIssues,
    getCommitActivity, getLanguages.
  rewrite H1, H2, H3, H4, H5, H6.
  destruct a as [r co rc is_ ca la]. cbn in Hcs, Hi, Hws, Hls.
  subst co is_ ca la. reflexivity.
Qed.

Lemma aggregation_from_cache_witness :
  getFullAnalytics (fun _ => inl Sample.not_found)
    (fun _ => inl Sample.not_found) (fun _ => inl Sample.not_found)
    (fun _ => inl Sample.not_found) (fun _ => inl Sample.not_found)
    (fun _ => inl Sample.not_found)
    [1; 0]%nat [5; 4; 3; 2; 1; 0]%nat "octocat" "hello" Fixtures.warm_cache
  = (inr Sample.scenario_A, Fixtures.warm_cache).
Proof.
  apply (@aggregation_from_cache _ _ _ _ _ _ _ _
           "octocat" "hello" Fixtures.warm_cache Sample.scenario_A).
  unfold holds_snapshot. repeat split; try reflexivity.
  - eexists. split; reflexivity.
  - eexists. split; reflexivity.
  - eexists. split; reflexivity.
  - eexists. split; reflexivity.
Defined.

End BackendMore.

(** ** URL validation, continued *)

Module ValidationMore.

Import Validation Spec ValidationFacts.

Local Open Scope string_scope.

Lemma matcher_Lit (s : string) :
  forall (t : string) (i : nat) (caps : nat -> option string) (k : Continuation),
    matcher (Lit s) (mkState i (s ++ t) caps) k
    = k (mkState (i + String.length s) t caps).
Proof.
  induction s as [|c s IH]; intros t i caps k; simpl.
  - rewrite Nat.add_0_r. reflexivity.
  - rewrite Ascii.eqb_refl, IH, Nat.add_succ_r. reflexivity.
Qed.

Lemma not_in_app (e : ascii) (a b : string) :
  not_in e (a ++ b) <-> not_in e a /\ not_in e b.
Proof.
  induction a as [|c a IH]; simpl; [tauto|]. rewrite IH. tauto.
Qed.

(** The greedy class followed by its delimiter takes the whole run of
    other characters. *)
Lemma plus_greedy_delimited (e : ascii) (k : Continuation)
    (caps : nat -> option string) (t : string) :
  (forall y, (forall t', rest y <> String e t') -> k y = None) ->
  forall (a : string) (i : nat),
    a <> EmptyString -> not_in e a ->
    plus_class true e (a ++ String e t) i caps k
    = k (mkState (i + String.length a) (String e t) caps).
Proof.
  intros Hk. induction a as [|c a IH]; intros i Ha Hn; [congruence|].
  destruct Hn as [Hc Hn]. simpl. rewrite Hc.
  destruct a as [|c' a'].
  - simpl. rewrite Ascii.eqb_refl, Nat.add_1_r. reflexivity.
  - rewrite IH by (auto; discriminate).
    replace (S i + String.length (String c' a'))%nat
      with (i + S (String.length (String c' a')))%nat by lia.
    destruct (k (mkState (i + S (String.length (String c' a'))) (String e t) caps))
      as [z|]; [reflexivity|].
    apply Hk. intros t' H. simpl in H. injection H as H _.
    destruct Hn as [Hc' _]. rewrite H, Ascii.eqb_refl in Hc'. discriminate.
Qed.

(** The lazy class stops at the first prefix that the continuation
    accepts. *)
Lemma plus_lazy_first (e : ascii) (k : Continuation)
    (caps : nat -> option string) (t : string) (z : MatchState) :
  forall (a : string) (i : nat),
    a <> EmptyString -> not_in e a ->
    (forall a1 a2,
        a = a1 ++ a2 -> a1 <> EmptyString -> a2 <> EmptyString ->
        k (mkState (i + String.length a1) (a2 ++ t) caps) = None) ->
    k (mkState (i + String.length a) t caps) = Some z ->
    plus_class false e (a ++ t) i caps k = Some z.
Proof.
  induction a as [|c a IH]; intros i Ha Hn Hshort Hk; [congruence|].
  destruct Hn as [Hc Hn]. simpl. rewrite Hc.
  destruct a as [|c' a'].
  - simpl in *. rewrite Nat.add_1_r in Hk. rewrite Hk. reflexivity.
  - pose proof (Hshort (String c "") (String c' a') eq_refl) as H0.
    simpl in H0. rewrite Nat.add_1_r in H0.
    change (String c' a' ++ t) with (String c' (a' ++ t)).
    rewrite H0 by discriminate.
    change (String c' (a' ++ t)) with (String c' a' ++ t).
    apply IH; [discriminate | exact Hn | |].
    + intros a1 a2 E H1 H2.
      replace (S i + String.length a1)%nat
        with (i + String.length (String c a1))%nat by (simpl; lia).
      apply Hshort; [rewrite E; reflexivity | discriminate | exact H2].
    + replace (S i + String.length (String c' a'))%nat
        with (i + String.length (String c (String c' a')))%nat by (simpl; lia).
      exact Hk.
Qed.

Lemma tail_rejects (y : MatchState) :
  matcher (Seq (Opt (Alt (Chr slash) (Lit ".git"))) Eol) y Some <> None ->
  rest y = "" \/ rest y = "/" \/ rest y = ".git".
Proof.
  destruct (matcher _ y Some) as [z|] eqn:E; [intros _ | congruence].
  apply matcher_sound in E. destruct E as [y' [Hrun _]].
  apply run_seq_inv in Hrun. destruct Hrun as [y1 [Hopt Heol]].
  apply run_eol_inv in Heol. destruct Heol as [_ Hend].
  apply run_suffix_inv in Hopt. destruct Hopt as [sfx [[H1 _] Hsfx]].
  rewrite H1, Hend, append_nil_r. exact Hsfx.
Qed.

Lemma tail_accepts (y : MatchState) :
  rest y = "" \/ rest y = "/" \/ rest y = ".git" ->
  exists z,
    matcher (Seq (Opt (Alt (Chr slash) (Lit ".git"))) Eol) y Some = Some z
    /\ captures z = captures y.
Proof.
  intros Hy.
  assert (Hrun : exists z, run (Seq (Opt (Alt (Chr slash) (Lit ".git"))) Eol) y z).
  { destruct y as [i s caps]. simpl in Hy.
    destruct Hy as [-> | [-> | ->]]; eexists; eapply run_seq.
    - apply run_opt_skip.
    - apply run_eol. reflexivity.
    - apply run_opt_take.
      + apply run_alt_l. apply run_chr.
      + cbn [endIndex]. lia.
    - apply run_eol. reflexivity.
    - apply run_opt_take.
      + apply run_alt_r. apply (run_Lit_intro ".git" "").
      + cbn [endIndex String.length]. lia.
    - apply run_eol. reflexivity. }
  destruct Hrun as [z0 Hrun].
  destruct (matcher _ y Some) as [z|] eqn:E.
  - exists z. split; [reflexivity|].
    apply matcher_sound in E. destruct E as [y' [Hr [= ->]]].
    apply run_seq_inv in Hr. destruct Hr as [y1 [Hopt Heol]].
    apply run_eol_inv in Heol. destruct Heol as [-> _].
    apply run_suffix_inv in Hopt. destruct Hopt as [sfx [[_ [_ H3]] _]].
    exact H3.
  - exfalso. revert E. apply (matcher_complete Hrun). discriminate.
Qed.

Lemma matcher_seq (r1 r2 : regex) (x : MatchState) (k : Continuation) :
  matcher (Seq r1 r2) x k = matcher r1 x (fun y => matcher r2 y k).
Proof. reflexivity. Qed.

Lemma matcher_bol0 (s : string) (caps : nat -> option string) (k : Continuation) :
  matcher Bol (mkState 0 s caps) k = k (mkState 0 s caps).
Proof. reflexivity. Qed.

Lemma matcher_chr (c : ascii) (i : nat) (t : string) (caps : nat -> option string)
    (k : Continuation) :
  matcher (Chr c) (mkState i (String c t) caps) k = k (mkState (S i) t caps).
Proof. simpl. rewrite Ascii.eqb_refl. reflexivity. Qed.

Lemma matcher_group_plus (n : nat) (g : bool) (e : ascii) (x : MatchState)
    (k : Continuation) :
  matcher (Group n (Plus g e)) x k
  = plus_class g e (rest x) (endIndex x) (captures x)
      (fun y => k (set_capture n (substring 0 (endIndex y - endIndex x) (rest x)) y)).
Proof. reflexivity. Qed.

(** No proper prefix of the name is followed by an accepted ending. *)
Lemma no_early_stop (r sfx a1 a2 : string) :
  r = a1 ++ a2 -> a2 <> "" -> not_in slash r ->
  sfx = "/" \/ sfx = ".git" \/ (sfx = "" /\ forall r0, r <> r0 ++ ".git") ->
  ~ (a2 ++ sfx = "" \/ a2 ++ sfx = "/" \/ a2 ++ sfx = ".git").
Proof.
  intros -> Ha2 Hn Hsfx Hstop.
  apply not_in_app in Hn. destruct Hn as [_ Hn2].
  assert (Hlen : forall s, String.length (a2 ++ s) = (String.length a2 + String.length s)%nat)
    by (intros s; apply append_length).
  assert (Hpos : (0 < String.length a2)%nat)
    by (destruct a2; [congruence | simpl; lia]).
  destruct Hsfx as [-> | [-> | [-> Hgit]]].
  - destruct Hstop as [H | [H | H]].
    + apply (f_equal String.length) in H. rewrite Hlen in H. simpl in H. lia.
    + apply (f_equal String.length) in H. rewrite Hlen in H. simpl in H. lia.
    + assert (Hs : not_in slash (a2 ++ "/")).
      { rewrite H. simpl. repeat split; reflexivity. }
      apply not_in_app in Hs. destruct Hs as [_ [Hs _]]. discriminate Hs.
  - destruct Hstop as [H | [H | H]];
      apply (f_equal String.length) in H; rewrite Hlen in H; simpl in H; lia.
  - rewrite append_nil_r in Hstop. destruct Hstop as [H | [H | H]].
    + congruence.
    + rewrite H in Hn2. destruct Hn2 as [Hs _]. discriminate Hs.
    + apply (Hgit a1). rewrite H. reflexivity.
Qed.

(** X15: for a non-empty owner and name without ["/"], the URL with
    ["/"] or [".git"] appended gives back exactly that owner and name,
    and so does the bare URL unless the name itself ends in [".git"]; so
    of a bare URL whose last segment ends in [".git"] the name returned
    is the segment without that ending. *)
Theorem validateRepoUrl_round_trip (o r sfx : string) :
  o <> "" -> r <> "" -> not_in "/" o -> not_in "/" r ->
  sfx = "/" \/ sfx = ".git" \/ (sfx = "" /\ forall r0, r <> r0 ++ ".git") ->
  validateRepoUrl ("https://github.com/" ++ o ++ "/" ++ r ++ sfx)
  = inr {| owner := Some o; repo := Some r |}.
Proof.
  intros Ho Hr Hno Hnr Hsfx.
  unfold validateRepoUrl.
  change regex_repo_url with (Seq Bol
    (Seq (Lit "https://github.com/")
       (Seq (Group 1 (Plus true slash))
          (Seq (Chr slash)
             (Seq (Group 2 (Plus false slash))
                (Seq (Opt (Alt (Chr slash) (Lit ".git"))) Eol)))))).
  rewrite string_match_bol.
  set (tail := Seq (Opt (Alt (Chr slash) (Lit ".git"))) Eol).
  rewrite matcher_seq, matcher_bol0. cbv beta.
  rewrite matcher_seq, matcher_Lit. cbv beta.
  rewrite matcher_seq, matcher_group_plus. cbn [rest endIndex captures].
  change ("/" ++ r ++ sfx) with (String slash (r ++ sfx)).
  rewrite plus_greedy_delimited; [| | exact Ho | exact Hno].
  2:{ intros y Hy. rewrite matcher_seq. unfold set_capture. simpl.
      destruct (rest y) as [|a t]; [reflexivity|].
      destruct (Ascii.eqb a slash) eqn:Ea; [|reflexivity].
      apply Ascii.eqb_eq in Ea. subst a. exfalso. apply (Hy t). reflexivity. }
  unfold set_capture at 1. cbn [rest endIndex captures].
  rewrite matcher_seq, matcher_chr. cbv beta.
  rewrite matcher_seq, matcher_group_plus. cbn [rest endIndex captures].
  set (i2 := S (0 + String.length "https://github.com/" + String.length o)).
  set (caps1 := fun m : nat => if Nat.eqb m 1 then _ else None).
  destruct (@tail_accepts
              (set_capture 2 (substring 0 (i2 + String.length r - i2) (r ++ sfx))
                 (mkState (i2 + String.length r) sfx caps1)))
    as [z [Hz Hcaps]].
  { cbn [set_capture rest]. tauto. }
  rewrite (@plus_lazy_first slash _ caps1 sfx z r i2 Hr Hnr).
  - rewrite Hcaps. unfold set_capture, caps1. cbn [captures Nat.eqb].
    replace (i2 + String.length r - i2)%nat with (String.length r) by lia.
    replace (0 + String.length "https://github.com/" + String.length o
             - (0 + String.length "https://github.com/"))%nat
      with (String.length o) by lia.
    rewrite !substring_prefix. reflexivity.
  - intros a1 a2 E H1 H2.
    match goal with
    | |- ?m = None => destruct m as [z'|] eqn:Em; [exfalso | reflexivity]
    end.
    apply (@no_early_stop r sfx a1 a2 E H2 Hnr Hsfx).
    apply (@tail_rejects
             (set_capture 2
                (substring 0 (i2 + String.length a1 - i2) (r ++ sfx))
                (mkState (i2 + String.length a1) (a2 ++ sfx) caps1))).
    fold tail. cbn [endIndex] in Em. rewrite Em. discriminate.
  - cbn [endIndex]. exact Hz.
Qed.

Lemma validateRepoUrl_round_trip_witness :
  validateRepoUrl ("https://github.com/" ++ "soham-shrinagar" ++ "/" ++ "ProductViz" ++ ".git")
  = inr {| owner := Some "soham-shrinagar"; repo := Some "ProductViz" |}.
Proof.
  apply (@validateRepoUrl_round_trip "soham-shrinagar" "ProductViz" ".git").
  - discriminate.
  - discriminate.
  - simpl. repeat split; reflexivity.
  - simpl. repeat split; reflexivity.
  - right. left. reflexivity.
Defined.

Lemma validateRepoUrl_cases (url : string) :
  (validateRepoUrl url = inl (Backend.Error "Invalid GitHub repository URL")
   /\ ~ repo_url_form url)
  \/ (exists o r sfx,
        validateRepoUrl url = inr {| owner := Some o; repo := Some r |}
        /\ repo_url_parts url o r sfx).
Proof.
  unfold validateRepoUrl.
  change regex_repo_url with (Seq Bol
    (Seq (Lit "https://github.com/")
       (Seq (Group 1 (Plus true slash))
          (Seq (Chr slash)
             (Seq (Group 2 (Plus false slash))
                (Seq (Opt (Alt (Chr slash) (Lit ".git"))) Eol)))))) at 1 2.
  rewrite string_match_bol.
  fold regex_repo_url.
  destruct (matcher regex_repo_url _ Some) as [m|] eqn:E.
  - right. apply matcher_sound in E. destruct E as [y [Hrun [= ->]]].
    apply run_repo_url in Hrun. destruct Hrun as [o [r [sfx [Hparts [H1 H2]]]]].
    exists o, r, sfx. rewrite H1, H2. auto.
  - left. split; [reflexivity|].
    intros [o [r [sfx Hparts]]].
    destruct (repo_url_run Hparts) as [m Hm].
    revert E. apply (matcher_complete Hm). discriminate.
Qed.

End ValidationMore.

(** ** The route that takes a URL *)

Module RoutesFacts.

Import JS Backend Routes Validation Spec ValidationFacts ValidationMore.

Local Open Scope string_scope.

Section Route.

Variable axios_repo : string -> settled GitHubRepo.
Variable axios_contributors : string -> settled (list GitHubContributor).
Variable axios_commits : string -> settled (list GitHubCommit).
Variable axios_issues : string -> settled (list (option GitHubIssue)).
Variable axios_activity : string -> settled (option (list (option CommitActivityWeek))).
Variable axios_languages : string -> settled (option (list (string * Q))).
Variable issues_order : list nat.
Variable analytics_order : list nat.
Variable development : bool.
Variable timestamp_now : string.
Variable URL_valid : string -> bool.

Local Abbreviation by_url :=
  (analyze_url_route axios_repo axios_contributors axios_commits axios_issues
     axios_activity axios_languages issues_order analytics_order development
     timestamp_now URL_valid).
Local Abbreviation by_path :=
  (analyze_route axios_repo axios_contributors axios_commits axios_issues
     axios_activity axios_languages issues_order analytics_order development
     timestamp_now).

(** X16: [POST /analyze-url] answers in one of three ways.  A body whose
    [url] is not a string that the URL check accepts gets status 400
    "Validation error" without any upstream request.  An accepted URL
    that is not of the GitHub repository form gets status 500 "Internal
    server error", not 400, again with the cache untouched.  An accepted
    URL of that form is answered exactly as [GET /analyze/:owner/:repo]
    for an owner and a name that split the URL. *)
Theorem analyze_url_route_cases (body_url : value) (c : Cache) :
  (exists details,
      by_url body_url c = (Failure 400 "Validation error" details None, c)
      /\ details <> []
      /\ forall s, body_url = JStr s -> URL_valid s = false)
  \/ (exists s,
        body_url = JStr s /\ URL_valid s = true /\ ~ repo_url_form s
        /\ by_url body_url c
           = (Failure 500 "Internal server error" []
                (if development then Some "Invalid GitHub repository URL" else None),
              c))
  \/ (exists s o r sfx,
        body_url = JStr s /\ URL_valid s = true /\ repo_url_parts s o r sfx
        /\ by_url body_url c = by_path o r c).
Proof.
  destruct body_url as [| | |s| |] eqn:Eb;
    try (left; eexists; split; [reflexivity | split; [discriminate | intros s' H; discriminate H]]).
  destruct (URL_valid s) eqn:Ev.
  - right. destruct (validateRepoUrl_cases s) as [[Hv Hform] | [o [r [sfx [Hv Hparts]]]]].
    + left. exists s.
      split; [reflexivity | split; [exact Ev | split; [exact Hform|]]].
      unfold analyze_url_route, repoUrlSchema_parse. rewrite Ev, Hv. reflexivity.
    + right. exists s, o, r, sfx.
      split; [reflexivity | split; [exact Ev | split; [exact Hparts|]]].
      unfold analyze_url_route, repoUrlSchema_parse, analyze_route, repoParamsSchema_parse.
      rewrite Ev, Hv. cbn [owner repo text_of].
      destruct Hparts as [_ [Ho [Hr _]]].
      destruct o as [|co o']; [congruence|]. destruct r as [|cr r']; [congruence|].
      reflexivity.
  - left. eexists. split; [|split].
    + unfold analyze_url_route, repoUrlSchema_parse. rewrite Ev. reflexivity.
    + discriminate.
    + intros s' [= <-]. exact Ev.
Qed.

End Route.

End RoutesFacts.

(** ** Requesting a snapshot *)

Module FetchingFacts.

Import Fetching.

Local Open Scope string_scope.

Section Client.

Variable String_trim : string -> string.
Variable exchange : nat -> string -> Exchange.
Variable second_settles_first : bool.

Local Abbreviation run := (handleAnalyze String_trim exchange second_settles_first).

Lemma eqb_empty_false (s : string) : String.eqb s "" = false -> s <> "".
Proof. intros H ->. discriminate H. Qed.

(** X17: [handleAnalyze] never sends an empty URL: it sends nothing, or
    the trimmed first URL outside the comparison view, or the two trimmed
    URLs in the comparison view; and when it sends nothing it changes
    nothing but the error message, which it sets. *)
Theorem handleAnalyze_requests (p : Page) :
  let p' := fst (run p) in
  let sent := snd (run p) in
  Forall (fun u => u <> "") sent
  /\ (sent = []
      \/ (viewMode p <> compare /\ sent = [String_trim (repoUrl p)])
      \/ (viewMode p = compare
          /\ sent = [String_trim (repoUrl p); String_trim (repoUrl2 p)]))
  /\ (sent = [] ->
      viewMode p' = viewMode p /\ repoUrl p' = repoUrl p /\ repoUrl2 p' = repoUrl2 p
      /\ analytics p' = analytics p /\ analytics2 p' = analytics2 p
      /\ loading p' = loading p /\ error p' <> "").
Proof.
  unfold handleAnalyze.
  destruct (String.eqb (String_trim (repoUrl p)) "") eqn:E1.
  - cbn. repeat split; auto. discriminate.
  - apply eqb_empty_false in E1.
    destruct (viewMode p) eqn:Em; cbn [is_compare andb].
    + cbn. repeat split; auto; try discriminate.
      right. left. split; [discriminate | reflexivity].
    + destruct (String.eqb (String_trim (repoUrl2 p)) "") eqn:E2.
      * cbn. repeat split; auto. discriminate.
      * apply eqb_empty_false in E2. cbn.
        repeat split; auto; try discriminate.
    + cbn. repeat split; auto; try discriminate.
      right. left. split; [discriminate | reflexivity].
Qed.

(** X18: a run that sends a request leaves a state that does not depend
    on the snapshots, the error or the loading flag shown before it, and
    in which nothing is loading. *)
Theorem handleAnalyze_fresh (p q : Page) :
  viewMode p = viewMode q -> repoUrl p = repoUrl q -> repoUrl2 p = repoUrl2 q ->
  snd (run p) <> [] ->
  fst (run p) = fst (run q) /\ loading (fst (run p)) = false.
Proof.
  intros Hm H1 H2. unfold handleAnalyze. rewrite <- Hm, <- H1, <- H2.
  destruct (String.eqb (String_trim (repoUrl p)) ""); [cbn; congruence|].
  destruct (is_compare (viewMode p)); cbn [andb].
  - destruct (String.eqb (String_trim (repoUrl2 p)) ""); [cbn; congruence|].
    intros _. split; reflexivity.
  - intros _. split; reflexivity.
Qed.

(** X19: after a run that sends a request, a snapshot in a slot is the
    one that the reply to that slot's request carried; the error is empty
    when every request succeeded, and is otherwise the message of a
    request that failed, while the slots of the requests that succeeded
    keep their snapshots. *)
Theorem handleAnalyze_outcome (p : Page) :
  snd (run p) <> [] ->
  let p' := fst (run p) in
  let r1 := settle (exchange 0 (String_trim (repoUrl p))) in
  let r2 := settle (exchange 1 (String_trim (repoUrl2 p))) in
  analytics p' = stored r1
  /\ (viewMode p = compare -> analytics2 p' = stored r2)
  /\ (viewMode p <> compare -> analytics2 p' = None)
  /\ ((exists d1, r1 = inr d1) ->
      (viewMode p = compare -> exists d2, r2 = inr d2) ->
      error p' = "")
  /\ (forall err, r1 = inl err ->
      (viewMode p = compare -> exists d2, r2 = inr d2) ->
      error p' = errorMessage err)
  /\ (forall err d1, viewMode p = compare -> r1 = inr d1 -> r2 = inl err ->
      error p' = errorMessage err)
  /\ (forall err1 err2, viewMode p = compare -> r1 = inl err1 -> r2 = inl err2 ->
      error p' = errorMessage (if second_settles_first then err2 else err1)).
Proof.
  unfold handleAnalyze.
  destruct (String.eqb (String_trim (repoUrl p)) ""); [cbn; congruence|].
  destruct (viewMode p) eqn:Em; cbn [is_compare andb].
  - intros _. cbn.
    repeat split; try congruence.
    + intros [d1 ->] _. reflexivity.
    + intros err -> _. reflexivity.
  - destruct (String.eqb (String_trim (repoUrl2 p)) ""); [cbn; congruence|].
    intros _. cbn.
    repeat split; try congruence.
    + intros [d1 ->] H. destruct (H eq_refl) as [d2 ->]. reflexivity.
    + intros err -> H. destruct (H eq_refl) as [d2 ->]. reflexivity.
    + intros err d1 _ -> ->. reflexivity.
    + intros err1 err2 _ -> ->. reflexivity.
  - intros _. cbn.
    repeat split; try congruence.
    + intros [d1 ->] _. reflexivity.
    + intros err -> _. reflexivity.
Qed.

(** X20: outside the comparison view [handleAnalyze] does to the URL, the
    snapshot, the loading flag and the error what [analyzeRepository] of
    the first component does, and sends the same request. *)
Theorem single_mode_agrees (p : Page) :
  viewMode p <> compare ->
  analyzeRepository String_trim exchange (first_component p)
  = (first_component (fst (run p)), snd (run p)).
Proof.
  intros Hm. unfold analyzeRepository, handleAnalyze, first_component.
  cbn [Metrics.repoUrl Metrics.analytics Metrics.loading Metrics.error].
  destruct (String.eqb (String_trim (repoUrl p)) ""); [reflexivity|].
  destruct (viewMode p); [|congruence|]; cbn [is_compare andb];
    destruct (settle _); reflexivity.
Qed.

End Client.

Lemma handleAnalyze_fresh_witness :
  fst (handleAnalyze Fixtures.String_trim Fixtures.first_down false Fixtures.comparison)
  = fst (handleAnalyze Fixtures.String_trim Fixtures.first_down false
           Fixtures.comparison_at_start)
  /\ loading
       (fst (handleAnalyze Fixtures.String_trim Fixtures.first_down false
               Fixtures.comparison))
     = false.
Proof.
  apply (@handleAnalyze_fresh Fixtures.String_trim Fixtures.first_down false
           Fixtures.comparison Fixtures.comparison_at_start);
    try reflexivity.
  vm_compute. discriminate.
Defined.

Lemma handleAnalyze_outcome_witness :
  let p' :=
    fst (handleAnalyze Fixtures.String_trim Fixtures.first_down false
           Fixtures.comparison) in
  analytics p' = None
  /\ analytics2 p' = Some Sample.scenario_A
  /\ error p' = "Failed to fetch".
Proof.
  pose proof (@handleAnalyze_outcome Fixtures.String_trim Fixtures.first_down false
                Fixtures.comparison) as H.
  destruct H as [H1 [H2 [_ [_ [H5 _]]]]].
  - vm_compute. discriminate.
  - cbv zeta. split; [exact H1 | split; [exact (H2 eq_refl)|]].
    apply (H5 (Some "Failed to fetch")); [reflexivity|].
    intros _. eexists. reflexivity.
Defined.

Lemma single_mode_agrees_witness :
  analyzeRepository Fixtures.String_trim Fixtures.first_down
    (first_component Fixtures.health_page)
  = (first_component
       (fst (handleAnalyze Fixtures.String_trim Fixtures.first_down false
               Fixtures.health_page)),
     snd (handleAnalyze Fixtures.String_trim Fixtures.first_down false
            Fixtures.health_page)).
Proof.
  apply (@single_mode_agrees Fixtures.String_trim Fixtures.first_down false
           Fixtures.health_page).
  discriminate.
Defined.

End FetchingFacts.

(** ** From the issue pages to the issue statistics *)

Module IssueFlow.

Import Backend Metrics MetricsFacts Terms.

Local Open Scope string_scope.

Lemma count_state_app (s : string) (l1 l2 : list (option GitHubIssue)) :
  Spec.count_state s (l1 ++ l2)
  = (Spec.count_state s l1 + Spec.count_state s l2)%nat.
Proof.
  induction l1 as [|[i|] l1 IH]; simpl; auto.
  destruct (state i); auto. destruct (String.eqb _ s); simpl; auto.
Qed.

Lemma count_state_all (s t : string) (l : list (option GitHubIssue)) :
  Forall (in_state s) l ->
  Spec.count_state t l = if String.eqb s t then List.length l else 0%nat.
Proof.
  induction 1 as [|i l [x [-> Hx]] _ IH]; simpl.
  - destruct (String.eqb s t); reflexivity.
  - rewrite Hx, IH. destruct (String.eqb s t); reflexivity.
Qed.

(** X21: on a cache miss the issue list is the page of open issues
    followed by the page of closed issues.  With pages of at most fifty
    records the statistics of a snapshot with that list never report a
    total above one hundred, and when every record of the first page is
    open and every record of the second is closed they report the two
    page lengths and their sum. *)
Theorem issue_counts_capped
    (axios_issues : string -> settled (list (option GitHubIssue)))
    (issues_order : list nat) (o n : string) (c : Cache)
    (open_page closed_page : list (option GitHubIssue)) :
  cached_issues o n c = None ->
  axios_issues (baseURL ++ "/repos/" ++ o ++ "/" ++ n
                ++ "/issues?state=open&per_page=50") = inr open_page ->
  axios_issues (baseURL ++ "/repos/" ++ o ++ "/" ++ n
                ++ "/issues?state=closed&per_page=50") = inr closed_page ->
  (List.length open_page <= 50)%nat -> (List.length closed_page <= 50)%nat ->
  fst (getIssues axios_issues issues_order o n c)
  = inr (open_page ++ closed_page)%list
  /\ forall (comp : Component) (a : RepoAnalytics),
      analytics comp = Some a ->
      issues a = Some (open_page ++ closed_page)%list ->
      (stats_total (getIssueStats comp) <= 100)%nat
      /\ (Forall (in_state "open") open_page ->
          Forall (in_state "closed") closed_page ->
          getIssueStats comp
          = mkIssueStats (List.length open_page) (List.length closed_page)
              (List.length open_page + List.length closed_page)).
Proof.
  intros Hmiss Hopen Hclosed Hlo Hlc. split.
  - unfold getIssues. unfold cached_issues in Hmiss.
    rewrite Hmiss, Hopen, Hclosed. reflexivity.
  - intros comp a Ha Hi.
    destruct (getIssueStats_counts comp Ha Hi) as [H1 [H2 [H3 H4]]].
    rewrite length_app in H4. split; [lia|].
    intros Fo Fc.
    rewrite !count_state_app in H1, H2.
    rewrite (count_state_all "open" Fo), (count_state_all "open" Fc) in H1.
    rewrite (count_state_all "closed" Fo), (count_state_all "closed" Fc) in H2.
    cbn in H1, H2.
    destruct (getIssueStats comp) as [so sc st]. cbn in *.
    f_equal; lia.
Qed.

Lemma issue_counts_capped_witness :
  getIssueStats (Sample.component Fixtures.two_pages)
  = mkIssueStats 2 1 3.
Proof.
  pose proof (@issue_counts_capped Fixtures.issue_pages [0; 1]%nat "octocat" "hello"
                empty_cache
                [Sample.issue 1 (JStr "open") ["bug"]; Sample.issue 2 (JStr "open") []]
                [Sample.issue 3 (JStr "closed") []]
                eq_refl eq_refl eq_refl) as H.
  destruct H as [_ H]; [simpl; lia | simpl; lia |].
  destruct (H (Sample.component Fixtures.two_pages) Fixtures.two_pages
              eq_refl eq_refl) as [_ H'].
  apply H'; repeat constructor; eexists; split; reflexivity.
Defined.

End IssueFlow.
